(** * AIvilization: agent orchestration and tool execution engine

    A shallow embedding of the Python sources under [src/aivilization]
    and the properties of its specification, section by section:

    - [Py]             Python list slices and insertion-ordered dicts
    - [Memory]         core/memory.py       (conversation window)
    - [Toolification]  tools/toolification.py (skeleton extraction)
    - [Sandbox]        core/sandbox.py      (confined file access)
    - [Registry]       tools/registry.py, core/tool.py
    - [Civ]            core/agent.py, core/civilization.py,
                       tools/builtin.py     (decision loop, delegation)
    - [Persistence]    Civilization.save / Civilization.load
    - [Events]         core/events.py       (event bus)
    - [Store]          storage/json_store.py (files and index)
    - [Analysis]       tools/toolification.py (pattern detection)
    - [SandboxTool]    tools/builtin.py     (sandbox tool) *)

From Stdlib Require Import ZArith Lia Ascii String List Bool.
From stdpp Require Import base tactics option list strings pretty.

Local Open Scope string_scope.
Local Open Scope list_scope.
Local Open Scope Z_scope.

(** ** Python data: slices and dicts *)

Module Py.

Section Slices.
Context {A : Type}.

(** The index a slice bound [i] denotes in a list of length [n]:
    negative bounds count from the end, and every bound is clipped
    to [0..n]. *)
Definition clip (n : nat) (i : Z) : nat :=
  if i <? 0 then Z.to_nat (Z.max 0 (Z.of_nat n + i))
  else Nat.min n (Z.to_nat i).

(** [l[:j]] *)
Definition slice_to (j : Z) (l : list A) : list A :=
  take (clip (length l) j) l.

(** [l[i:]] *)
Definition slice_from (i : Z) (l : list A) : list A :=
  drop (clip (length l) i) l.

(** The last [n] elements, the meaning one intends by [l[-n:]]. *)
Definition lastn (n : nat) (l : list A) : list A :=
  drop (length l - n)%nat l.

(** [l[-n:]] for a positive [n] is the last [n] elements, for [0] it is the
    whole list. *)
Lemma slice_from_lastn (l : list A) (n : Z) :
  0 < n → slice_from (- n) l = lastn (Z.to_nat n) l.
Proof.
  intros Hn. unfold slice_from, lastn, clip.
  destruct (Z.ltb_spec (- n) 0) as [_|?]; [|lia]. f_equal. lia.
Qed.

Lemma slice_from_minus_zero (l : list A) : slice_from (- 0) l = l.
Proof. unfold slice_from, clip. simpl. by rewrite Nat.min_0_r. Qed.

Lemma lastn_length (n : nat) (l : list A) :
  length (lastn n l) = Nat.min n (length l).
Proof. unfold lastn. rewrite length_drop. lia. Qed.

Lemma lastn_all (n : nat) (l : list A) :
  (length l ≤ n)%nat → lastn n l = l.
Proof.
  intros H. unfold lastn. by replace (length l - n)%nat with 0%nat by lia.
Qed.

Lemma lastn_suffix (n : nat) (l : list A) : lastn n l `suffix_of` l.
Proof. unfold lastn. apply suffix_drop. Qed.

Lemma last_drop (k : nat) (l : list A) :
  (k < length l)%nat → last (drop k l) = last l.
Proof.
  intros H. rewrite <- (take_drop k l) at 2. rewrite last_app.
  destruct (last (drop k l)) eqn:E; [done|]. apply last_None in E.
  apply (f_equal length) in E. rewrite length_drop in E. simpl in E. lia.
Qed.

Lemma lastn_snoc_last (n : nat) (l : list A) x :
  (1 ≤ n)%nat → last (lastn n (l ++ [x])) = Some x.
Proof.
  intros Hn. unfold lastn. rewrite length_app. simpl.
  rewrite drop_app_le by lia. by rewrite last_snoc.
Qed.
End Slices.

(** A [dict] with [str] keys.  Python dicts keep insertion order, so the
    model is an association list: assignment to a present key replaces
    the value in place, assignment to a new key appends. *)
Definition dict (V : Type) := list (string * V).

Section Dict.
Context {V : Type}.

Fixpoint get (d : dict V) (k : string) : option V :=
  match d with
  | [] => None
  | (k', v) :: d' => if decide (k' = k) then Some v else get d' k
  end.

(** [k in d] *)
Definition mem (d : dict V) (k : string) : bool :=
  match get d k with Some _ => true | None => false end.

(** [d[k] = v] *)
Fixpoint set (k : string) (v : V) (d : dict V) : dict V :=
  match d with
  | [] => [(k, v)]
  | (k', v') :: d' =>
      if decide (k' = k) then (k, v) :: d' else (k', v') :: set k v d'
  end.

(** [del d[k]] when the key is present *)
Fixpoint del (k : string) (d : dict V) : dict V :=
  match d with
  | [] => []
  | (k', v) :: d' =>
      if decide (k' = k) then del k d' else (k', v) :: del k d'
  end.

Definition keys (d : dict V) : list string := d.*1.
Definition values (d : dict V) : list V := d.*2.

Lemma get_set (d : dict V) k v k' :
  get (set k v d) k' = if decide (k = k') then Some v else get d k'.
Proof.
  induction d as [|[k0 v0] d IH]; simpl.
  - done.
  - destruct (decide (k0 = k)) as [->|Hne]; simpl.
    + destruct (decide (k = k')); done.
    + rewrite IH. destruct (decide (k0 = k')) as [->|]; [|done].
      destruct (decide (k = k')); congruence.
Qed.

Lemma get_set_eq (d : dict V) k v : get (set k v d) k = Some v.
Proof. rewrite get_set. by rewrite decide_True. Qed.

Lemma get_set_ne (d : dict V) k v k' :
  k ≠ k' → get (set k v d) k' = get d k'.
Proof. intros. rewrite get_set. by rewrite decide_False. Qed.

Lemma get_del (d : dict V) k k' :
  get (del k d) k' = if decide (k = k') then None else get d k'.
Proof.
  induction d as [|[k0 v0] d IH]; simpl.
  - by destruct (decide (k = k')).
  - destruct (decide (k0 = k)) as [->|Hne]; simpl.
    + rewrite IH. destruct (decide (k = k')); done.
    + rewrite IH. destruct (decide (k0 = k')) as [->|]; [|done].
      destruct (decide (k = k')); congruence.
Qed.

Lemma get_del_eq (d : dict V) k : get (del k d) k = None.
Proof. rewrite get_del. by rewrite decide_True. Qed.

Lemma get_del_ne (d : dict V) k k' :
  k ≠ k' → get (del k d) k' = get d k'.
Proof. intros. rewrite get_del. by rewrite decide_False. Qed.

Lemma mem_get (d : dict V) k : mem d k = true ↔ is_Some (get d k).
Proof.
  unfold mem. destruct (get d k); split; intros H; eauto; try done.
Qed.

Lemma get_Some_elem (d : dict V) k v : get d k = Some v → (k, v) ∈ d.
Proof.
  induction d as [|[k0 v0] d IH]; simpl; [done|].
  destruct (decide (k0 = k)) as [->|].
  - intros [= ->]. left.
  - intros. right. auto.
Qed.

(** The values of a dict after an assignment and after a deletion. *)
Lemma get_Some_values (d : dict V) k v : get d k = Some v → v ∈ values d.
Proof.
  intros H. apply get_Some_elem in H. unfold values.
  apply list_elem_of_fmap. by exists (k, v).
Qed.

Lemma values_set_elem (d : dict V) k v x :
  x ∈ values (set k v d) → x = v ∨ x ∈ values d.
Proof.
  unfold values. induction d as [|[k0 v0] d IH]; simpl.
  - intros ->%list_elem_of_singleton. by left.
  - destruct (decide (k0 = k)); simpl; rewrite !elem_of_cons.
    + intros [->|?]; auto.
    + intros [->|H]; [auto|]. destruct (IH H); auto.
Qed.

Lemma values_del_elem (d : dict V) k x :
  x ∈ values (del k d) → x ∈ values d.
Proof.
  unfold values. induction d as [|[k0 v0] d IH]; simpl; [done|].
  destruct (decide (k0 = k)); simpl; rewrite !elem_of_cons; [auto|].
  intros [->|H]; auto.
Qed.

Lemma NoDup_values_set (d : dict V) k v :
  NoDup (values d) → v ∉ values d → NoDup (values (set k v d)).
Proof.
  unfold values. induction d as [|[k0 v0] d IH]; simpl.
  - intros _ _. apply NoDup_singleton.
  - intros [H0 Hd]%NoDup_cons [Hv0 Hv]%not_elem_of_cons.
    destruct (decide (k0 = k)); simpl; apply NoDup_cons.
    + done.
    + split; [|by apply IH]. intros Hin.
      apply (values_set_elem d k v v0) in Hin as [->|Hin]; done.
Qed.

Lemma NoDup_values_del (d : dict V) k :
  NoDup (values d) → NoDup (values (del k d)).
Proof.
  unfold values. induction d as [|[k0 v0] d IH]; simpl; [done|].
  intros [H0 Hd]%NoDup_cons. destruct (decide (k0 = k)); simpl; [auto|].
  apply NoDup_cons. split; [|auto]. intros Hin. by apply values_del_elem in Hin.
Qed.

(** Among distinct values, deleting a key removes its value. *)
Lemma values_del_get (d : dict V) k v :
  NoDup (values d) → get d k = Some v → v ∉ values (del k d).
Proof.
  unfold values. induction d as [|[k0 v0] d IH]; simpl; [done|].
  intros [H0 Hd]%NoDup_cons. destruct (decide (k0 = k)) as [->|Hne].
  - intros [= ->] Hin. by apply values_del_elem in Hin.
  - intros Hg. simpl. apply not_elem_of_cons. split; [|by apply IH].
    intros ->. by apply get_Some_values in Hg.
Qed.

(** The keys of a dict are distinct, and stay so. *)
Lemma keys_set_elem (d : dict V) k v x :
  x ∈ keys (set k v d) → x = k ∨ x ∈ keys d.
Proof.
  unfold keys. induction d as [|[k0 v0] d IH]; simpl.
  - intros ->%list_elem_of_singleton. by left.
  - destruct (decide (k0 = k)); simpl; rewrite !elem_of_cons.
    + intros [->|?]; auto.
    + intros [->|H]; [auto|]. destruct (IH H); auto.
Qed.

Lemma keys_del_elem (d : dict V) k x :
  x ∈ keys (del k d) → x ∈ keys d ∧ x ≠ k.
Proof.
  unfold keys. induction d as [|[k0 v0] d IH]; simpl; [by intros ?%elem_of_nil|].
  destruct (decide (k0 = k)); simpl; rewrite !elem_of_cons.
  - intros H. destruct (IH H). auto.
  - intros [->|H]; [auto|]. destruct (IH H). auto.
Qed.

Lemma NoDup_keys_set (d : dict V) k v :
  NoDup (keys d) → NoDup (keys (set k v d)).
Proof.
  unfold keys. induction d as [|[k0 v0] d IH]; simpl.
  - intros _. apply NoDup_singleton.
  - intros [H0 Hd]%NoDup_cons.
    destruct (decide (k0 = k)) as [->|Hne]; simpl; apply NoDup_cons.
    + done.
    + split; [|by apply IH]. intros Hin.
      apply (keys_set_elem d k v k0) in Hin as [->|Hin]; done.
Qed.

Lemma NoDup_keys_del (d : dict V) k :
  NoDup (keys d) → NoDup (keys (del k d)).
Proof.
  unfold keys. induction d as [|[k0 v0] d IH]; simpl; [done|].
  intros [H0 Hd]%NoDup_cons. destruct (decide (k0 = k)); simpl; [auto|].
  apply NoDup_cons. split; [|auto]. intros Hin.
  by apply keys_del_elem in Hin as [Hin _].
Qed.

Lemma elem_get (d : dict V) k v :
  NoDup (keys d) → (k, v) ∈ d → get d k = Some v.
Proof.
  unfold keys. induction d as [|[k0 v0] d IH]; simpl; [by intros _ ?%elem_of_nil|].
  intros [H0 Hd]%NoDup_cons [[= -> ->]|Hin]%elem_of_cons.
  - by rewrite decide_True.
  - rewrite decide_False; [by apply IH|]. intros ->. apply H0.
    apply list_elem_of_fmap. by exists (k, v).
Qed.

(** Among distinct values, a value is found under one key. *)
Lemma get_inj (d : dict V) k1 k2 v :
  NoDup (values d) → get d k1 = Some v → get d k2 = Some v → k1 = k2.
Proof.
  unfold values. induction d as [|[k0 v0] d IH]; simpl; [done|].
  intros [H0 Hd]%NoDup_cons.
  destruct (decide (k0 = k1)) as [E1|H1]; destruct (decide (k0 = k2)) as [E2|H2].
  - congruence.
  - intros [= ->] H. by apply get_Some_values in H.
  - intros H [= ->]. by apply get_Some_values in H.
  - by apply IH.
Qed.

(** Among distinct keys and values, deleting a key removes its value and
    no other. *)
Lemma values_del_iff (d : dict V) k v x :
  NoDup (keys d) → NoDup (values d) → get d k = Some v →
  x ∈ values (del k d) ↔ x ∈ values d ∧ x ≠ v.
Proof.
  intros Hk Hv Hg. split.
  - intros Hx. split; [by eapply values_del_elem|].
    intros ->. by eapply values_del_get.
  - intros [Hx Hne]. unfold values in Hx.
    apply list_elem_of_fmap in Hx as ([k' x'] & -> & Hin). simpl in Hne.
    assert (k' ≠ k) as Hkk.
    { intros ->. apply (elem_get _ _ _ Hk) in Hin. congruence. }
    clear Hk Hv Hg. unfold values.
    induction d as [|[k0 v0] d IH]; simpl; [by apply elem_of_nil in Hin|].
    apply elem_of_cons in Hin as [[= <- <-]|Hin].
    + rewrite decide_False by done. simpl. left.
    + destruct (decide (k0 = k)); simpl; [auto|]. right. auto.
Qed.
End Dict.

(** The input of a tool call, [dict[str, Any]] decoded from JSON.  Every
    property the built-in tools read is declared a string in their schemas,
    except the schema of a new tool, which is kept as its JSON text; so the
    values are strings. *)
Definition Input := dict string.

End Py.

(** ** core/memory.py *)

Module Memory.
Import Py.

Section Conversation.
(** A turn is [{"role": role, "content": content}]. *)
Context {Content : Type}.

Record Turn := { role : string; content : Content }.

Record AgentMemory := {
  conversation_history : list Turn;
  max_conversation_turns : Z;
  knowledge : dict string;
  role_notes : list string;
}.

Definition with_history (m : AgentMemory) (h : list Turn) : AgentMemory :=
  {| conversation_history := h;
     max_conversation_turns := max_conversation_turns m;
     knowledge := knowledge m;
     role_notes := role_notes m |}.

Definition _compact_history (m : AgentMemory) : AgentMemory :=
  let h := conversation_history m in
  let n := max_conversation_turns m in
  if Z.of_nat (length h) >? n + 2
  then with_history m (slice_to 2 h ++ slice_from (- n) h)
  else m.

Definition add_conversation_turn (r : string) (c : Content)
    (m : AgentMemory) : AgentMemory :=
  let m1 := with_history m
              (conversation_history m ++ [{| role := r; content := c |}]) in
  if Z.of_nat (length (conversation_history m1)) >? max_conversation_turns m1 * 2
  then _compact_history m1
  else m1.

(** [self.knowledge[key] = value] *)
Definition add_knowledge (k v : string) (m : AgentMemory) : AgentMemory :=
  {| conversation_history := conversation_history m;
     max_conversation_turns := max_conversation_turns m;
     knowledge := set k v (knowledge m);
     role_notes := role_notes m |}.

Definition add_role_note (note : string) (m : AgentMemory) : AgentMemory :=
  {| conversation_history := conversation_history m;
     max_conversation_turns := max_conversation_turns m;
     knowledge := knowledge m;
     role_notes := role_notes m ++ [note] |}.

(** A sequence of calls, oldest first. *)
Definition add_turns (ts : list Turn) (m : AgentMemory) : AgentMemory :=
  foldl (λ m t, add_conversation_turn (role t) (content t) m) m ts.

(** [AgentMemory(max_conversation_turns=n)] *)
Definition empty_memory (n : Z) : AgentMemory :=
  {| conversation_history := [];
     max_conversation_turns := n;
     knowledge := [];
     role_notes := [] |}.

(** *** What one call stores *)

Lemma slice_to_take (h : list Turn) (j : nat) :
  slice_to (Z.of_nat j) h = take j h.
Proof.
  unfold slice_to, clip.
  destruct (Z.ltb_spec (Z.of_nat j) 0) as [?|_]; [lia|].
  rewrite Nat2Z.id. destruct (decide (j ≤ length h)%nat).
  - by rewrite Nat.min_r by lia.
  - rewrite Nat.min_l by lia. by rewrite !take_ge by lia.
Qed.

Lemma slice_from_neg (h : list Turn) (n : Z) :
  0 < n → slice_from (- n) h = lastn (Z.to_nat n) h.
Proof.
  intros Hn. unfold slice_from, lastn, clip.
  destruct (Z.ltb_spec (- n) 0) as [_|?]; [|lia].
  f_equal. lia.
Qed.

(** [h[-0:]] is [h[0:]], the whole list. *)
Lemma slice_from_zero (h : list Turn) : slice_from (- 0) h = h.
Proof. unfold slice_from, clip. simpl. by rewrite Nat.min_0_r. Qed.

Lemma history_add_conversation_turn r c (m : AgentMemory) :
  let h1 := conversation_history m ++ [{| role := r; content := c |}] in
  let n := max_conversation_turns m in
  conversation_history (add_conversation_turn r c m) =
    if (Z.of_nat (length h1) >? n * 2) && (Z.of_nat (length h1) >? n + 2)
    then slice_to 2 h1 ++ slice_from (- n) h1
    else h1.
Proof.
  intros h1 n. unfold add_conversation_turn, _compact_history. simpl.
  fold h1. fold n.
  destruct (Z.of_nat (length h1) >? n * 2); simpl; [|done].
  by destruct (Z.of_nat (length h1) >? n + 2).
Qed.

Lemma max_turns_add_conversation_turn r c (m : AgentMemory) :
  max_conversation_turns (add_conversation_turn r c m) = max_conversation_turns m.
Proof.
  unfold add_conversation_turn, _compact_history. simpl.
  repeat match goal with |- context [if ?b then _ else _] => destruct b end; done.
Qed.

(** The turn added is the newest of the history, whatever is compacted. *)
Lemma last_add_conversation_turn r c (m : AgentMemory) :
  0 ≤ max_conversation_turns m →
  last (conversation_history (add_conversation_turn r c m))
    = Some {| role := r; content := c |}.
Proof.
  intros Hn. rewrite history_add_conversation_turn. cbv zeta.
  set (h1 := conversation_history m ++ [{| role := r; content := c |}]).
  assert (last h1 = Some {| role := r; content := c |}) as Hlast
    by apply last_snoc.
  destruct (_ && _); [|done].
  rewrite last_app. unfold slice_from. rewrite last_drop, Hlast; [done|].
  assert (1 ≤ length h1)%nat by (subst h1; rewrite length_app; simpl; lia).
  unfold clip. destruct (Z.ltb_spec (- max_conversation_turns m) 0); lia.
Qed.

(** For a window of at least one turn: once the stored turns exceed
    twice the window, the history is its first two turns followed by its
    last [n] turns. *)
Lemma add_conversation_turn_compacts r c (m : AgentMemory) :
  let h1 := conversation_history m ++ [{| role := r; content := c |}] in
  let n := max_conversation_turns m in
  1 ≤ n →
  Z.of_nat (length h1) > 2 * n →
  conversation_history (add_conversation_turn r c m)
    = take 2 h1 ++ lastn (Z.to_nat n) h1.
Proof.
  intros h1 n Hn Hlen. rewrite history_add_conversation_turn.
  fold h1. fold n.
  destruct (Z.gtb_spec (Z.of_nat (length h1)) (n * 2)) as [_|?]; [|lia].
  simpl. destruct (Z.gtb_spec (Z.of_nat (length h1)) (n + 2)) as [_|Hle].
  - rewrite slice_from_neg by lia.
    by replace (slice_to 2 h1) with (take 2 h1)
      by (symmetry; apply (slice_to_take h1 2)).
  - assert (length h1 = 3%nat ∧ n = 1) as [Hl ->] by lia.
    unfold lastn. rewrite Hl. simpl.
    by rewrite take_drop.
Qed.

(** C6.  With a window of [0] the call does not trim to the earliest two
    turns: [h[-0:]] is the whole list, so the third turn makes five stored
    turns. *)
Lemma add_conversation_turn_zero_window (t1 t2 t3 : Turn) :
  conversation_history (add_turns [t1; t2; t3] (empty_memory 0))
    = [t1; t2; t1; t2; t3].
Proof. destruct t1, t2, t3. reflexivity. Qed.

(** *** What a sequence of calls stores *)

Lemma add_turns_snoc ts t (m : AgentMemory) :
  add_turns (ts ++ [t]) m
    = add_conversation_turn (role t) (content t) (add_turns ts m).
Proof. unfold add_turns. by rewrite foldl_app. Qed.

Lemma max_turns_add_turns ts (m : AgentMemory) :
  max_conversation_turns (add_turns ts m) = max_conversation_turns m.
Proof.
  induction ts as [|t ts IH] using rev_ind; [done|].
  by rewrite add_turns_snoc, max_turns_add_conversation_turn.
Qed.

Lemma lastn_snoc j (l : list Turn) t :
  (j ≤ length l)%nat → lastn (S j) (l ++ [t]) = lastn j l ++ [t].
Proof.
  intros Hj. unfold lastn. rewrite length_app. simpl.
  replace (length l + 1 - S j)%nat with (length l - j)%nat by lia.
  by rewrite drop_app_le by lia.
Qed.

Lemma lastn_lastn k j (l : list Turn) :
  (k ≤ j)%nat → (j ≤ length l)%nat → lastn k (lastn j l) = lastn k l.
Proof.
  intros Hk Hj. unfold lastn. rewrite length_drop, drop_drop. f_equal. lia.
Qed.

Lemma lastn_app_r k (a b : list Turn) :
  (k ≤ length b)%nat → lastn k (a ++ b) = lastn k b.
Proof.
  intros Hk. unfold lastn. rewrite length_app.
  replace (length a + length b - k)%nat with (length a + (length b - k))%nat by lia.
  by rewrite drop_app_add.
Qed.

Lemma length_lastn k (l : list Turn) :
  (k ≤ length l)%nat → length (lastn k l) = k.
Proof. intros Hk. unfold lastn. rewrite length_drop. lia. Qed.

(** X4.  With a window of at least one turn, whatever turns are added to
    an empty memory, the stored history is the first two turns of the
    conversation followed by its most recent [j] turns, where [j] covers at
    least the window unless nothing was dropped yet, and it never holds more
    than [max (2 * window) (window + 2)] turns. *)
Theorem conversation_window (n : Z) (ts : list Turn) :
  1 ≤ n →
  let h := conversation_history (add_turns ts (empty_memory n)) in
  ∃ j : nat,
    (j ≤ length (drop 2 ts))%nat ∧
    (Z.to_nat n ≤ j ∨ j = length (drop 2 ts))%nat ∧
    h = take 2 ts ++ lastn j (drop 2 ts) ∧
    Z.of_nat (length h) ≤ Z.max (2 * n) (n + 2).
Proof.
  intros Hn. induction ts as [|t ts IH] using rev_ind.
  - exists 0%nat. simpl. repeat split; try done; try lia; by right.
  - destruct IH as (j & Hj & Hwin & Hh & Hlen).
    rewrite add_turns_snoc. destruct t as [r c].
    set (m := add_turns ts (empty_memory n)) in *.
    assert (max_conversation_turns m = n) as Hmax
      by (subst m; by rewrite max_turns_add_turns).
    set (h1 := conversation_history m ++ [{| role := r; content := c |}]).
    assert (length h1 = S (length (conversation_history m))) as Hl1
      by (subst h1; rewrite length_app; simpl; lia).
    assert (length (conversation_history m)
            = (length (take 2 ts) + j)%nat) as Hlh
      by (by rewrite Hh, length_app, length_lastn).
    destruct (decide (Z.of_nat (length h1) > 2 * n)) as [Hbig|Hsmall].
    + (* the history is trimmed *)
      pose proof (add_conversation_turn_compacts r c m) as Hc.
      cbv zeta in Hc. rewrite Hmax in Hc. fold h1 in Hc.
      cbn [role content]. rewrite (Hc Hn Hbig).
      assert (2 ≤ length ts)%nat as Hts.
      { destruct (decide (2 ≤ length ts)%nat); [done|].
        rewrite drop_ge in Hj by lia. simpl in Hj.
        rewrite length_take in Hlh. lia. }
      assert (length (take 2 ts) = 2%nat) as Ht2 by (rewrite length_take; lia).
      assert (h1 = take 2 ts ++ lastn (S j) (drop 2 (ts ++ [{| role := r; content := c |}])))
        as Hh1.
      { subst h1. rewrite Hh, <- app_assoc. f_equal.
        rewrite drop_app_le by lia. by rewrite lastn_snoc. }
      assert (Z.to_nat n ≤ S j)%nat as Hnj by lia.
      assert (S j ≤ length (drop 2 (ts ++ [{| role := r; content := c |}])))%nat
        as Hsj.
      { rewrite length_drop, length_app. rewrite length_drop in Hj. simpl. lia. }
      exists (Z.to_nat n). repeat split.
      * lia.
      * by left.
      * rewrite Hh1 at 1. rewrite take_app_length' by done.
        rewrite (take_app_le ts) by lia. f_equal.
        rewrite Hh1, lastn_app_r by (rewrite length_lastn; lia).
        by rewrite lastn_lastn.
      * rewrite length_app, length_take, Hl1, length_lastn by lia. lia.
    + (* nothing is dropped *)
      pose proof (history_add_conversation_turn r c m) as Hc.
      cbv zeta in Hc. rewrite Hmax in Hc. fold h1 in Hc.
      cbn [role content]. rewrite Hc.
      destruct (Z.gtb_spec (Z.of_nat (length h1)) (n * 2)) as [?|_]; [lia|].
      simpl. destruct (decide (2 ≤ length ts)%nat) as [Hts|Hts].
      * exists (S j). rewrite drop_app_le by lia.
        rewrite length_app. simpl. repeat split.
        -- lia.
        -- destruct Hwin as [? | ->]; [left; lia|right; lia].
        -- subst h1. rewrite Hh, <- app_assoc. f_equal.
           ++ by rewrite take_app_le by lia.
           ++ by rewrite lastn_snoc.
        -- lia.
      * exists 0%nat. rewrite drop_ge in Hj by lia. simpl in Hj.
        assert (j = 0%nat) as -> by lia.
        rewrite (drop_ge (ts ++ _)) by (rewrite length_app; simpl; lia).
        simpl. repeat split; try lia.
        subst h1. rewrite Hh. rewrite drop_ge by lia.
        rewrite !take_ge by (try rewrite length_app; simpl; lia).
        unfold lastn. simpl. by rewrite !app_nil_r.
Qed.

End Conversation.

Arguments Turn : clear implicits.
Arguments AgentMemory : clear implicits.

(** *** A window of two turns *)

Definition said (s : string) : Turn string := {| role := "user"; content := s |}.

Definition four_turns : AgentMemory string :=
  add_turns [said "a"; said "b"; said "c"; said "d"] (empty_memory 2).

Lemma add_conversation_turn_compacts_witness :
  conversation_history four_turns = [said "a"; said "b"; said "c"; said "d"] ∧
  conversation_history (add_conversation_turn "user" "e" four_turns)
    = [said "a"; said "b"; said "d"; said "e"].
Proof.
  split; [reflexivity|].
  refine (add_conversation_turn_compacts "user" "e" four_turns _ _);
    vm_compute; congruence.
Defined.

Lemma conversation_window_witness :
  ∃ j : nat,
    (j ≤ 3)%nat ∧ (2 ≤ j ∨ j = 3)%nat ∧
    conversation_history
      (add_turns [said "a"; said "b"; said "c"; said "d"; said "e"] (empty_memory 2))
      = [said "a"; said "b"] ++ lastn j [said "c"; said "d"; said "e"] ∧
    Z.of_nat (length (conversation_history
      (add_turns [said "a"; said "b"; said "c"; said "d"; said "e"] (empty_memory 2))))
      ≤ 4.
Proof.
  refine (conversation_window 2
            [said "a"; said "b"; said "c"; said "d"; said "e"] _). lia.
Defined.

End Memory.

(** ** Exceptions and identifiers *)

Module Exc.

(** The exception classes the sources raise and catch.  All of them derive
    from [Exception]. *)
Inductive exc :=
| ValueError (msg : string)
| PermissionError (msg : string)
| KeyError (msg : string)
| RuntimeError (msg : string)
| FileNotFoundError (msg : string)
| TypeError (msg : string)
| APIError (msg : string).

(** [str(e)].  [str] of a [KeyError] is the [repr] of its key. *)
Definition str (e : exc) : string :=
  match e with
  | ValueError m | PermissionError m | RuntimeError m | FileNotFoundError m
  | TypeError m | APIError m => m
  | KeyError k => "'" +:+ k +:+ "'"
  end.

Definition is_permission_error (e : exc) : bool :=
  match e with PermissionError _ => true | _ => false end.

(** How a call ends: with a value or with an exception. *)
Inductive outcome (A : Type) :=
| Ret (a : A)
| Raise (e : exc).
Arguments Ret {A} a.
Arguments Raise {A} e.

End Exc.

(** ** core/tool.py and tools/registry.py *)

Module Registry.
Import Py Exc.

Inductive ToolScope := BUILTIN | SHARED | PRIVATE.

#[global] Instance ToolScope_eq_dec : EqDecision ToolScope.
Proof. solve_decision. Defined.

(** [ToolDefinition].  The schema is kept as its JSON text; [created_at],
    [tags] and the toolification provenance play no part in the registry's
    logic and are left out. *)
Record ToolDefinition := {
  id : string;
  name : string;
  description : string;
  input_schema : string;
  scope : ToolScope;
  created_by_agent_id : option string;
  source_code : option string;
  version : Z;
  usage_count : Z;
}.

#[global] Instance ToolDefinition_eq_dec : EqDecision ToolDefinition.
Proof. solve_decision. Defined.

(** [ToolExecutionRecord], without the wall-clock fields [duration_ms] and
    [timestamp]. *)
Record ToolExecutionRecord := {
  tool_name : string;
  agent_id : string;
  input_params : Input;
  output : string;
  success : bool;
}.

(** Tool definitions are Python objects: the registry's two indexes and the
    handlers of custom tools hold references to the same object, and
    [update] and [execute] mutate it in place.  [objs] is the store of these
    objects and a reference is an index into it. *)
Definition ref := nat.

(** A bound handler: one of the functions of tools/builtin.py, named by the
    tool it implements, or the closure [_make_custom_handler] builds over a
    tool object. *)
Inductive Handler :=
| BuiltinHandler (tool : string)
| CustomHandler (tool_def : ref).

Record ToolRegistry := {
  objs : list ToolDefinition;
  _tools : dict ref;
  _tools_by_name : dict ref;
  _handlers : dict Handler;
  _execution_log : list ToolExecutionRecord;
}.

(** The keys [update] may receive, each with the value to assign.  A key that
    names no attribute of the tool is skipped by [hasattr] and is not
    represented. *)
Record Updates := {
  u_id : option string;
  u_name : option string;
  u_description : option string;
  u_input_schema : option string;
  u_scope : option ToolScope;
  u_created_by_agent_id : option (option string);
  u_source_code : option (option string);
  u_version : option Z;
  u_usage_count : option Z;
}.

#[global] Instance Updates_eq_dec : EqDecision Updates.
Proof. solve_decision. Defined.

Definition no_updates : Updates :=
  {| u_id := None; u_name := None; u_description := None;
     u_input_schema := None; u_scope := None; u_created_by_agent_id := None;
     u_source_code := None; u_version := None; u_usage_count := None |}.

(** [for key, value in updates.items(): setattr(tool, key, value)] *)
Definition apply_updates (u : Updates) (t : ToolDefinition) : ToolDefinition :=
  {| id := default (id t) (u_id u);
     name := default (name t) (u_name u);
     description := default (description t) (u_description u);
     input_schema := default (input_schema t) (u_input_schema u);
     scope := default (scope t) (u_scope u);
     created_by_agent_id := default (created_by_agent_id t) (u_created_by_agent_id u);
     source_code := default (source_code t) (u_source_code u);
     version := default (version t) (u_version u);
     usage_count := default (usage_count t) (u_usage_count u) |}.

Definition bump_version (t : ToolDefinition) : ToolDefinition :=
  {| id := id t; name := name t; description := description t;
     input_schema := input_schema t; scope := scope t;
     created_by_agent_id := created_by_agent_id t;
     source_code := source_code t;
     version := version t + 1; usage_count := usage_count t |}.

Definition bump_usage (t : ToolDefinition) : ToolDefinition :=
  {| id := id t; name := name t; description := description t;
     input_schema := input_schema t; scope := scope t;
     created_by_agent_id := created_by_agent_id t;
     source_code := source_code t;
     version := version t; usage_count := usage_count t + 1 |}.

(** Truth value of an optional string: [None] and [""] are false. *)
Definition truthy (s : option string) : bool :=
  match s with
  | Some s => negb (String.eqb s "")
  | None => false
  end.

#[local] Abbreviation Reg := ToolRegistry.

Definition with_tables (r : Reg) (o : list ToolDefinition)
    (t n : dict ref) (h : dict Handler) : Reg :=
  {| objs := o; _tools := t; _tools_by_name := n; _handlers := h;
     _execution_log := _execution_log r |}.

(** [ToolRegistry.register] *)
Definition register (tool_def : ToolDefinition) (r : Reg) : outcome () * Reg :=
  if mem (_tools_by_name r) (name tool_def) then
    (Raise (ValueError ("Tool '" +:+ name tool_def +:+
              "' already exists. Use edit_tool to modify it, or choose a different name.")), r)
  else
    let l := length (objs r) in
    (Ret (),
     with_tables r (objs r ++ [tool_def])
       (set (id tool_def) l (_tools r))
       (set (name tool_def) l (_tools_by_name r))
       (if truthy (source_code tool_def)
        then set (name tool_def) (CustomHandler l) (_handlers r)
        else _handlers r)).

(** The rebuild of the handler at the end of [update]. *)
Definition rebuild_handler (u : Updates) (l : ref) (t : ToolDefinition)
    (h : dict Handler) : dict Handler :=
  match u_source_code u with
  | Some _ => if truthy (source_code t) then set (name t) (CustomHandler l) h else h
  | None => h
  end.

(** [ToolRegistry.update].  The result is the updated object. *)
Definition update (tool_id : string) (updates : Updates)
    (requesting_agent_id : string) (r : Reg) : outcome ref * Reg :=
  match get (_tools r) tool_id with
  | None => (Raise (ValueError ("No tool found with id '" +:+ tool_id +:+ "'.")), r)
  | Some l =>
    match objs r !! l with
    | None => (Raise (RuntimeError "dangling reference"), r)
    | Some tool =>
      if decide (scope tool = BUILTIN) then
        (Raise (PermissionError "Cannot edit built-in tools."), r)
      else if decide (scope tool = PRIVATE
                      ∧ created_by_agent_id tool ≠ Some requesting_agent_id) then
        (Raise (PermissionError "Cannot edit another agent's private tool."), r)
      else
        let old_name := name tool in
        let tool' := bump_version (apply_updates updates tool) in
        let o := <[l := tool']> (objs r) in
        match u_name updates with
        | Some n =>
          if decide (n ≠ old_name) then
            if mem (_tools_by_name r) old_name then
              let names := set (name tool') l (del old_name (_tools_by_name r)) in
              let h := match get (_handlers r) old_name with
                       | Some f => set (name tool') f (del old_name (_handlers r))
                       | None => _handlers r
                       end in
              (Ret l, with_tables r o (_tools r) names (rebuild_handler updates l tool' h))
            else
              (Raise (KeyError old_name),
               with_tables r o (_tools r) (_tools_by_name r) (_handlers r))
          else
            (Ret l, with_tables r o (_tools r) (_tools_by_name r)
                      (rebuild_handler updates l tool' (_handlers r)))
        | None =>
            (Ret l, with_tables r o (_tools r) (_tools_by_name r)
                      (rebuild_handler updates l tool' (_handlers r)))
        end
    end
  end.

(** [ToolRegistry.delete].  The result is the deleted tool's name. *)
Definition delete (tool_id : string) (requesting_agent_id : string)
    (r : Reg) : outcome string * Reg :=
  match get (_tools r) tool_id with
  | None => (Raise (ValueError ("No tool found with id '" +:+ tool_id +:+ "'.")), r)
  | Some l =>
    match objs r !! l with
    | None => (Raise (RuntimeError "dangling reference"), r)
    | Some tool =>
      if decide (scope tool = BUILTIN) then
        (Raise (PermissionError "Cannot delete built-in tools."), r)
      else if decide (scope tool = PRIVATE
                      ∧ created_by_agent_id tool ≠ Some requesting_agent_id) then
        (Raise (PermissionError "Cannot delete another agent's private tool."), r)
      else
        let n := name tool in
        let tools := del tool_id (_tools r) in
        if mem (_tools_by_name r) n then
          (Ret n, with_tables r (objs r) tools (del n (_tools_by_name r))
                    (del n (_handlers r)))
        else
          (Raise (KeyError n),
           with_tables r (objs r) tools (_tools_by_name r) (_handlers r))
    end
  end.

(** The objects a table refers to, in the table's order. *)
Definition deref (r : Reg) (refs : list ref) : list ToolDefinition :=
  omap (λ l, objs r !! l) refs.

(** [ToolRegistry.get] and [get_by_name] *)
Definition get_tool (r : Reg) (tool_id : string) : option ToolDefinition :=
  l ← get (_tools r) tool_id; objs r !! l.

Definition get_by_name (r : Reg) (n : string) : option ToolDefinition :=
  l ← get (_tools_by_name r) n; objs r !! l.

Definition get_all_tools (r : Reg) : list ToolDefinition :=
  deref r (values (_tools r)).

Definition get_builtin_tools (r : Reg) : list ToolDefinition :=
  filter (λ t, scope t = BUILTIN) (get_all_tools r).

Definition get_shared_tools (r : Reg) : list ToolDefinition :=
  filter (λ t, scope t = SHARED) (get_all_tools r).

(** The bookkeeping at the end of [ToolRegistry.execute]: the record is
    appended and the usage count of the tool indexed under [tool_name], when
    there is one, goes up by one. *)
Definition record_execution (tname aid : string) (inp : Input)
    (result : string) (ok : bool) (r : Reg) : Reg :=
  let rec := {| tool_name := tname; agent_id := aid; input_params := inp;
                output := substring 0 1000 result; success := ok |} in
  let o := match get (_tools_by_name r) tname with
           | Some l => match objs r !! l with
                       | Some t => <[l := bump_usage t]> (objs r)
                       | None => objs r
                       end
           | None => objs r
           end in
  {| objs := o; _tools := _tools r; _tools_by_name := _tools_by_name r;
     _handlers := _handlers r;
     _execution_log := _execution_log r ++ [rec] |}.

(** *** Permissions of [update] and [delete] *)

(** The call ended with a [PermissionError]. *)
Definition denied {A} (res : outcome A * Reg) : Prop :=
  ∃ msg, res.1 = Raise (PermissionError msg).

(** The tool is filed under its current name in the name index. *)
Definition indexed (r : Reg) (t : ToolDefinition) : Prop :=
  mem (_tools_by_name r) (name t) = true.

Lemma update_builtin (r : Reg) tid l t u req :
  get (_tools r) tid = Some l → objs r !! l = Some t → scope t = BUILTIN →
  update tid u req r = (Raise (PermissionError "Cannot edit built-in tools."), r).
Proof. intros Hl Ht Hs. unfold update. rewrite Hl, Ht. by rewrite decide_True. Qed.

Lemma delete_builtin (r : Reg) tid l t req :
  get (_tools r) tid = Some l → objs r !! l = Some t → scope t = BUILTIN →
  delete tid req r = (Raise (PermissionError "Cannot delete built-in tools."), r).
Proof. intros Hl Ht Hs. unfold delete. rewrite Hl, Ht. by rewrite decide_True. Qed.

Lemma update_private_other (r : Reg) tid l t u req :
  get (_tools r) tid = Some l → objs r !! l = Some t → scope t = PRIVATE →
  created_by_agent_id t ≠ Some req →
  update tid u req r
    = (Raise (PermissionError "Cannot edit another agent's private tool."), r).
Proof.
  intros Hl Ht Hs Hc. unfold update. rewrite Hl, Ht.
  rewrite decide_False by congruence. by rewrite decide_True.
Qed.

Lemma delete_private_other (r : Reg) tid l t req :
  get (_tools r) tid = Some l → objs r !! l = Some t → scope t = PRIVATE →
  created_by_agent_id t ≠ Some req →
  delete tid req r
    = (Raise (PermissionError "Cannot delete another agent's private tool."), r).
Proof.
  intros Hl Ht Hs Hc. unfold delete. rewrite Hl, Ht.
  rewrite decide_False by congruence. by rewrite decide_True.
Qed.

(** Past the two permission checks [update] raises no [PermissionError], and
    it returns the updated object when the tool is filed under its name. *)
Lemma update_allowed (r : Reg) tid l t u req :
  get (_tools r) tid = Some l → objs r !! l = Some t →
  scope t = SHARED ∨ (scope t = PRIVATE ∧ created_by_agent_id t = Some req) →
  ¬ denied (update tid u req r) ∧
  (indexed r t →
   ∃ r', update tid u req r = (Ret l, r') ∧
         objs r' !! l = Some (bump_version (apply_updates u t))).
Proof.
  intros Hl Ht Hs. unfold update, denied, indexed. rewrite Hl, Ht.
  assert (l < length (objs r))%nat as Hlt by (by eapply lookup_lt_Some).
  rewrite decide_False by (destruct Hs as [->| [-> _]]; done).
  rewrite decide_False by (intros [? ?]; destruct Hs as [?|[_ ?]]; congruence).
  destruct (u_name u) as [n|]; [destruct (decide (n ≠ name t))|].
  - destruct (mem (_tools_by_name r) (name t)); simpl.
    + split; [by intros [? ?]|]. intros _. eexists. split; [done|]. simpl.
      by apply list_lookup_insert_eq.
    + split; [by intros [? ?]|]. done.
  - split; [by intros [? ?]|]. intros _. eexists. split; [done|]. simpl.
    by apply list_lookup_insert_eq.
  - split; [by intros [? ?]|]. intros _. eexists. split; [done|]. simpl.
    by apply list_lookup_insert_eq.
Qed.

Lemma delete_allowed (r : Reg) tid l t req :
  get (_tools r) tid = Some l → objs r !! l = Some t →
  scope t = SHARED ∨ (scope t = PRIVATE ∧ created_by_agent_id t = Some req) →
  ¬ denied (delete tid req r) ∧
  (indexed r t →
   ∃ r', delete tid req r = (Ret (name t), r') ∧
         get (_tools r') tid = None ∧ get (_tools_by_name r') (name t) = None).
Proof.
  intros Hl Ht Hs. unfold delete, denied, indexed. rewrite Hl, Ht.
  rewrite decide_False by (destruct Hs as [->| [-> _]]; done).
  rewrite decide_False by (intros [? ?]; destruct Hs as [?|[_ ?]]; congruence).
  destruct (mem (_tools_by_name r) (name t)); simpl.
  - split; [by intros [? ?]|]. intros _. eexists. split; [done|]. simpl.
    by rewrite !get_del_eq.
  - split; [by intros [? ?]|]. done.
Qed.

(** C5.  For a stored tool: a Builtin tool is rejected by [update] and
    [delete] with a permission error for every requester, the registry left
    as it was; a Private tool is rejected with a permission error exactly
    when the requester is not its creating agent; a Shared tool is never
    rejected with a permission error; and a call that is not rejected
    updates, respectively deletes, the tool filed under its name. *)
Theorem update_delete_permissions (r : Reg) tid l t u req :
  get (_tools r) tid = Some l → objs r !! l = Some t →
  match scope t with
  | BUILTIN =>
      (∃ msg, update tid u req r = (Raise (PermissionError msg), r)) ∧
      (∃ msg, delete tid req r = (Raise (PermissionError msg), r))
  | PRIVATE =>
      (denied (update tid u req r) ↔ created_by_agent_id t ≠ Some req) ∧
      (denied (delete tid req r) ↔ created_by_agent_id t ≠ Some req) ∧
      (created_by_agent_id t ≠ Some req →
         (update tid u req r).2 = r ∧ (delete tid req r).2 = r)
  | SHARED =>
      ¬ denied (update tid u req r) ∧ ¬ denied (delete tid req r)
  end ∧
  (¬ denied (update tid u req r) → indexed r t →
     ∃ r', update tid u req r = (Ret l, r') ∧
           objs r' !! l = Some (bump_version (apply_updates u t))) ∧
  (¬ denied (delete tid req r) → indexed r t →
     ∃ r', delete tid req r = (Ret (name t), r') ∧ get (_tools r') tid = None).
Proof.
  intros Hl Ht. destruct (scope t) eqn:Hs.
  - rewrite (update_builtin r tid l t u req), (delete_builtin r tid l t req) by done.
    split; [split; by eexists|].
    split; intros Hd; exfalso; apply Hd; by eexists.
  - destruct (update_allowed r tid l t u req) as [Hu1 Hu2]; [done..|by left|].
    destruct (delete_allowed r tid l t req) as [Hd1 Hd2]; [done..|by left|].
    split; [done|]. split; [by auto|].
    intros _ Hi. destruct (Hd2 Hi) as (r' & ? & ? & ?). eauto.
  - destruct (decide (created_by_agent_id t = Some req)) as [Hc|Hc].
    + destruct (update_allowed r tid l t u req) as [Hu1 Hu2]; [done..|by right|].
      destruct (delete_allowed r tid l t req) as [Hd1 Hd2]; [done..|by right|].
      split; [|split; [by auto|]].
      * split; [split; [done|congruence]|]. split; [split; [done|congruence]|]. done.
      * intros _ Hi. destruct (Hd2 Hi) as (r' & ? & ? & ?). eauto.
    + rewrite (update_private_other r tid l t u req),
              (delete_private_other r tid l t req) by done.
      split; [|split; intros Hd; exfalso; apply Hd; by eexists].
      split; [split; [done|intros _; by eexists]|].
      split; [split; [done|intros _; by eexists]|]. done.
Qed.

(** *** Conflicts of [register] *)

Lemma register_conflict (r : Reg) (t : ToolDefinition) :
  mem (_tools_by_name r) (name t) = true →
  ∃ msg, register t r = (Raise (ValueError msg), r).
Proof. intros H. unfold register. rewrite H. by eexists. Qed.

Lemma register_fresh (r : Reg) (t : ToolDefinition) :
  mem (_tools_by_name r) (name t) = false →
  ∃ r', register t r = (Ret (), r') ∧
        get_tool r' (id t) = Some t ∧ get_by_name r' (name t) = Some t.
Proof.
  intros H. unfold register. rewrite H. eexists. split; [done|].
  unfold get_tool, get_by_name. simpl. rewrite !get_set_eq. simpl.
  split; by apply list_lookup_middle.
Qed.

(** The ten tools of [BUILTIN_TOOLS], in the order of the table. *)
Definition BUILTIN_NAMES : list string :=
  ["create_agent"; "delegate_task"; "broadcast"; "create_tool"; "edit_tool";
   "delete_tool"; "sandbox"; "evolve"; "query_civilization"; "form_alliance"].

(** The definition [_register_builtins] builds for one entry of the table;
    description and schema texts are not reproduced. *)
Definition builtin_definition (uuid n : string) : ToolDefinition :=
  {| id := uuid; name := n; description := ""; input_schema := "";
     scope := BUILTIN; created_by_agent_id := None; source_code := None;
     version := 1; usage_count := 0 |}.

(** [ToolRegistry.__init__]: empty tables, then [_register_builtins].
    [uuids] supplies the identifiers [uuid4] returns, in order. *)
Definition _register_builtin (r : ToolRegistry)
    (entry : string * string) : ToolRegistry :=
  let '(uuid, n) := entry in
  let l := length (objs r) in
  with_tables r (objs r ++ [builtin_definition uuid n])
    (set uuid l (_tools r))
    (set n l (_tools_by_name r))
    (set n (BuiltinHandler n) (_handlers r)).

Definition new_registry (uuids : nat → string) : ToolRegistry :=
  foldl _register_builtin
    {| objs := []; _tools := []; _tools_by_name := []; _handlers := [];
       _execution_log := [] |}
    (zip (map uuids (seq 0 10)) BUILTIN_NAMES).

(** *** A concrete registry *)

Definition example_uuids (n : nat) : string := "builtin-" +:+ pretty n.

Definition shared_tool (i n owner : string) : ToolDefinition :=
  {| id := i; name := n; description := "a tool"; input_schema := "{}";
     scope := SHARED; created_by_agent_id := Some owner;
     source_code := Some "print(params)"; version := 1; usage_count := 0 |}.

(** A fresh registry in which two agents have each created one shared tool. *)
Definition two_tools : ToolRegistry :=
  let r0 := new_registry example_uuids in
  let r1 := (register (shared_tool "t1" "alpha" "agent-1") r0).2 in
  (register (shared_tool "t2" "beta" "agent-2") r1).2.

(** [update("t2", {"name": "alpha"}, "agent-2")] *)
Definition rename_beta : Updates :=
  {| u_id := None; u_name := Some "alpha"; u_description := None;
     u_input_schema := None; u_scope := None; u_created_by_agent_id := None;
     u_source_code := None; u_version := None; u_usage_count := None |}.

Lemma two_tools_unique_names :
  NoDup (map name (get_all_tools two_tools)).
Proof. apply (bool_decide_unpack _). by vm_compute. Qed.

(** C2.  [register] refuses a name that is taken and leaves the registry as
    it was, but [update] renames without that check: in a registry holding
    the shared tools "alpha" and "beta", renaming "beta" to "alpha" succeeds,
    and the registry then stores two definitions named "alpha". *)
Theorem update_rename_breaks_unique_names :
  let T1 := shared_tool "t1" "alpha" "agent-1" in
  let T2 := shared_tool "t2" "beta" "agent-2" in
  let res := update "t2" rename_beta "agent-2" two_tools in
  get_tool two_tools "t1" = Some T1 ∧
  get_tool two_tools "t2" = Some T2 ∧
  (∃ msg, register (shared_tool "t3" "alpha" "agent-2") two_tools
            = (Raise (ValueError msg), two_tools)) ∧
  res.1 = Ret 11%nat ∧
  get_tool res.2 "t1" = Some T1 ∧
  get_tool res.2 "t2" = Some (bump_version (apply_updates rename_beta T2)) ∧
  name (bump_version (apply_updates rename_beta T2)) = name T1 ∧
  ¬ NoDup (map name (get_all_tools res.2)).
Proof.
  repeat split; try reflexivity.
  - eexists. reflexivity.
  - apply (bool_decide_unpack _). by vm_compute.
Qed.

(** The permission rules at the shared tool "beta" of [two_tools]. *)
Lemma update_delete_permissions_witness :
  get (_tools two_tools) "t2" = Some 11%nat ∧
  two_tools.(objs) !! 11%nat = Some (shared_tool "t2" "beta" "agent-2") ∧
  ¬ denied (update "t2" rename_beta "agent-1" two_tools) ∧
  ¬ denied (delete "t2" "agent-1" two_tools).
Proof.
  split; [reflexivity|]. split; [reflexivity|].
  apply (update_delete_permissions two_tools "t2" 11%nat
           (shared_tool "t2" "beta" "agent-2") rename_beta "agent-1");
    reflexivity.
Defined.

(** *** The invariant behind unique names *)

(** The object behind a reference is filed under its own name. *)
Definition filed (r : Reg) (l : ref) : Prop :=
  match objs r !! l with
  | Some t => get (_tools_by_name r) (name t) = Some l
  | None => False
  end.

(** Distinct ids refer to distinct objects, and every stored tool is filed
    under its name. *)
Definition consistent (r : Reg) : Prop :=
  NoDup (values (_tools r)) ∧ Forall (filed r) (values (_tools r)).

Lemma filed_Some r l :
  filed r l → ∃ t, objs r !! l = Some t ∧ get (_tools_by_name r) (name t) = Some l.
Proof. unfold filed. destruct (objs r !! l) as [t|]; [|done]. by exists t. Qed.

Lemma consistent_get r tid l :
  consistent r → get (_tools r) tid = Some l →
  ∃ t, objs r !! l = Some t ∧ get (_tools_by_name r) (name t) = Some l.
Proof.
  intros [_ Hf] Hl. apply filed_Some.
  rewrite Forall_forall in Hf. by eapply Hf, get_Some_values.
Qed.

Lemma consistent_names r :
  consistent r → NoDup (map name (get_all_tools r)).
Proof.
  intros [Hnd Hf]. unfold get_all_tools, deref.
  induction (values (_tools r)) as [|l refs IH]; simpl; [apply NoDup_nil_2|].
  apply NoDup_cons in Hnd as [Hl Hnd]. apply Forall_cons in Hf as [Hfl Hf].
  destruct (filed_Some r l Hfl) as (t & Ht & Hn). rewrite Ht. simpl.
  apply NoDup_cons. split; [|by apply IH].
  intros Hin. apply list_elem_of_fmap in Hin as (t' & Hname & Hin).
  apply list_elem_of_omap in Hin as (l' & Hl' & Ht').
  rewrite Forall_forall in Hf.
  destruct (filed_Some r l' (Hf l' Hl')) as (t'' & Ht'' & Hn'').
  assert (t'' = t') as -> by congruence.
  rewrite <- Hname, Hn in Hn''. congruence.
Qed.

Lemma register_consistent r t :
  consistent r → consistent (register t r).2.
Proof.
  intros Hc. unfold register, mem.
  destruct (get (_tools_by_name r) (name t)) eqn:Hfree; [done|].
  destruct Hc as [Hnd Hf]. rewrite Forall_forall in Hf.
  assert (length (objs r) ∉ values (_tools r)) as Hnew.
  { intros Hin. destruct (filed_Some r _ (Hf _ Hin)) as (t0 & Ht0 & _).
    apply lookup_lt_Some in Ht0. lia. }
  split; simpl.
  - by apply NoDup_values_set.
  - apply Forall_forall. intros x Hx.
    apply values_set_elem in Hx as [->|Hx]; unfold filed; simpl.
    + rewrite list_lookup_middle by done. by rewrite get_set_eq.
    + destruct (filed_Some r x (Hf x Hx)) as (t0 & Ht0 & Hn0).
      rewrite (lookup_app_l_Some _ _ _ _ Ht0).
      rewrite get_set_ne; [done|]. intros E. congruence.
Qed.

Lemma delete_consistent r tid req :
  consistent r → consistent (delete tid req r).2.
Proof.
  intros Hc. unfold delete.
  destruct (get (_tools r) tid) as [l|] eqn:Hl; [|done].
  destruct (consistent_get r tid l Hc Hl) as (tool & Ht & Hn). rewrite Ht.
  destruct (decide _); [done|]. destruct (decide _); [done|].
  unfold mem. rewrite Hn. simpl.
  destruct Hc as [Hnd Hf]. rewrite Forall_forall in Hf. split; simpl.
  - by apply NoDup_values_del.
  - apply Forall_forall. intros x Hx.
    assert (x ≠ l) as Hxl
      by (intros ->; by apply (values_del_get _ tid l Hnd Hl)).
    apply values_del_elem in Hx.
    destruct (filed_Some r x (Hf x Hx)) as (t0 & Ht0 & Hn0).
    unfold filed. simpl. rewrite Ht0, get_del_ne; [done|].
    intros E. congruence.
Qed.

(** The name an update gives is free, or it is the name the tool has. *)
Definition keeps_names (r : Reg) (tid : string) (u : Updates) : Prop :=
  ∀ n, u_name u = Some n →
       get (_tools_by_name r) n = None ∨
       ∃ t, get_tool r tid = Some t ∧ name t = n.

(** The objects and the name index after a change of the object at [l]
    that leaves the other objects and their entries alone. *)
Lemma consistent_change r l t' names h :
  consistent r → l ∈ values (_tools r) →
  get names (name t') = Some l →
  (∀ x t0, x ≠ l → objs r !! x = Some t0 →
           get (_tools_by_name r) (name t0) = Some x →
           get names (name t0) = Some x) →
  consistent (with_tables r (<[l := t']> (objs r)) (_tools r) names h).
Proof.
  intros [Hnd Hf] Hl Hnew Hold. rewrite Forall_forall in Hf.
  split; simpl; [done|]. apply Forall_forall. intros x Hx.
  destruct (filed_Some r x (Hf x Hx)) as (t0 & Ht0 & Hn0).
  unfold filed. simpl. destruct (decide (x = l)) as [->|Hxl].
  - rewrite list_lookup_insert_eq by (by eapply lookup_lt_Some). done.
  - rewrite list_lookup_insert_ne by done. unfold ref in *. rewrite Ht0.
    by eapply Hold.
Qed.

Lemma update_consistent r tid u req :
  consistent r → keeps_names r tid u → consistent (update tid u req r).2.
Proof.
  intros Hc Hk. unfold update.
  destruct (get (_tools r) tid) as [l|] eqn:Hl; [|done].
  destruct (consistent_get r tid l Hc Hl) as (tool & Ht & Hn). rewrite Ht.
  destruct (decide _) as [|_]; [done|]. destruct (decide _) as [|_]; [done|].
  assert (l ∈ values (_tools r)) as Hin by (by eapply get_Some_values).
  assert (∀ x t0, x ≠ l → objs r !! x = Some t0 →
            get (_tools_by_name r) (name t0) = Some x →
            name t0 ≠ name tool) as Hother
    by (intros x t0 Hx _ H0 E; congruence).
  destruct (u_name u) as [n|] eqn:Hu.
  - destruct (decide (n ≠ name tool)) as [Hne|Heq].
    + unfold mem. rewrite Hn. simpl.
      destruct (Hk n Hu) as [Hfree|(t0 & Hg & Hnm)].
      * apply consistent_change; [done..| |].
        -- simpl. rewrite Hu. simpl. by rewrite get_set_eq.
        -- intros x t0 Hx Ht0 Hn0. simpl. rewrite Hu. simpl.
           rewrite get_set_ne by congruence.
           rewrite get_del_ne; [done|]. intros E. by eapply (Hother x t0).
      * unfold get_tool in Hg. rewrite Hl in Hg. simpl in Hg. congruence.
    + simpl. apply consistent_change; [done..| |done].
      simpl. rewrite Hu. simpl. apply dec_stable in Heq. by rewrite Heq.
  - simpl. apply consistent_change; [done..| |done].
    simpl. rewrite Hu. by simpl.
Qed.

Lemma record_execution_consistent tname aid inp result ok r :
  consistent r → consistent (record_execution tname aid inp result ok r).
Proof.
  intros Hc. unfold record_execution.
  destruct (get (_tools_by_name r) tname) as [l|] eqn:Hl; [|done].
  destruct (objs r !! l) as [t|] eqn:Ht; [|done].
  destruct Hc as [Hnd Hf]. split; simpl; [done|].
  rewrite Forall_forall in Hf. apply Forall_forall. intros x Hx.
  destruct (filed_Some r x (Hf x Hx)) as (t0 & Ht0 & Hn0).
  unfold filed. simpl. destruct (decide (x = l)) as [->|Hxl].
  - rewrite list_lookup_insert_eq by (by eapply lookup_lt_Some).
    simpl. congruence.
  - rewrite list_lookup_insert_ne by done. unfold ref in *. by rewrite Ht0.
Qed.

Lemma register_builtin_consistent r uuid n :
  consistent r → get (_tools_by_name r) n = None →
  consistent (_register_builtin r (uuid, n)).
Proof.
  intros [Hnd Hf] Hfree. rewrite Forall_forall in Hf.
  assert (length (objs r) ∉ values (_tools r)) as Hnew.
  { intros Hin. destruct (filed_Some r _ (Hf _ Hin)) as (t0 & Ht0 & _).
    apply lookup_lt_Some in Ht0. lia. }
  split; simpl.
  - by apply NoDup_values_set.
  - apply Forall_forall. intros x Hx.
    apply values_set_elem in Hx as [->|Hx]; unfold filed; simpl.
    + rewrite list_lookup_middle by done. by rewrite get_set_eq.
    + destruct (filed_Some r x (Hf x Hx)) as (t0 & Ht0 & Hn0).
      rewrite (lookup_app_l_Some _ _ _ _ Ht0).
      rewrite get_set_ne; [done|]. intros E. congruence.
Qed.

Lemma register_builtins_consistent entries r :
  consistent r → NoDup entries.*2 →
  Forall (λ e, get (_tools_by_name r) e.2 = None) entries →
  consistent (foldl _register_builtin r entries).
Proof.
  revert r. induction entries as [|[u n] entries IH]; intros r Hc Hnd Hfree; [done|].
  apply NoDup_cons in Hnd as [Hn Hnd]. apply Forall_cons in Hfree as [Hf Hfree].
  simpl. apply IH; [by apply register_builtin_consistent|done|].
  clear IH.
  rewrite Forall_forall in Hfree. apply Forall_forall. intros [u' n'] He.
  simpl. rewrite get_set_ne; [by apply (Hfree (u', n'))|].
  intros ->. apply Hn. apply list_elem_of_fmap. by exists (u', n').
Qed.

Lemma new_registry_consistent uuids : consistent (new_registry uuids).
Proof.
  apply register_builtins_consistent.
  - split; simpl; [apply NoDup_nil_2|apply Forall_nil_2].
  - apply (bool_decide_unpack _). by vm_compute.
  - simpl. repeat (apply Forall_cons; split; [done|]). apply Forall_nil_2.
Qed.

(** The registries a process can reach: a new registry, changed by any calls
    of [register], [delete] and [execute]'s bookkeeping, and by the calls of
    [update] that keep to free names. *)
Inductive reachable (uuids : nat → string) : Reg → Prop :=
| reach_new : reachable uuids (new_registry uuids)
| reach_register r t :
    reachable uuids r → reachable uuids (register t r).2
| reach_delete r tid req :
    reachable uuids r → reachable uuids (delete tid req r).2
| reach_update r tid u req :
    reachable uuids r → keeps_names r tid u →
    reachable uuids (update tid u req r).2
| reach_record r tname aid inp result ok :
    reachable uuids r →
    reachable uuids (record_execution tname aid inp result ok r).

(** X5.  Tool names are unique in every registry reached from a new one by
    calls of [register] and [delete], by the bookkeeping of [execute], and by
    calls of [update] that do not rename a tool to a name already taken,
    whether the calls succeed or are rejected; and every stored tool is
    found under its name. *)
Theorem names_stay_unique uuids (r : Reg) :
  reachable uuids r →
  NoDup (map name (get_all_tools r)) ∧
  ∀ t, t ∈ get_all_tools r → ∃ l, get (_tools_by_name r) (name t) = Some l ∧
                                   objs r !! l = Some t.
Proof.
  intros Hr.
  assert (consistent r) as Hc.
  { induction Hr.
    - apply new_registry_consistent.
    - by apply register_consistent.
    - by apply delete_consistent.
    - by apply update_consistent.
    - by apply record_execution_consistent. }
  split; [by apply consistent_names|].
  intros t Ht. unfold get_all_tools, deref in Ht.
  apply list_elem_of_omap in Ht as (l & Hl & Ht).
  destruct Hc as [_ Hf]. rewrite Forall_forall in Hf.
  destruct (filed_Some r l (Hf l Hl)) as (t0 & Ht0 & Hn0).
  exists l. split; congruence.
Qed.

Lemma names_stay_unique_witness :
  NoDup (map name (get_all_tools two_tools)) ∧
  ∀ t, t ∈ get_all_tools two_tools →
       ∃ l, get (_tools_by_name two_tools) (name t) = Some l ∧
            objs two_tools !! l = Some t.
Proof.
  apply (names_stay_unique example_uuids).
  exact (reach_register _ _ (shared_tool "t2" "beta" "agent-2")
           (reach_register _ _ (shared_tool "t1" "alpha" "agent-1")
              (reach_new example_uuids))).
Defined.

(** *** Looking up after a change *)

Lemma register_builtin_keys r e :
  NoDup (keys (_tools r)) → NoDup (keys (_tools (_register_builtin r e))).
Proof. destruct e as [u n]. simpl. apply NoDup_keys_set. Qed.

Lemma reachable_consistent uuids r :
  reachable uuids r → consistent r ∧ NoDup (keys (_tools r)).
Proof.
  induction 1 as [|r t _ [IHc IHk]|r tid req _ [IHc IHk]
                  |r tid u req _ [IHc IHk] Hk|r tn aid inp res ok _ [IHc IHk]].
  - split; [apply new_registry_consistent|]. unfold new_registry.
    generalize (zip (map uuids (seq 0 10)) BUILTIN_NAMES).
    assert (NoDup (keys (_tools {| objs := []; _tools := []; _tools_by_name := [];
                                   _handlers := []; _execution_log := [] |})))
      as H0 by apply NoDup_nil_2.
    revert H0. generalize ({| objs := []; _tools := []; _tools_by_name := [];
                              _handlers := []; _execution_log := [] |}).
    intros r0 H0 entries. revert r0 H0.
    induction entries as [|e entries IH]; intros r0 H0; [done|].
    simpl. by apply IH, register_builtin_keys.
  - split; [by apply register_consistent|]. unfold register.
    destruct (mem _ _); simpl; [done|]. by apply NoDup_keys_set.
  - split; [by apply delete_consistent|]. unfold delete.
    repeat (case_match; simpl; try done); by apply NoDup_keys_del.
  - split; [by apply update_consistent|]. unfold update.
    repeat (case_match; simpl; try done).
  - split; [by apply record_execution_consistent|]. done.
Qed.

(** X6.  In a reachable registry, [register] under a name that is taken
    raises [ValueError] and changes nothing; under a free name it stores the
    tool, which is then found by its id and by its name, and every other id
    resolves as before. *)
Theorem register_then_lookup uuids (r : Reg) (t : ToolDefinition) :
  reachable uuids r →
  if mem (_tools_by_name r) (name t)
  then ∃ msg, register t r = (Raise (ValueError msg), r)
  else ∃ r', register t r = (Ret (), r') ∧
             get_tool r' (id t) = Some t ∧ get_by_name r' (name t) = Some t ∧
             (∀ k, k ≠ id t → get_tool r' k = get_tool r k) ∧
             (∀ n, n ≠ name t → get (_handlers r') n = get (_handlers r) n).
Proof.
  intros Hr. destruct (reachable_consistent _ _ Hr) as [Hc _].
  unfold register. destruct (mem _ _); [by eexists|].
  eexists. split; [done|]. unfold get_tool, get_by_name. simpl.
  rewrite !get_set_eq. simpl. rewrite list_lookup_middle by done.
  repeat split.
  - intros k Hk. rewrite get_set_ne by done.
    destruct (get (_tools r) k) as [l|] eqn:Hl; [|done]. simpl.
    destruct (consistent_get r k l Hc Hl) as (t0 & Ht0 & _).
    unfold ref in *. rewrite Ht0. by apply lookup_app_l_Some.
  - intros n Hn. destruct (truthy _); [|done]. by rewrite get_set_ne.
Qed.

(** X7.  In a reachable registry, a [delete] that returns removes the tool
    from the id table, the name index and the handlers; every other id
    resolves as before, and the tools listed afterwards are those listed
    before except the one deleted.  An unknown id raises [ValueError] and
    changes nothing. *)
Theorem delete_removes_exactly uuids (r : Reg) tid req :
  reachable uuids r →
  match get (_tools r) tid with
  | None => ∃ msg, delete tid req r = (Raise (ValueError msg), r)
  | Some _ =>
      ∀ n r', delete tid req r = (Ret n, r') →
        (∃ t, get_tool r tid = Some t ∧ name t = n) ∧
        get_tool r' tid = None ∧ get_by_name r' n = None ∧
        get (_handlers r') n = None ∧
        (∀ k, k ≠ tid → get_tool r' k = get_tool r k) ∧
        (∀ t, t ∈ get_all_tools r' ↔ t ∈ get_all_tools r ∧ name t ≠ n)
  end.
Proof.
  intros Hr. destruct (reachable_consistent _ _ Hr) as [Hc Hkeys].
  unfold delete. destruct (get (_tools r) tid) as [l|] eqn:Hl; [|by eexists].
  destruct (consistent_get r tid l Hc Hl) as (tool & Ht & Hn). rewrite Ht.
  intros n r'. destruct (decide _) as [|_]; [done|].
  destruct (decide _) as [|_]; [done|].
  unfold mem. rewrite Hn. intros [= <- <-].
  unfold get_tool, get_by_name, get_all_tools, deref. simpl.
  rewrite Hl, !get_del_eq. simpl.
  split; [by exists tool|]. do 3 (split; [done|]).
  split; [intros k Hk; by rewrite get_del_ne|].
  destruct Hc as [Hnd Hf]. rewrite Forall_forall in Hf.
  intros t. rewrite !list_elem_of_omap. split.
  - intros (x & Hx & Hxt).
    apply (values_del_iff _ tid l x Hkeys Hnd Hl) in Hx as [Hx Hxl].
    split; [by exists x|].
    destruct (filed_Some r x (Hf x Hx)) as (t0 & Ht0 & Hn0).
    intros E. apply Hxl. unfold ref in *. congruence.
  - intros [(x & Hx & Hxt) Hne]. exists x. split; [|done].
    apply (values_del_iff _ tid l x Hkeys Hnd Hl). split; [done|].
    intros ->. unfold ref in *. congruence.
Qed.

(** X8.  In a reachable registry, an [update] that returns and keeps to
    free names leaves the tool under its id with the given fields assigned
    and its version raised by one; the tool is found under its new name and,
    once renamed, no longer under the old one; every other id resolves as
    before.  An unknown id raises [ValueError] and changes nothing. *)
Theorem update_then_lookup uuids (r : Reg) tid u req :
  reachable uuids r → keeps_names r tid u →
  match get (_tools r) tid with
  | None => ∃ msg, update tid u req r = (Raise (ValueError msg), r)
  | Some _ =>
      ∀ l r', update tid u req r = (Ret l, r') →
        ∃ t, get_tool r tid = Some t ∧
          let t' := bump_version (apply_updates u t) in
          get_tool r' tid = Some t' ∧
          version t' = default (version t) (u_version u) + 1 ∧
          get_by_name r' (name t') = Some t' ∧
          (name t' ≠ name t → get_by_name r' (name t) = None) ∧
          (∀ k, k ≠ tid → get_tool r' k = get_tool r k)
  end.
Proof.
  intros Hr Hk. destruct (reachable_consistent _ _ Hr) as [Hc Hkeys].
  unfold update. destruct (get (_tools r) tid) as [l|] eqn:Hl; [|by eexists].
  destruct (consistent_get r tid l Hc Hl) as (tool & Ht & Hn). rewrite Ht.
  intros l' r'. destruct (decide _) as [|_]; [done|].
  destruct (decide _) as [|_]; [done|].
  assert (l < length (objs r))%nat as Hlt by (by eapply lookup_lt_Some).
  set (tool' := bump_version (apply_updates u tool)).
  assert (∀ names h k, k ≠ tid →
            get_tool (with_tables r (<[l := tool']> (objs r)) (_tools r) names h) k
              = get_tool r k) as Hframe.
  { intros names h k Hne. unfold get_tool. simpl.
    destruct (get (_tools r) k) as [x|] eqn:Hx; [|done]. simpl.
    apply list_lookup_insert_ne. intros ->. destruct Hc as [Hnd _].
    apply Hne. by eapply get_inj. }
  assert (∀ names h,
            get_tool (with_tables r (<[l := tool']> (objs r)) (_tools r) names h) tid
              = Some tool') as Hself.
  { intros names h. unfold get_tool. simpl. rewrite Hl. simpl.
    by apply list_lookup_insert_eq. }
  assert (get_tool r tid = Some tool) as Hbefore
    by (unfold get_tool; by rewrite Hl).
  destruct (u_name u) as [n|] eqn:Hu.
  - destruct (decide (n ≠ name tool)) as [Hne|Heq].
    + unfold mem. rewrite Hn. intros [= <- <-]. exists tool.
      split; [done|]. split; [apply Hself|]. split; [done|].
      assert (name tool' = n) as Hnew by (subst tool'; simpl; by rewrite Hu).
      split; [|split; [|apply Hframe]].
      * unfold get_by_name. simpl. fold tool'. rewrite get_set_eq. simpl.
        by apply list_lookup_insert_eq.
      * intros _. unfold get_by_name. simpl. fold tool'. rewrite Hu. simpl.
        rewrite get_set_ne by done. by rewrite get_del_eq.
    + apply dec_stable in Heq. subst n. intros [= <- <-]. exists tool.
      assert (name tool' = name tool) as Hnew by (subst tool'; simpl; by rewrite Hu).
      split; [done|]. split; [apply Hself|]. split; [done|].
      split; [|split; [done|apply Hframe]].
      unfold get_by_name. simpl. fold tool'. rewrite Hu. simpl. rewrite Hn. simpl.
      by apply list_lookup_insert_eq.
  - intros [= <- <-]. exists tool.
    assert (name tool' = name tool) as Hnew by (subst tool'; simpl; by rewrite Hu).
    split; [done|]. split; [apply Hself|]. split; [done|].
    split; [|split; [done|apply Hframe]].
    unfold get_by_name. simpl. fold tool'. rewrite Hu. simpl. rewrite Hn. simpl.
    by apply list_lookup_insert_eq.
Qed.

(** [update("t2", {"name": "gamma"}, "agent-2")] *)
Definition rename_gamma : Updates :=
  {| u_id := None; u_name := Some "gamma"; u_description := None;
     u_input_schema := None; u_scope := None; u_created_by_agent_id := None;
     u_source_code := None; u_version := None; u_usage_count := None |}.

Lemma two_tools_reachable : reachable example_uuids two_tools.
Proof.
  exact (reach_register _ _ (shared_tool "t2" "beta" "agent-2")
           (reach_register _ _ (shared_tool "t1" "alpha" "agent-1")
              (reach_new example_uuids))).
Qed.

Lemma register_then_lookup_witness :
  let t := shared_tool "t3" "gamma" "agent-1" in
  ∃ r', register t two_tools = (Ret (), r') ∧
        get_tool r' "t3" = Some t ∧ get_by_name r' "gamma" = Some t ∧
        (∀ k, k ≠ "t3" → get_tool r' k = get_tool two_tools k) ∧
        (∀ n, n ≠ "gamma" → get (_handlers r') n = get (_handlers two_tools) n).
Proof.
  exact (register_then_lookup example_uuids two_tools
           (shared_tool "t3" "gamma" "agent-1") two_tools_reachable).
Defined.

Lemma delete_removes_exactly_witness :
  ∃ r', delete "t2" "agent-1" two_tools = (Ret "beta", r') ∧
        get_tool r' "t2" = None ∧ get_by_name r' "beta" = None ∧
        map name (filter (λ t, scope t ≠ BUILTIN) (get_all_tools r')) = ["alpha"] ∧
        ∀ t, t ∈ get_all_tools r' ↔ t ∈ get_all_tools two_tools ∧ name t ≠ "beta".
Proof.
  eexists. split; [reflexivity|].
  destruct (delete_removes_exactly example_uuids two_tools "t2" "agent-1"
              two_tools_reachable "beta" _ eq_refl) as (_ & H1 & H2 & _ & _ & H3).
  split; [exact H1|]. split; [exact H2|]. split; [reflexivity|exact H3].
Defined.

Lemma update_then_lookup_witness :
  ∃ r' t', update "t2" rename_gamma "agent-1" two_tools = (Ret 11%nat, r') ∧
           get_tool r' "t2" = Some t' ∧ name t' = "gamma" ∧ version t' = 2 ∧
           get_by_name r' "gamma" = Some t' ∧ get_by_name r' "beta" = None.
Proof.
  eexists _, _. split; [reflexivity|].
  assert (keeps_names two_tools "t2" rename_gamma) as Hk
    by (intros n [= <-]; by left).
  destruct (update_then_lookup example_uuids two_tools "t2" rename_gamma "agent-1"
              two_tools_reachable Hk 11%nat _ eq_refl)
    as (t & Ht & H1 & H2 & H3 & H4 & _).
  injection Ht as <-.
  split; [exact H1|]. split; [reflexivity|]. split; [reflexivity|].
  split; [exact H3|]. apply H4. discriminate.
Defined.

End Registry.


(** ** tools/toolification.py: skeleton extraction *)

Module Toolification.

(** Code is a [str], a sequence of Unicode code points. *)
Abbreviation text := (list N).

(** The character database of the interpreter, as [str.isalpha],
    [str.isdecimal], [str.isdigit], [str.isnumeric] and [str.isspace] report
    it.  The tables are consulted for the code points from 128 on; the ASCII
    range is written out below. *)
Record CharTables := {
  isalpha : N → bool;
  isdecimal : N → bool;
  isdigit : N → bool;
  isnumeric : N → bool;
  isspace : N → bool;
}.

Definition ascii_digit (c : N) : bool := ((48 <=? c) && (c <=? 57))%N.

Definition ascii_alpha (c : N) : bool :=
  (((65 <=? c) && (c <=? 90)) || ((97 <=? c) && (c <=? 122)))%N.

Definition ascii_space (c : N) : bool :=
  (((9 <=? c) && (c <=? 13)) || ((28 <=? c) && (c <=? 32)))%N.

Definition DQ : N := 34%N.
Definition SQ : N := 39%N.
Definition DOT : N := 46%N.
Definition ZERO : N := 48%N.

(** The code points of a text written in ASCII. *)
Definition lit (s : string) : text := N_of_ascii <$> list_ascii_of_string s.

(** *** The patterns of the module *)

Inductive cset :=
| Char (c : N)             (* the character itself *)
| NotChar (c : N)          (* [^c] *)
| Digit                    (* \d *)
| Space.                   (* \s *)

Inductive atom :=
| One (cs : cset)          (* x *)
| Opt (cs : cset)          (* x? *)
| Star (cs : cset)         (* x* *)
| WordBoundary.            (* \b *)

Definition regex := list atom.

(** A quote, any run of characters other than it, and the quote again. *)
Definition quoted (q : N) : regex := [One (Char q); Star (NotChar q); One (Char q)].
Definition double_quoted : regex := quoted DQ.
Definition single_quoted : regex := quoted SQ.
Definition number : regex :=
  [WordBoundary; One Digit; Star Digit; Opt (Char DOT); Star Digit; WordBoundary].
Definition whitespace : regex := [One Space; Star Space].

Definition STR (q : N) : text := q :: lit "<STR>" ++ [q].
Definition NUM : text := lit "<NUM>".

Section Skeleton.

Variable tables : CharTables.

(** [\d]: a decimal digit *)
Definition is_digit (c : N) : bool :=
  if (c <? 128)%N then ascii_digit c else isdecimal tables c.

(** [\w]: a character for which [str.isalnum] holds, or the underscore *)
Definition is_word (c : N) : bool :=
  if (c <? 128)%N then ascii_alpha c || ascii_digit c || (c =? 95)%N
  else isalpha tables c || isdecimal tables c || isdigit tables c
       || isnumeric tables c.

(** [\s], also what [str.strip()] removes *)
Definition is_space (c : N) : bool :=
  if (c <? 128)%N then ascii_space c else isspace tables c.

(** *** A backtracking matcher for the patterns *)

Definition in_cset (cs : cset) (c : N) : bool :=
  match cs with
  | Char c' => bool_decide (c = c')
  | NotChar c' => negb (bool_decide (c = c'))
  | Digit => is_digit c
  | Space => is_space c
  end.

(** [\b] holds between the character before the position and the one at it
    when exactly one of them is a word character; outside the string counts
    as a non-word character. *)
Definition word_opt (c : option N) : bool :=
  match c with Some c => is_word c | None => false end.

Definition at_boundary (prev : option N) (s : text) : bool :=
  xorb (word_opt prev) (word_opt (head s)).

(** [x*] followed by [rest]: take as many characters as the class allows,
    then give them back one at a time until [rest] matches. *)
Fixpoint star_match (cs : cset) (rest : option N → text → option nat)
    (prev : option N) (s : text) : option nat :=
  match s with
  | c :: r =>
      if in_cset cs c then
        match star_match cs rest (Some c) r with
        | Some n => Some (S n)
        | None => rest prev s
        end
      else rest prev s
  | [] => rest prev s
  end.

(** [x?] followed by [rest]: with the character first, without it second. *)
Definition opt_match (cs : cset) (rest : option N → text → option nat)
    (prev : option N) (s : text) : option nat :=
  match s with
  | c :: r =>
      if in_cset cs c then
        match rest (Some c) r with
        | Some n => Some (S n)
        | None => rest prev s
        end
      else rest prev s
  | [] => rest prev s
  end.

Definition one_match (cs : cset) (rest : option N → text → option nat)
    (prev : option N) (s : text) : option nat :=
  match s with
  | c :: r => if in_cset cs c then S <$> rest (Some c) r else None
  | [] => None
  end.

(** [match_here re prev s]: the length of the match of [re] at the start of
    [s], where [prev] is the character before it.  Quantifiers are greedy and
    backtrack, so the result is the first match in Python's order of
    preference. *)
Fixpoint match_here (re : regex) : option N → text → option nat :=
  match re with
  | [] => λ _ _, Some 0%nat
  | a :: k =>
    let rest := match_here k in
    match a with
    | One cs => one_match cs rest
    | Opt cs => opt_match cs rest
    | Star cs => star_match cs rest
    | WordBoundary => λ prev s,
        if at_boundary prev s then rest prev s else None
    end
  end.

(** [re.sub(re, repl, s)]: scan from the left; where the pattern matches,
    emit [repl] and resume after the match, else keep the character.
    [skip] counts the characters of a match still to pass over.  None of the
    patterns below matches the empty string. *)
Fixpoint sub_from (re : regex) (repl : text) (skip : nat)
    (prev : option N) (s : text) : text :=
  match s with
  | [] => []
  | c :: r =>
    match skip with
    | S k => sub_from re repl k (Some c) r
    | O =>
      match match_here re prev s with
      | Some (S n) => repl ++ sub_from re repl n (Some c) r
      | _ => c :: sub_from re repl 0 (Some c) r
      end
    end
  end.

Definition sub (re : regex) (repl : text) (s : text) : text :=
  sub_from re repl 0 None s.

(** [s.strip()] *)
Fixpoint lstrip (s : text) : text :=
  match s with
  | c :: r => if is_space c then lstrip r else s
  | [] => []
  end.

Definition strip (s : text) : text := rev (lstrip (rev (lstrip s))).

Definition sub_quoted (q : N) : text → text := sub (quoted q) (STR q).
Definition sub_double_quoted : text → text := sub_quoted DQ.
Definition sub_single_quoted : text → text := sub_quoted SQ.
Definition sub_number : text → text := sub number NUM.
Definition sub_whitespace : text → text := sub whitespace (lit " ").

(** [ToolificationEngine._extract_skeleton] *)
Definition _extract_skeleton (code : text) : text :=
  let skeleton := sub_double_quoted code in
  let skeleton := sub_single_quoted skeleton in
  let skeleton := sub_number skeleton in
  strip (sub_whitespace skeleton).

(** Writing code fragments: [lit "x = "] and [dq "a.csv"]. *)
Definition dq (s : string) : text := DQ :: lit s ++ [DQ].
Definition sq (s : string) : text := SQ :: lit s ++ [SQ].

(** *** Replacing quoted literals *)

Section Quoted.
Variable q : N.

#[local] Abbreviation closing :=
  (one_match (Char q) (λ (_ : option N) (_ : text), Some 0%nat)).
#[local] Abbreviation body := (star_match (NotChar q) closing).

Lemma in_cset_Char c c' : in_cset (Char c') c = bool_decide (c = c').
Proof. done. Qed.

Lemma in_cset_NotChar c c' : in_cset (NotChar c') c = negb (bool_decide (c = c')).
Proof. done. Qed.

Lemma body_closed prev (u rest : text) :
  q ∉ u → body prev (u ++ q :: rest) = Some (S (length u)).
Proof.
  revert prev. induction u as [|c u IH]; intros prev Hq.
  - cbn [app star_match one_match length].
    rewrite in_cset_NotChar, in_cset_Char, bool_decide_eq_true_2 by done. done.
  - apply not_elem_of_cons in Hq as [Hc Hu].
    cbn [app star_match length].
    rewrite in_cset_NotChar, bool_decide_eq_false_2 by done.
    cbn [negb]. by rewrite IH.
Qed.

Lemma body_open prev (s : text) : q ∉ s → body prev s = None.
Proof.
  revert prev. induction s as [|c s IH]; intros prev Hq; [done|].
  apply not_elem_of_cons in Hq as [Hc Hs].
  cbn [star_match]. rewrite in_cset_NotChar, bool_decide_eq_false_2 by done.
  cbn [negb]. rewrite IH by done.
  cbn [one_match]. by rewrite in_cset_Char, bool_decide_eq_false_2.
Qed.

Lemma match_quoted_other prev c (s : text) :
  c ≠ q → match_here (quoted q) prev (c :: s) = None.
Proof.
  intros Hc. cbn [match_here quoted one_match].
  by rewrite in_cset_Char, bool_decide_eq_false_2.
Qed.

Lemma match_quoted_closed prev (u rest : text) :
  q ∉ u → match_here (quoted q) prev (q :: u ++ q :: rest) = Some (S (S (length u))).
Proof.
  intros Hq. cbn [match_here quoted one_match].
  rewrite in_cset_Char, bool_decide_eq_true_2 by done.
  by rewrite (body_closed (Some q) u rest Hq).
Qed.

Lemma match_quoted_open prev (s : text) :
  q ∉ s → match_here (quoted q) prev (q :: s) = None.
Proof.
  intros Hq. cbn [match_here quoted one_match].
  rewrite in_cset_Char, bool_decide_eq_true_2 by done.
  by rewrite (body_open (Some q) s Hq).
Qed.

(** The quote patterns never look at the character before the match. *)
Lemma sub_quoted_prev repl k prev prev' (s : text) :
  sub_from (quoted q) repl k prev s = sub_from (quoted q) repl k prev' s.
Proof. destruct s as [|c s]; [done|]. destruct k; reflexivity. Qed.

(** Text without the quote passes through unchanged. *)
Lemma sub_quoted_through repl prev prev' (u v : text) :
  q ∉ u →
  sub_from (quoted q) repl 0 prev (u ++ v) = u ++ sub_from (quoted q) repl 0 prev' v.
Proof.
  revert prev. induction u as [|c u IH]; intros prev Hq.
  - apply sub_quoted_prev.
  - apply not_elem_of_cons in Hq as [Hc Hu].
    cbn [app sub_from]. rewrite match_quoted_other by done.
    f_equal. by apply IH.
Qed.

(** A quote without a closing one stays, with all that follows it. *)
Lemma sub_quoted_unclosed repl prev (s : text) :
  q ∉ s → sub_from (quoted q) repl 0 prev (q :: s) = q :: s.
Proof.
  intros Hq. cbn [sub_from]. rewrite match_quoted_open by done. f_equal.
  rewrite <- (app_nil_r s) at 1.
  rewrite (sub_quoted_through repl _ None s [] Hq). by rewrite app_nil_r.
Qed.

End Quoted.

(** After [length u] characters to pass over, the scan resumes behind [u]. *)
Definition prev_after (prev : option N) (u : text) : option N :=
  match last u with Some c => Some c | None => prev end.

Lemma sub_from_skip_more re repl n prev (u v : text) :
  sub_from re repl (length u + n) prev (u ++ v)
    = sub_from re repl n (prev_after prev u) v.
Proof.
  revert prev. induction u as [|c u IH]; intros prev; [done|].
  cbn [app length sub_from Nat.add]. rewrite IH. f_equal.
  unfold prev_after. destruct u as [|a u]; [reflexivity|].
  change (last (c :: a :: u)) with (last (a :: u)).
  destruct (last (a :: u)) eqn:E; [done|]. by apply last_None in E.
Qed.

Lemma sub_from_skip re repl prev (u v : text) :
  sub_from re repl (length u) prev (u ++ v)
    = sub_from re repl 0 (prev_after prev u) v.
Proof.
  rewrite <- (sub_from_skip_more re repl 0 prev u v). f_equal. lia.
Qed.

(** [balanced q s]: the quote [q] occurs an even number of times in [s]. *)
Fixpoint balanced (q : N) (s : text) : bool :=
  match s with
  | [] => true
  | c :: r => if decide (c = q) then negb (balanced q r) else balanced q r
  end.

Lemma balanced_split q (p : text) :
  balanced q (q :: p) = true →
  ∃ u p', p = (u ++ q :: p') ∧ (q ∉ u) ∧ balanced q p' = true.
Proof.
  induction p as [|c p IH]; cbn [balanced]; rewrite decide_True by done.
  - done.
  - destruct (decide (c = q)) as [->|Hc].
    + rewrite negb_involutive. intros Hb. exists [], p.
      split; [done|]. split; [apply not_elem_of_nil|done].
    + intros Hb. destruct IH as (u & p' & -> & Hu & Hp').
      { cbn [balanced]. by rewrite decide_True. }
      exists (c :: u), p'. split; [done|]. split; [|done].
      apply not_elem_of_cons. split; done.
Qed.

Lemma sub_quoted_literal q repl prev prev' (c s : text) :
  q ∉ c →
  sub_from (quoted q) repl 0 prev (q :: c ++ q :: s)
    = repl ++ sub_from (quoted q) repl 0 prev' s.
Proof.
  intros Hq. cbn [sub_from]. rewrite match_quoted_closed by done. f_equal.
  replace (c ++ q :: s) with ((c ++ [q]) ++ s) by (by rewrite <- app_assoc).
  replace (S (length c)) with (length (c ++ [q])) by (rewrite length_app; simpl; lia).
  rewrite sub_from_skip. apply sub_quoted_prev.
Qed.

(** Behind a prefix with an even number of quotes the scan starts afresh. *)
Lemma sub_quoted_app q repl prev prev' (p s : text) :
  balanced q p = true →
  sub_from (quoted q) repl 0 prev (p ++ s)
    = sub_from (quoted q) repl 0 prev p ++ sub_from (quoted q) repl 0 prev' s.
Proof.
  remember (length p) as n eqn:Hn. revert p prev Hn.
  induction n as [n IH] using lt_wf_ind. intros p prev Hn Hb.
  destruct p as [|c p].
  - apply sub_quoted_prev.
  - destruct (decide (c = q)) as [->|Hc].
    + apply balanced_split in Hb as (u & p' & -> & Hu & Hp').
      replace ((q :: u ++ q :: p') ++ s) with (q :: u ++ q :: (p' ++ s))
        by (simpl; by rewrite <- app_assoc).
      rewrite !(sub_quoted_literal q repl prev prev) by done.
      rewrite <- app_assoc. f_equal.
      apply (IH (length p')); [|done..].
      subst n. simpl. rewrite length_app. simpl. lia.
    + cbn [balanced] in Hb. rewrite decide_False in Hb by done.
      cbn [app sub_from]. rewrite !match_quoted_other by done.
      cbn [app]. f_equal. apply (IH (length p)); [subst n; simpl; lia|done..].
Qed.


Lemma head_sub_quoted q prev (s : text) :
  head (sub_from (quoted q) (STR q) 0 prev s) = head s.
Proof.
  destruct s as [|c s]; [done|]. cbn [sub_from].
  destruct (match_here (quoted q) prev (c :: s)) as [[|n]|] eqn:E; try done.
  destruct (decide (c = q)) as [->|Hc]; [done|].
  by rewrite match_quoted_other in E.
Qed.

(** *** The matcher and its context *)

(** The character before a match only matters as a word character or not. *)
Lemma match_here_prev re prev prev' (s : text) :
  word_opt prev = word_opt prev' →
  match_here re prev s = match_here re prev' s.
Proof.
  intros Hw. revert s. induction re as [|a re IH]; intros s; [done|].
  destruct a as [cs|cs|cs|]; cbn [match_here].
  - done.
  - unfold opt_match. destruct s as [|c r]; [apply IH|].
    destruct (in_cset cs c); [|apply IH].
    destruct (match_here re (Some c) r); [done|apply IH].
  - destruct s as [|c r]; cbn [star_match]; [apply IH|].
    destruct (in_cset cs c); [|apply IH].
    destruct (star_match cs (match_here re) (Some c) r); [done|apply IH].
  - unfold at_boundary. rewrite Hw. destruct (xorb _ _); [apply IH|done].
Qed.

Lemma sub_from_prev re repl k prev prev' (s : text) :
  word_opt prev = word_opt prev' →
  sub_from re repl k prev s = sub_from re repl k prev' s.
Proof.
  intros Hw. destruct s as [|c s]; [done|]. destruct k; [|done].
  cbn [sub_from]. by rewrite (match_here_prev re prev prev').
Qed.

(** [consumes a c]: the atom can take the character [c]. *)
Definition consumes (a : atom) (c : N) : bool :=
  match a with
  | One cs | Opt cs | Star cs => in_cset cs c
  | WordBoundary => false
  end.

Definition stops (re : regex) (c : N) : Prop :=
  Forall (λ a, consumes a c = false) re.

(** A match cannot pass a character no atom takes, nor see behind it. *)
Lemma match_here_cut re c prev (t X : text) :
  stops re c →
  match_here re prev (t ++ c :: X) = match_here re prev (t ++ [c]) ∧
  (∀ n, match_here re prev (t ++ [c]) = Some n → (n ≤ length t)%nat).
Proof.
  intros Hre. revert prev t.
  induction Hre as [|a re Ha Hre IH]; intros prev t.
  { split; [done|]. intros n [= <-]. lia. }
  destruct a as [cs|cs|cs|]; cbn [match_here]; cbn [consumes] in Ha.
  - destruct t as [|b t]; cbn [app one_match].
    + rewrite Ha. done.
    + destruct (IH (Some b) t) as [IH1 IH2].
      destruct (in_cset cs b); [|done]. rewrite IH1. split; [done|].
      intros n. destruct (match_here re (Some b) (t ++ [c])) as [m|] eqn:E; [|done].
      intros [= <-]. specialize (IH2 m eq_refl). simpl. lia.
  - destruct t as [|b t]; cbn [app opt_match].
    + rewrite Ha. apply (IH prev []).
    + destruct (IH (Some b) t) as [IH1 IH2].
      destruct (IH prev (b :: t)) as [IH3 IH4]. cbn [app] in IH3, IH4.
      destruct (in_cset cs b); [|done]. rewrite IH1, IH3. split; [done|].
      intros n. destruct (match_here re (Some b) (t ++ [c])) as [m|] eqn:E.
      * intros [= <-]. specialize (IH2 m eq_refl). simpl. lia.
      * apply IH4.
  - revert prev. induction t as [|b t IHt]; intros prev; cbn [app star_match].
    + rewrite Ha. apply (IH prev []).
    + destruct (IHt (Some b)) as [IH1 IH2].
      destruct (IH prev (b :: t)) as [IH3 IH4]. cbn [app] in IH3, IH4.
      destruct (in_cset cs b); [|done]. rewrite IH1, IH3. split; [done|].
      intros n.
      destruct (star_match cs (match_here re) (Some b) (t ++ [c])) as [m|] eqn:E.
      * intros [= <-]. specialize (IH2 m eq_refl). simpl. lia.
      * apply IH4.
  - destruct (IH prev t) as [IH1 IH2].
    replace (at_boundary prev (t ++ c :: X)) with (at_boundary prev (t ++ [c]))
      by (unfold at_boundary; by destruct t).
    destruct (at_boundary prev (t ++ [c])); done.
Qed.

Lemma sub_from_cut re repl c k prev (t X : text) :
  stops re c → (k ≤ length t)%nat →
  sub_from re repl k prev (t ++ c :: X)
    = sub_from re repl k prev (t ++ [c]) ++ sub_from re repl 0 (Some c) X.
Proof.
  intros Hre. revert k prev. induction t as [|b t IHt]; intros k prev Hk.
  - assert (k = 0%nat) as -> by (simpl in Hk; lia). cbn [app sub_from].
    destruct (match_here_cut re c prev [] X Hre) as [E1 E2]. cbn [app] in E1, E2.
    rewrite E1. destruct (match_here re prev [c]) as [[|n]|] eqn:E; try done.
    specialize (E2 _ eq_refl). simpl in E2. lia.
  - cbn [app sub_from]. destruct k as [|k].
    + destruct (match_here_cut re c prev (b :: t) X Hre) as [E1 E2].
      cbn [app] in E1, E2. rewrite E1.
      destruct (match_here re prev (b :: t ++ [c])) as [[|n]|] eqn:E.
      * by rewrite IHt by lia.
      * specialize (E2 _ eq_refl). simpl in E2.
        rewrite IHt by lia. by rewrite app_assoc.
      * by rewrite IHt by lia.
    + apply IHt. simpl in Hk. lia.
Qed.

(** *** Replacing numbers *)

Definition digits (d : text) : Prop := Forall (λ c, is_digit c = true) d.

(** The text starts with no word character (or is empty). *)
Definition starts_clear (s : text) : Prop :=
  match head s with Some c => is_word c = false | None => True end.

(** What may follow the integer part: [\.?\d*\b]. *)
Definition fraction : regex := [Opt (Char DOT); Star Digit; WordBoundary].

Lemma is_digit_word c : is_digit c = true → is_word c = true.
Proof.
  unfold is_digit, is_word. destruct (c <? 128)%N; intros ->;
    by rewrite orb_true_r.
Qed.

Lemma not_word_not_digit c : is_word c = false → is_digit c = false.
Proof.
  intros Hw. destruct (is_digit c) eqn:E; [|done].
  apply is_digit_word in E. congruence.
Qed.

(** Behind a digit and before a non-word character the rest of the number
    pattern always matches. *)
Lemma fraction_matches a (s : text) :
  is_digit a = true → starts_clear s →
  ∃ n, match_here fraction (Some a) s = Some n.
Proof.
  intros Ha Hs. apply is_digit_word in Ha.
  assert (match_here [Star Digit; WordBoundary] (Some a) s = Some 0%nat) as Hrest.
  { cbn [match_here]. destruct s as [|c r]; cbn [star_match].
    - unfold at_boundary. cbn [head word_opt]. by rewrite Ha.
    - unfold starts_clear in Hs. cbn [head] in Hs.
      cbn [in_cset]. rewrite (not_word_not_digit c Hs).
      unfold at_boundary. cbn [head word_opt]. by rewrite Ha, Hs. }
  unfold fraction. cbn [match_here] in *. unfold opt_match.
  destruct s as [|c r]; [by eexists|].
  destruct (in_cset (Char DOT) c); [|by eexists].
  destruct (star_match Digit _ (Some c) r); by eexists.
Qed.

Lemma star_digits rest n a (d s : text) :
  digits d → starts_clear s →
  (∀ b, is_digit b = true → rest (Some b) s = Some n) →
  is_digit a = true →
  star_match Digit rest (Some a) (d ++ s) = Some (length d + n)%nat.
Proof.
  intros Hd Hs Hrest. revert a. induction Hd as [|b d Hb Hd IH]; intros a Ha.
  - cbn [app length Nat.add]. destruct s as [|c r]; cbn [star_match]; [by apply Hrest|].
    unfold starts_clear in Hs. cbn [head] in Hs.
    cbn [in_cset]. rewrite (not_word_not_digit c Hs). by apply Hrest.
  - cbn [app length Nat.add star_match in_cset]. rewrite Hb. by rewrite IH.
Qed.

(** The number of characters of [s] the match of a number takes after its
    digits. *)
Definition after_digits (s : text) : nat :=
  default 0%nat (match_here fraction (Some ZERO) s).

Lemma match_number_digits prev a (d s : text) :
  word_opt prev = false → digits (a :: d) → starts_clear s →
  match_here number prev (a :: d ++ s) = Some (S (length d + after_digits s)).
Proof.
  intros Hp Hd Hs. apply Forall_cons in Hd as [Ha Hd].
  unfold number. cbn [match_here].
  unfold at_boundary. cbn [head word_opt]. rewrite Hp, (is_digit_word a Ha).
  cbn [xorb one_match in_cset]. rewrite Ha.
  change (opt_match (Char DOT) _) with (match_here fraction).
  rewrite (star_digits (match_here fraction) (after_digits s) a d s); try done.
  intros b Hb. unfold after_digits.
  destruct (fraction_matches ZERO s eq_refl Hs) as [n Hn].
  rewrite (match_here_prev fraction (Some b) (Some ZERO)); [by rewrite Hn|].
  cbn [word_opt]. by rewrite (is_digit_word b Hb).
Qed.

(** A run of digits between non-word characters becomes the placeholder,
    whatever the digits are. *)
Lemma sub_number_digits prev a (d s : text) :
  word_opt prev = false → digits (a :: d) → starts_clear s →
  sub_from number NUM 0 prev (a :: d ++ s)
    = NUM ++ sub_from number NUM (after_digits s) (Some ZERO) s.
Proof.
  intros Hp Hd Hs. cbn [sub_from].
  rewrite match_number_digits by done. f_equal.
  rewrite sub_from_skip_more. apply sub_from_prev.
  apply Forall_cons in Hd as [Ha Hd]. unfold prev_after.
  destruct (last d) as [b|] eqn:E; cbn [word_opt].
  - apply (is_digit_word b).
    rewrite Forall_forall in Hd. apply Hd.
    first [by apply last_Some_elem_of
          |apply list_elem_of_In; by apply last_Some_elem_of].
  - by apply is_digit_word.
Qed.

(** *** Fragments that differ in one literal *)

Lemma sub_quoted_frame q (p u s : text) :
  balanced q p = true → q ∉ u →
  sub_quoted q (p ++ u ++ s) = sub_quoted q p ++ u ++ sub_quoted q s.
Proof.
  intros Hp Hu. unfold sub_quoted, sub.
  rewrite (sub_quoted_app q _ None None) by done. f_equal.
  by apply sub_quoted_through.
Qed.

Lemma sub_quoted_frame_literal q (p c s : text) :
  balanced q p = true → q ∉ c →
  sub_quoted q (p ++ q :: c ++ q :: s) = sub_quoted q p ++ STR q ++ sub_quoted q s.
Proof.
  intros Hp Hc. unfold sub_quoted, sub.
  rewrite (sub_quoted_app q _ None None) by done. f_equal.
  by apply sub_quoted_literal.
Qed.

Lemma starts_clear_sub_quoted q (s : text) :
  starts_clear s → starts_clear (sub_quoted q s).
Proof. unfold starts_clear, sub_quoted, sub. by rewrite head_sub_quoted. Qed.

Lemma digits_not_elem q (d : text) : is_digit q = false → digits d → q ∉ d.
Proof.
  intros Hq Hd Hin. unfold digits in Hd. rewrite Forall_forall in Hd.
  assert (is_digit q = true); [|congruence].
  apply Hd. first [done | by apply list_elem_of_In].
Qed.

(** A character that can stand before a number: no word character, no dot
    and no quote. *)
Definition delimiter (c : N) : Prop :=
  is_word c = false ∧ c ≠ DOT ∧ c ≠ DQ ∧ c ≠ SQ.

Lemma stops_number c : is_word c = false → c ≠ DOT → stops number c.
Proof.
  intros Hw Hd. pose proof (not_word_not_digit c Hw) as Hn.
  unfold stops, number. repeat constructor; cbn [consumes in_cset]; try done.
  by apply bool_decide_eq_false_2.
Qed.

(** *** Numerals: digits, or digits, a dot and digits *)

Definition integer (n : text) : Prop := digits n ∧ n ≠ [].

Definition decimal (n : text) : Prop :=
  ∃ d e, integer d ∧ integer e ∧ n = d ++ DOT :: e.

Definition numeral (n : text) : Prop := integer n ∨ decimal n.

(** Both written with a dot, or both without. *)
Definition alike (n1 n2 : text) : Prop :=
  (integer n1 ∧ integer n2) ∨ (decimal n1 ∧ decimal n2).

(** What may follow two numerals for them to be replaced alike: no word
    character, and a dot only when both are of one kind. *)
Definition follows (n1 n2 s : text) : Prop :=
  starts_clear s ∧ (alike n1 n2 ∨ head s ≠ Some DOT).

Lemma digits_last (d : text) b : digits d → last d = Some b → is_digit b = true.
Proof.
  intros Hd Hb. unfold digits in Hd. rewrite Forall_forall in Hd. apply Hd.
  first [by apply last_Some_elem_of
        |apply list_elem_of_In; by apply last_Some_elem_of].
Qed.

(** Behind the dot of a decimal the match takes the digits that follow. *)
Lemma after_digits_decimal (e s : text) :
  integer e → starts_clear s → after_digits (DOT :: e ++ s) = S (length e).
Proof.
  intros [He Hne] Hs. destruct e as [|b e]; [done|].
  apply Forall_cons in He as [Hb He].
  unfold after_digits, fraction. cbn [match_here opt_match in_cset].
  rewrite bool_decide_eq_true_2 by done.
  cbn [app star_match in_cset]. rewrite Hb.
  rewrite (star_digits _ 0 b e s He Hs); [by rewrite Nat.add_0_r|..|done].
  intros b' Hb'. unfold at_boundary. cbn [word_opt].
  rewrite (is_digit_word b' Hb').
  unfold starts_clear in Hs. by destruct (head s) as [c|]; cbn; [rewrite Hs|].
Qed.

(** Before a character that is neither a word character nor a dot the match
    ends with the digits. *)
Lemma after_digits_clear (s : text) :
  starts_clear s → head s ≠ Some DOT → after_digits s = 0%nat.
Proof.
  intros Hs Hdot. unfold after_digits, fraction. cbn [match_here].
  unfold starts_clear in Hs. destruct s as [|c r]; cbn [head] in *.
  - reflexivity.
  - cbn [opt_match in_cset]. rewrite bool_decide_eq_false_2 by congruence.
    cbn [star_match in_cset]. rewrite (not_word_not_digit c Hs).
    unfold at_boundary. cbn [head word_opt]. by rewrite Hs.
Qed.

(** A decimal between non-word characters becomes the placeholder, whatever
    its digits are. *)
Lemma sub_number_decimal prev (n s : text) :
  word_opt prev = false → decimal n → starts_clear s →
  sub_from number NUM 0 prev (n ++ s)
    = NUM ++ sub_from number NUM 0 (Some ZERO) s.
Proof.
  intros Hp (d & e & [Hd Hdne] & [He Hene] & ->) Hs.
  destruct d as [|a d]; [done|].
  rewrite <- app_assoc. cbn [app].
  rewrite (sub_number_digits prev a d (DOT :: e ++ s)); [|done..].
  f_equal. rewrite after_digits_decimal by done.
  change (DOT :: e ++ s) with ((DOT :: e) ++ s).
  change (S (length e)) with (length (DOT :: e)).
  rewrite sub_from_skip. apply sub_from_prev.
  unfold prev_after. destruct (last (DOT :: e)) as [b|] eqn:E; [|done].
  destruct e as [|b' e]; [done|].
  change (last (DOT :: b' :: e)) with (last (b' :: e)) in E.
  cbn [word_opt]. rewrite (is_digit_word b (digits_last _ b He E)).
  done.
Qed.

(** Two numerals before the same text are replaced alike. *)
Lemma sub_number_numerals prev (n1 n2 s : text) :
  word_opt prev = false → numeral n1 → numeral n2 → follows n1 n2 s →
  sub_from number NUM 0 prev (n1 ++ s) = sub_from number NUM 0 prev (n2 ++ s).
Proof.
  intros Hp H1 H2 [Hs Hkind].
  assert (∀ n, integer n →
            sub_from number NUM 0 prev (n ++ s)
              = NUM ++ sub_from number NUM (after_digits s) (Some ZERO) s) as Hint.
  { intros n [Hn Hne]. destruct n as [|a n]; [done|].
    by apply sub_number_digits. }
  pose proof (λ n, sub_number_decimal prev n s Hp) as Hdec.
  destruct Hkind as [[[Hi1 Hi2]|[Hd1 Hd2]]|Hdot].
  - by rewrite !Hint.
  - by rewrite !Hdec.
  - assert (∀ n, numeral n →
              sub_from number NUM 0 prev (n ++ s)
                = NUM ++ sub_from number NUM 0 (Some ZERO) s) as Hnum.
    { intros n [Hn|Hn]; [|by apply Hdec].
      rewrite (Hint n Hn). by rewrite after_digits_clear. }
    by rewrite !Hnum.
Qed.

Lemma numeral_not_elem q (n : text) :
  is_digit q = false → q ≠ DOT → numeral n → q ∉ n.
Proof.
  intros Hq Hdot [[Hn _]|(d & e & [Hd _] & [He _] & ->)].
  - by apply digits_not_elem.
  - rewrite not_elem_of_app, not_elem_of_cons.
    repeat split; [by apply digits_not_elem|done|by apply digits_not_elem].
Qed.

Lemma follows_sub_quoted q (n1 n2 s : text) :
  follows n1 n2 s → follows n1 n2 (sub_quoted q s).
Proof.
  intros [Hs Hk]. split; [by apply starts_clear_sub_quoted|].
  destruct Hk as [Hk|Hk]; [by left|right].
  unfold sub_quoted, sub. by rewrite head_sub_quoted.
Qed.

(** The prefix of a fragment closes every literal it opens: it has an even
    number of double quotes and, once its double-quoted literals are
    replaced, an even number of single quotes. *)
Definition closed (p : text) : Prop :=
  balanced DQ p = true ∧ balanced SQ (sub_double_quoted p) = true.

(** The three substitutions on a numeral behind a delimiter, and on one at
    the start of the fragment. *)
Lemma numeral_framed (p : text) c (n s : text) :
  closed p → delimiter c → numeral n →
  sub_number (sub_single_quoted (sub_double_quoted (p ++ c :: n ++ s)))
    = sub_number (sub_single_quoted (sub_double_quoted p) ++ [c])
        ++ sub_from number NUM 0 (Some c)
             (n ++ sub_single_quoted (sub_double_quoted s)).
Proof.
  intros [Hp Hp'] (Hw & Hdot & Hcd & Hcs) Hn.
  assert (is_digit DQ = false ∧ is_digit SQ = false) as [HDQ HSQ] by done.
  unfold sub_double_quoted, sub_single_quoted in *.
  change (p ++ c :: n ++ s) with (p ++ (c :: n) ++ s).
  rewrite sub_quoted_frame; [|done|].
  2:{ apply not_elem_of_cons. split; [done|]. by apply numeral_not_elem. }
  rewrite sub_quoted_frame; [|done|].
  2:{ apply not_elem_of_cons. split; [done|]. by apply numeral_not_elem. }
  unfold sub_number, sub. cbn [app].
  by rewrite (sub_from_cut number NUM c 0 None) by (by apply stops_number || lia).
Qed.

Lemma numeral_leading (n s : text) :
  numeral n →
  sub_number (sub_single_quoted (sub_double_quoted (n ++ s)))
    = sub_from number NUM 0 None
        (n ++ sub_single_quoted (sub_double_quoted s)).
Proof.
  intros Hn.
  assert (is_digit DQ = false ∧ is_digit SQ = false) as [HDQ HSQ] by done.
  unfold sub_double_quoted, sub_single_quoted.
  change (n ++ s) with ([] ++ n ++ s).
  rewrite (sub_quoted_frame DQ [] n s) by (done || by apply numeral_not_elem).
  by rewrite (sub_quoted_frame SQ [] n) by (done || by apply numeral_not_elem).
Qed.

(** C8, as the code has it.  Two fragments that differ only in the contents
    of one double-quoted literal, or of one single-quoted literal, or in one
    numeral (a run of decimal digits, or two such runs joined by a dot) that
    stands between non-word characters, have the same skeleton; the rest of
    the fragment may hold digits and literals of either kind.  Digits and
    word characters are those of the interpreter's tables. *)
Theorem skeleton_literals_normalized (p s : text) :
  (∀ c1 c2 : text,
     balanced DQ p = true → DQ ∉ c1 → DQ ∉ c2 →
     _extract_skeleton (p ++ DQ :: c1 ++ DQ :: s)
       = _extract_skeleton (p ++ DQ :: c2 ++ DQ :: s)) ∧
  (∀ c1 c2 : text,
     closed p → DQ ∉ c1 → SQ ∉ c1 → DQ ∉ c2 → SQ ∉ c2 →
     _extract_skeleton (p ++ SQ :: c1 ++ SQ :: s)
       = _extract_skeleton (p ++ SQ :: c2 ++ SQ :: s)) ∧
  (∀ (c : N) (n1 n2 : text),
     closed p → delimiter c → numeral n1 → numeral n2 → follows n1 n2 s →
     _extract_skeleton (p ++ c :: n1 ++ s)
       = _extract_skeleton (p ++ c :: n2 ++ s)) ∧
  (∀ n1 n2 : text,
     numeral n1 → numeral n2 → follows n1 n2 s →
     _extract_skeleton (n1 ++ s) = _extract_skeleton (n2 ++ s)).
Proof.
  split; [|split; [|split]].
  - intros c1 c2 Hp H1 H2. unfold _extract_skeleton, sub_double_quoted.
    by rewrite !sub_quoted_frame_literal.
  - intros c1 c2 [Hp Hp'] H1 H1' H2 H2'.
    assert (∀ c : text, DQ ∉ c → SQ ∉ c →
      sub_single_quoted (sub_double_quoted (p ++ SQ :: c ++ SQ :: s))
        = sub_single_quoted (sub_double_quoted p) ++ STR SQ
            ++ sub_single_quoted (sub_double_quoted s)) as Hc.
    { intros c Hc Hc'. unfold sub_double_quoted, sub_single_quoted in *.
      replace (SQ :: c ++ SQ :: s) with ((SQ :: c ++ [SQ]) ++ s)
        by (simpl; by rewrite <- app_assoc).
      rewrite sub_quoted_frame; [|done|].
      - replace ((SQ :: c ++ [SQ]) ++ sub_quoted DQ s)
          with (SQ :: c ++ SQ :: sub_quoted DQ s) by (simpl; by rewrite <- app_assoc).
        by rewrite sub_quoted_frame_literal.
      - rewrite not_elem_of_cons, not_elem_of_app, not_elem_of_cons.
        repeat split; try done. apply not_elem_of_nil. }
    unfold _extract_skeleton. by rewrite !Hc.
  - intros c n1 n2 Hp Hc H1 H2 Hs. unfold _extract_skeleton.
    rewrite !numeral_framed by done. do 3 f_equal.
    apply sub_number_numerals; [by destruct Hc|done..|].
    by do 2 apply follows_sub_quoted.
  - intros n1 n2 H1 H2 Hs. unfold _extract_skeleton.
    rewrite !numeral_leading by done. do 2 f_equal.
    apply sub_number_numerals; [done..|].
    by do 2 apply follows_sub_quoted.
Qed.

(** Texts written in ASCII get the same skeleton under every table: a
    literal with an escaped quote and one without, and a numeral with an
    exponent and one without, keep different skeletons. *)
Lemma escaped_quote_and_exponent :
  _extract_skeleton (lit "x = " ++ [DQ] ++ lit "a\" ++ [DQ] ++ lit "b" ++ [DQ])
    ≠ _extract_skeleton (lit "x = " ++ dq "ab") ∧
  _extract_skeleton (lit "x = 1e5") ≠ _extract_skeleton (lit "x = 5").
Proof. split; vm_compute; discriminate. Qed.

End Skeleton.

(** A letter beyond ASCII is a word character: digits behind it stand at no
    word boundary and stay, so [é5] and [é123] keep different skeletons. *)
Lemma letter_before_digits (tables : CharTables) :
  isalpha tables 233 = true → isdecimal tables 233 = false →
  isspace tables 233 = false →
  _extract_skeleton tables [233; 53]%N = [233; 53]%N ∧
  _extract_skeleton tables [233; 49; 50; 51]%N = [233; 49; 50; 51]%N.
Proof.
  destruct tables as [al de di nu sp]. cbn [isalpha isdecimal isspace].
  intros Ha Hd Hs.
  split; repeat (progress (cbv; rewrite ?Ha, ?Hd, ?Hs)); reflexivity.
Qed.

(** For the examples any tables do, their texts are written in ASCII: those
    that know no character beyond it. *)
Definition no_tables : CharTables :=
  {| isalpha := λ _, false; isdecimal := λ _, false; isdigit := λ _, false;
     isnumeric := λ _, false; isspace := λ _, false |}.

(** The examples of the specification, each kind next to the other, and
    numerals with a dot: [load("a.csv")] and [load("b.csv")], [x = 5] and
    [x = 123], [f("a", 5)] and [f("a", 77)], [f(5, 'a')] and [f(5, 'b')],
    [x = 3.14] and [x = 2.5], [x = 5] and [x = 3.14]. *)
Lemma skeleton_literals_normalized_witness :
  let skeleton := _extract_skeleton no_tables in
  skeleton (lit "load(" ++ dq "a.csv" ++ lit ")")
    = skeleton (lit "load(" ++ dq "b.csv" ++ lit ")") ∧
  skeleton (lit "x = 5") = skeleton (lit "x = 123") ∧
  skeleton (lit "f(" ++ dq "a" ++ lit ", 5)")
    = skeleton (lit "f(" ++ dq "a" ++ lit ", 77)") ∧
  skeleton (lit "f(5, " ++ sq "a" ++ lit ")")
    = skeleton (lit "f(5, " ++ sq "b" ++ lit ")") ∧
  skeleton (lit "x = 3.14") = skeleton (lit "x = 2.5") ∧
  skeleton (lit "x = 5") = skeleton (lit "x = 3.14").
Proof.
  intros skeleton.
  assert (∀ d, d ≠ [] → Forall (λ c, is_digit no_tables c = true) d →
               integer no_tables d) as Hint by (by split).
  assert (integer no_tables (lit "5") ∧ integer no_tables (lit "123")
          ∧ integer no_tables (lit "77")) as (H5 & H123 & H77)
    by (repeat split; try done; repeat constructor).
  assert (decimal no_tables (lit "3.14") ∧ decimal no_tables (lit "2.5"))
    as [H314 H25].
  { split.
    - exists (lit "3"), (lit "14").
      repeat split; try done; repeat constructor.
    - exists (lit "2"), (lit "5").
      repeat split; try done; repeat constructor. }
  split; [|split; [|split; [|split; [|split]]]].
  - apply (proj1 (skeleton_literals_normalized no_tables (lit "load(") (lit ")"))
             (lit "a.csv") (lit "b.csv")).
    + reflexivity.
    + apply (bool_decide_unpack _). by vm_compute.
    + apply (bool_decide_unpack _). by vm_compute.
  - apply (proj1 (proj2 (proj2 (skeleton_literals_normalized no_tables
                                  (lit "x =") [])))
             32%N (lit "5") (lit "123")).
    + split; reflexivity.
    + repeat split; done.
    + by left.
    + by left.
    + split; [exact I|]. left. by left.
  - apply (proj1 (proj2 (proj2 (skeleton_literals_normalized no_tables
                                  (lit "f(" ++ dq "a" ++ lit ",") (lit ")"))))
             32%N (lit "5") (lit "77")).
    + split; reflexivity.
    + repeat split; done.
    + by left.
    + by left.
    + split; [reflexivity|]. left. by left.
  - apply (proj1 (proj2 (skeleton_literals_normalized no_tables
                           (lit "f(5, ") (lit ")")))
             (lit "a") (lit "b")).
    + split; reflexivity.
    + apply (bool_decide_unpack _). by vm_compute.
    + apply (bool_decide_unpack _). by vm_compute.
    + apply (bool_decide_unpack _). by vm_compute.
    + apply (bool_decide_unpack _). by vm_compute.
  - apply (proj1 (proj2 (proj2 (skeleton_literals_normalized no_tables
                                  (lit "x =") [])))
             32%N (lit "3.14") (lit "2.5")).
    + split; reflexivity.
    + repeat split; done.
    + by right.
    + by right.
    + split; [exact I|]. left. by right.
  - apply (proj1 (proj2 (proj2 (skeleton_literals_normalized no_tables
                                  (lit "x =") [])))
             32%N (lit "5") (lit "3.14")).
    + split; reflexivity.
    + repeat split; done.
    + by left.
    + by right.
    + split; [exact I|]. by right.
Defined.

(** Two fragments that differ only in the contents of a string literal, the
    first holding an escaped quote (an assignment of the literal with the
    characters a, backslash, quote, b to x, against one of the literal ab),
    and two that differ only in a numeric literal, the first written with an
    exponent ([x = 1e5] against [x = 5]), have different skeletons. *)
Lemma skeleton_literals_not_all_normalized :
  _extract_skeleton no_tables
      (lit "x = " ++ [DQ] ++ lit "a\" ++ [DQ] ++ lit "b" ++ [DQ])
    ≠ _extract_skeleton no_tables (lit "x = " ++ dq "ab") ∧
  _extract_skeleton no_tables (lit "x = 1e5")
    ≠ _extract_skeleton no_tables (lit "x = 5").
Proof. apply escaped_quote_and_exponent. Qed.

End Toolification.


(** ** core/sandbox.py: file access *)

Module Sandbox.
Import Py Exc.

(** [s.split(sep)] for a one-character separator *)
Fixpoint split (sep : ascii) (s : string) : list string :=
  match s with
  | EmptyString => [""]
  | String c r =>
      if decide (c = sep) then "" :: split sep r
      else match split sep r with
           | h :: t => String c h :: t
           | [] => [String c ""]
           end
  end.

(** [sep.join(parts)] *)
Definition join (sep : string) (parts : list string) : string :=
  String.concat sep parts.

(** [s.startswith(p)] *)
Definition startswith (p s : string) : bool := String.prefix p s.

(** [parts[:-1]] *)
Definition but_last (parts : list string) : list string := removelast parts.

(** *** The container's file system

    What the container does with a path: components are read from the left,
    empty ones and [.] are skipped and [..] steps back to the parent (the root
    is its own parent), whether or not the directory it leaves exists.
    Symbolic links are not modelled.  A file system maps the resolved path of
    each file to its content; a directory that [mkdir -p] made is filed, with
    no content, under its resolved path followed by [/].  The root, the
    working directory [/workspace] the container is created with, and every
    directory above an entry exist without an entry of their own, unless a
    file stands there. *)
Definition walk (stack : list string) (comp : string) : list string :=
  if decide (comp = "" ∨ comp = ".") then stack
  else if decide (comp = "..") then removelast stack
  else stack ++ [comp].

Definition components (path : string) : list string :=
  foldl walk [] (split "/" path).

Definition resolve (path : string) : string :=
  "/" +:+ join "/" (components path).

(** The path names the confined root [/workspace] or a location under it. *)
Definition inside_root (path : string) : bool :=
  match components path with
  | "workspace" :: _ => true
  | _ => false
  end.

Definition FS := dict string.

Definition is_dir (fs : FS) (path : string) : bool :=
  negb (mem fs (resolve path))
  && (bool_decide (resolve path = "/") || bool_decide (resolve path = "/workspace")
      || existsb (String.prefix (resolve path +:+ "/")) (keys fs)).

(** The file system without what is under a directory. *)
Definition remove_tree (fs : FS) (path : string) : FS :=
  List.filter (λ entry, negb (String.prefix (resolve path +:+ "/") entry.1)) fs.

(** A file stands where the path or one of the directories on the way to it
    should be. *)
Definition blocked (fs : FS) (path : string) : bool :=
  let comps := components path in
  existsb (λ n, mem fs ("/" +:+ join "/" (take n comps)))
          (seq 1 (length comps)).

(** [exec_run(["mkdir", "-p", path])], whose exit status the caller does not
    look at: the directory is made, with those above it, unless it exists or
    a file is in the way. *)
Definition mkdir_p (fs : FS) (path : string) : FS :=
  if is_dir fs path || blocked fs path then fs
  else set (resolve path +:+ "/") "" fs.

(** A member of a tar archive: a regular file, or a directory. *)
Inductive member :=
| File (content : string)
| Directory.

(** [get_archive(path)]: the archive of what is at the path, when there is
    something.  For a directory its entry comes first; the members beneath
    it, which the caller does not look at, are left out. *)
Definition get_archive (fs : FS) (path : string) : option (list member) :=
  match get fs (resolve path) with
  | Some content => Some [File content]
  | None => if is_dir fs path then Some [Directory] else None
  end.

(** [put_archive(path=dest_dir, data=tar)] with a single member, a regular
    file named [filename].  The daemon answers with an error when [dest_dir]
    is no directory; otherwise the file [dest_dir/filename] is created, in
    the place of what was there: the call does not set the daemon's
    [noOverwriteDirNonDir], so a directory of that name goes, with what is
    under it.  The source builds the archive whatever the name is: a member
    named by the empty string or by [.] names the directory itself and is
    skipped; one named [..] is taken to be skipped as well. *)
Definition put_archive (fs : FS) (dest_dir filename content : string)
    : outcome () * FS :=
  if negb (is_dir fs dest_dir) then
    (Raise (APIError "extraction point is not a directory"), fs)
  else if decide (filename = "" ∨ filename = "." ∨ filename = "..") then
    (Ret (), fs)
  else
    let target := dest_dir +:+ "/" +:+ filename in
    (Ret (), set (resolve target) content (remove_tree fs target)).

(** *** SandboxManager

    [_containers] maps an agent to its container, here the container's file
    system; a container is created on first use from the base image. *)
Record SandboxManager := {
  base_image : FS;
  _containers : dict FS;
}.

Definition _get_container (agent_id : string) (m : SandboxManager)
    : FS * SandboxManager :=
  match get (_containers m) agent_id with
  | Some fs => (fs, m)
  | None =>
      (base_image m,
       {| base_image := base_image m;
          _containers := set agent_id (base_image m) (_containers m) |})
  end.

Definition put_container (agent_id : string) (fs : FS) (m : SandboxManager)
    : SandboxManager :=
  {| base_image := base_image m;
     _containers := set agent_id fs (_containers m) |}.

(** The two lines that open [read_file] and [write_file]. *)
Definition confine (path : string) : string :=
  if startswith "/" path then path else "/workspace/" +:+ path.

Definition permitted (path : string) : bool :=
  startswith "/workspace" (confine path).

(** [SandboxManager.read_file] *)
Definition read_file (agent_id path : string) (m : SandboxManager)
    : outcome string * SandboxManager :=
  let '(container, m) := _get_container agent_id m in
  let path := confine path in
  if negb (startswith "/workspace" path) then
    (Raise (PermissionError "Can only read files within /workspace"), m)
  else
    match get_archive container path with
    | Some [] => (Raise (FileNotFoundError ("No file at " +:+ path)), m)
    | Some (File content :: _) => (Ret content, m)
    | Some (Directory :: _) =>
        (Raise (FileNotFoundError
                  ("Cannot read " +:+ path +:+ " (is it a directory?)")), m)
    | None => (Raise (FileNotFoundError ("File not found: " +:+ path)), m)
    end.

(** [SandboxManager._write_to_container] *)
Definition _write_to_container (container : FS) (dest_path content : string)
    : outcome () * FS :=
  let parts := split "/" dest_path in
  let filename := List.last parts "" in
  let dest_dir := join "/" (but_last parts) in
  let dest_dir := if decide (dest_dir = "") then "/" else dest_dir in
  put_archive container dest_dir filename content.

(** [SandboxManager.write_file] *)
Definition write_file (agent_id path content : string) (m : SandboxManager)
    : outcome () * SandboxManager :=
  let '(container, m) := _get_container agent_id m in
  let path := confine path in
  if negb (startswith "/workspace" path) then
    (Raise (PermissionError "Can only write files within /workspace"), m)
  else
    let parent_dir := join "/" (but_last (split "/" path)) in
    let container := mkdir_p container parent_dir in
    let '(res, container) := _write_to_container container path content in
    (res, put_container agent_id container m).

(** The name [write_file] gives the archive member: what follows the last
    [/] of the path.  It names a file unless it is empty, [.] or [..]. *)
Definition file_name (path : string) : string :=
  List.last (split "/" (confine path)) "".

Definition names_file (path : string) : Prop :=
  file_name path ≠ "" ∧ file_name path ≠ "." ∧ file_name path ≠ "..".

(** *** A container from an image that holds [/etc/passwd] *)

Definition example_manager : SandboxManager :=
  {| base_image := [("/etc/passwd", "root:x:0:0:root:/root:/bin/sh")];
     _containers := [] |}.

(** C1.  The check is on the text of the path, not on where it resolves:
    - [../etc/passwd] becomes [/workspace/../etc/passwd], passes the check and
      reads [/etc/passwd], outside the root;
    - a write to [../escape.txt] passes too, creates [/escape.txt], and is
      read back through the same path;
    - [/workspace-other/x] passes the check although it is outside the root;
    - [/tmp/../workspace/notes.txt] resolves inside the root and is rejected
      with a permission error. *)
Theorem file_access_escapes_root :
  let m := example_manager in
  inside_root (confine "../etc/passwd") = false ∧
  (read_file "agent-1" "../etc/passwd" m).1 = Ret "root:x:0:0:root:/root:/bin/sh" ∧
  (let m1 := (write_file "agent-1" "../escape.txt" "data" m).2 in
   (write_file "agent-1" "../escape.txt" "data" m).1 = Ret () ∧
   inside_root (confine "../escape.txt") = false ∧
   get (_containers m1) "agent-1"
     = Some [("/etc/passwd", "root:x:0:0:root:/root:/bin/sh");
             ("/escape.txt", "data")] ∧
   (read_file "agent-1" "../escape.txt" m1).1 = Ret "data") ∧
  inside_root "/workspace-other/x" = false ∧
  permitted "/workspace-other/x" = true ∧
  inside_root "/tmp/../workspace/notes.txt" = true ∧
  (∃ msg, (read_file "agent-1" "/tmp/../workspace/notes.txt" m).1
            = Raise (PermissionError msg)).
Proof. repeat split; try reflexivity. by eexists. Qed.

(** *** Paths taken apart and put together *)

Lemma split_nonempty sep s : ∃ h t, split sep s = h :: t.
Proof.
  destruct s as [|c r]; simpl; [by eexists _, _|].
  destruct (decide (c = sep)); [by eexists _, _|].
  destruct (split sep r); by eexists _, _.
Qed.

Lemma split_app sep a b :
  split sep (a +:+ String sep b) = split sep a ++ split sep b.
Proof.
  induction a as [|c a IH]; simpl.
  - by rewrite decide_True.
  - destruct (decide (c = sep)); [by rewrite IH|].
    rewrite IH. by destruct (split_nonempty sep a) as (h & t & ->).
Qed.

Lemma append_assoc (a b c : string) : (a +:+ b) +:+ c = a +:+ b +:+ c.
Proof.
  induction a as [|x a IH]; [done|].
  change (String x ((a +:+ b) +:+ c) = String x (a +:+ b +:+ c)). by rewrite IH.
Qed.

Lemma join_cons sep h h' t :
  join sep (h :: h' :: t) = h +:+ sep +:+ join sep (h' :: t).
Proof. done. Qed.

Lemma join_split sep s : join (String sep "") (split sep s) = s.
Proof.
  induction s as [|c r IH]; simpl; [done|].
  destruct (split_nonempty sep r) as (h & t & E). rewrite E in *.
  destruct (decide (c = sep)) as [->|_].
  - rewrite join_cons, IH. done.
  - rewrite <- IH. by destruct t.
Qed.

Lemma join_snoc sep init f :
  init ≠ [] → join sep (init ++ [f]) = join sep init +:+ sep +:+ f.
Proof.
  induction init as [|h init IH]; [done|]. intros _.
  destruct init as [|h' init]; [done|].
  change ((h :: h' :: init) ++ [f]) with (h :: (h' :: init) ++ [f]).
  change ((h' :: init) ++ [f]) with (h' :: init ++ [f]) at 1.
  rewrite join_cons. change (h' :: init ++ [f]) with ((h' :: init) ++ [f]).
  rewrite IH by done. rewrite join_cons.
  by rewrite !append_assoc.
Qed.

(** The directory and the member name [_write_to_container] hands to
    [put_archive] name the file the path names. *)
Lemma write_target path :
  let parts := split "/" path in
  let dest_dir := join "/" (but_last parts) in
  let dest_dir := if decide (dest_dir = "") then "/" else dest_dir in
  resolve (dest_dir +:+ "/" +:+ List.last parts "") = resolve path.
Proof.
  intros parts dest_dir0 dest_dir. unfold resolve. f_equal. f_equal.
  assert (parts ≠ []) as Hne
    by (subst parts; by destruct (split_nonempty "/" path) as (h & t & ->)).
  pose proof (join_split "/" path) as Hpath. fold parts in Hpath.
  rewrite (app_removelast_last "" Hne) in Hpath. fold (but_last parts) in Hpath.
  set (f := List.last parts "") in *. clearbody f parts.
  destruct (decide (but_last parts = [])) as [E|E].
  - subst dest_dir dest_dir0. rewrite E in *. simpl in Hpath. subst path.
    done.
  - rewrite join_snoc in Hpath by done. fold dest_dir0 in Hpath.
    subst dest_dir. destruct (decide (dest_dir0 = "")) as [E0|E0].
    + rewrite E0 in Hpath. by rewrite <- Hpath.
    + by rewrite Hpath.
Qed.

Lemma get_container_again agent_id fs (m : SandboxManager) :
  _get_container agent_id (put_container agent_id fs m)
    = (fs, put_container agent_id fs m).
Proof. unfold _get_container, put_container. simpl. by rewrite get_set_eq. Qed.

(** X1.  A write that succeeds is read back: after [write_file] has returned
    for a path that names a file, [read_file] of the same path by the same
    agent returns the content written, whatever the container held. *)
Theorem write_then_read agent_id path content (m : SandboxManager) :
  (write_file agent_id path content m).1 = Ret () → names_file path →
  let m' := (write_file agent_id path content m).2 in
  read_file agent_id path m' = (Ret content, m').
Proof.
  unfold names_file, file_name, write_file, read_file.
  destruct (_get_container agent_id m) as [container m1].
  destruct (negb (startswith "/workspace" (confine path))) eqn:Hp; [done|].
  unfold _write_to_container, put_archive.
  destruct (negb (is_dir _ _)); [done|].
  destruct (decide _) as [Hodd|_]; [intros _ (? & ? & ?); by destruct Hodd as [?|[?|?]]|].
  simpl. intros _ _.
  rewrite get_container_again. unfold get_archive.
  by rewrite write_target, get_set_eq.
Qed.

(** The call was refused with a [PermissionError]. *)
Definition refused {A} (o : outcome A) : Prop :=
  ∃ msg, o = Raise (PermissionError msg).

(** X2.  [read_file] and [write_file] raise [PermissionError] exactly when
    the path, after a relative one has been prefixed, does not begin with the
    text [/workspace]; a refused write leaves the files of every container
    as they were. *)
Theorem refused_by_prefix agent_id path content (m : SandboxManager) :
  (refused (read_file agent_id path m).1 ↔ permitted path = false) ∧
  (refused (write_file agent_id path content m).1 ↔ permitted path = false) ∧
  (permitted path = false →
   ∀ a fs, get (_containers m) a = Some fs →
           get (_containers (write_file agent_id path content m).2) a = Some fs).
Proof.
  unfold read_file, write_file, permitted, refused.
  destruct (_get_container agent_id m) as [container m1] eqn:Hc.
  destruct (startswith "/workspace" (confine path)) eqn:Hp; simpl.
  - split; [|split]; [| |done].
    + split; [|done]. intros [msg H].
      by destruct (get_archive _ _) as [[|[c|] ?]|].
    + split; [|done]. intros [msg H].
      unfold _write_to_container, put_archive in H.
      destruct (negb (is_dir _ _)); [done|].
      by destruct (decide _).
  - split; [|split]; [split; [done|by eexists]..|].
    intros _ a fs Ha. unfold _get_container in Hc.
    destruct (get (_containers m) agent_id) as [fs0|] eqn:E.
    + by injection Hc as <- <-.
    + injection Hc as <- <-. simpl. rewrite get_set_ne; [done|]. by intros ->; congruence.
Qed.

Lemma walk_keeps st l :
  ".." ∉ l → ∃ t, foldl walk st l = st ++ t.
Proof.
  revert st. induction l as [|c l IH]; intros st Hl; simpl.
  - exists []. by rewrite app_nil_r.
  - apply not_elem_of_cons in Hl as [Hc Hl]. unfold walk at 2.
    destruct (decide (c = "" ∨ c = ".")); [by apply IH|].
    rewrite decide_False by done.
    destruct (IH (st ++ [c]) Hl) as [t ->]. exists (c :: t).
    by rewrite <- app_assoc.
Qed.

(** X3.  A relative path with no [..] among its components is never
    refused and names a location under the confined root. *)
Theorem relative_path_confined path :
  startswith "/" path = false → ".." ∉ split "/" path →
  permitted path = true ∧ inside_root (confine path) = true ∧
  ∃ rest, components (confine path) = "workspace" :: rest.
Proof.
  intros Hrel Hdots. unfold permitted, confine. rewrite Hrel.
  split; [done|].
  assert (∃ rest, components ("/workspace/" +:+ path) = "workspace" :: rest)
    as [rest Hrest].
  { unfold components.
    change ("/workspace/" +:+ path) with ("/workspace" +:+ String "/" path).
    rewrite split_app.
    change (split "/" "/workspace") with ["" ; "workspace"].
    change (foldl walk [] (["" ; "workspace"] ++ split "/" path))
      with (foldl walk ["workspace"] (split "/" path)).
    destruct (walk_keeps ["workspace"] _ Hdots) as [t ->]. by exists t. }
  split; [|by exists rest]. unfold inside_root. by rewrite Hrest.
Qed.

Lemma write_then_read_witness :
  (write_file "agent-1" "notes/a.txt" "hello" example_manager).1 = Ret () ∧
  file_name "notes/a.txt" = "a.txt" ∧
  (read_file "agent-1" "notes/a.txt"
     (write_file "agent-1" "notes/a.txt" "hello" example_manager).2).1
    = Ret "hello".
Proof.
  split; [reflexivity|]. split; [reflexivity|].
  rewrite (write_then_read "agent-1" "notes/a.txt" "hello" example_manager eq_refl);
    [done|].
  repeat split; discriminate.
Defined.

(** A path that ends in [/] names no file: the write returns, having made
    the directory, and the read finds a directory. *)
Lemma write_directory_path :
  let m := (write_file "agent-1" "notes/" "hello" example_manager).2 in
  (write_file "agent-1" "notes/" "hello" example_manager).1 = Ret () ∧
  (read_file "agent-1" "notes/" m).1
    = Raise (FileNotFoundError "Cannot read /workspace/notes/ (is it a directory?)").
Proof. split; reflexivity. Qed.

Lemma relative_path_confined_witness :
  permitted "notes/a.txt" = true ∧ inside_root (confine "notes/a.txt") = true ∧
  ∃ rest, components (confine "notes/a.txt") = "workspace" :: rest.
Proof.
  apply relative_path_confined; [reflexivity|].
  apply (bool_decide_unpack _). by vm_compute.
Defined.

End Sandbox.

(** ** core/agent.py, core/civilization.py, tools/builtin.py *)

Module Civ.
Import Py Exc.

Definition nl : string := String "010"%char "".

(** *** Messages *)

(** A content block of a model response. *)
Inductive Block :=
| TextBlock (text : string)
| ToolUseBlock (id name : string) (input : Input).

(** The [tool_result] block [_execute_tool] returns. *)
Record ToolResult := {
  tool_use_id : string;
  result_content : string;
  is_error : bool;
}.

(** The content of a conversation turn. *)
Inductive Content :=
| Text (s : string)
| Blocks (bs : list Block)
| Results (rs : list ToolResult).

Abbreviation Turn := (Memory.Turn Content).
Abbreviation AgentMemory := (Memory.AgentMemory Content).

(** The reply of the inference gateway: content, stop reason, token usage. *)
Record Response := {
  content : list Block;
  stop_reason : string;
  input_tokens : Z;
  output_tokens : Z;
}.

(** *** Agents *)

Inductive AgentStatus :=
| IDLE | THINKING | EXECUTING_TOOL | WAITING_FOR_SUBAGENT | ERROR.

Record AgentState := {
  id : string;
  name : string;
  role : string;
  system_prompt_base : string;
  status : AgentStatus;
  created_by : option string;
  depth : Z;
  tool_ids : list string;
  memory : AgentMemory;
  total_api_calls : Z;
  total_tokens_used : Z;
  total_tools_created : Z;
  total_agents_created : Z;
}.

Record Agent := {
  state : AgentState;
  _delegation_chain : list string;
}.

Record Alliance := {
  alliance_id : string;
  alliance_name : string;
  purpose : string;
  agent_ids : list string;
  shared_context : string;
  alliance_created_by : string;
}.

(** The settings of [AIvilizationConfig] the engine reads. *)
Record Config := {
  max_agent_depth : Z;
  max_agents : Z;
  max_loop_iterations : Z;
}.

Record CivilizationEvent := {
  event_type : string;
  data : dict string;
}.

(** [Civilization], with the fields of its [CivilizationState] that the
    engine maintains.  Agents are objects owned by [_agents] and are referred
    to by their key.  [uuid_calls] and [api_calls] count the identifiers
    drawn from [uuid4] and the calls made to the inference gateway. *)
Record Civilization := {
  config : Config;
  civ_id : string;
  civ_name : string;
  _agents : dict Agent;
  primary_agent_id : option string;
  creation_graph : dict (list string);
  _alliances : dict Alliance;
  tool_registry : Registry.ToolRegistry;
  events : list CivilizationEvent;
  uuid_calls : nat;
  api_calls : nat;
}.

(** **** Field updates *)

Definition set_agents (f : dict Agent → dict Agent) (w : Civilization) : Civilization :=
  {| config := config w; civ_id := civ_id w; civ_name := civ_name w; _agents := f (_agents w);
     primary_agent_id := primary_agent_id w; creation_graph := creation_graph w;
     _alliances := _alliances w; tool_registry := tool_registry w;
     events := events w; uuid_calls := uuid_calls w; api_calls := api_calls w |}.

Definition set_registry (r : Registry.ToolRegistry) (w : Civilization) : Civilization :=
  {| config := config w; civ_id := civ_id w; civ_name := civ_name w; _agents := _agents w;
     primary_agent_id := primary_agent_id w; creation_graph := creation_graph w;
     _alliances := _alliances w; tool_registry := r;
     events := events w; uuid_calls := uuid_calls w; api_calls := api_calls w |}.

Definition set_state (f : AgentState → AgentState) (a : Agent) : Agent :=
  {| state := f (state a); _delegation_chain := _delegation_chain a |}.

Definition set_chain (chain : list string) (a : Agent) : Agent :=
  {| state := state a; _delegation_chain := chain |}.

(** Apply [f] to the agent object stored under [aid]. *)
Definition update_agent (aid : string) (f : Agent → Agent) (w : Civilization)
    : Civilization :=
  match get (_agents w) aid with
  | Some a => set_agents (set aid (f a)) w
  | None => w
  end.

Definition set_status (st : AgentStatus) (s : AgentState) : AgentState :=
  {| id := id s; name := name s; role := role s;
     system_prompt_base := system_prompt_base s; status := st;
     created_by := created_by s; depth := depth s; tool_ids := tool_ids s;
     memory := memory s; total_api_calls := total_api_calls s;
     total_tokens_used := total_tokens_used s;
     total_tools_created := total_tools_created s;
     total_agents_created := total_agents_created s |}.

Definition set_memory (f : AgentMemory → AgentMemory) (s : AgentState) : AgentState :=
  {| id := id s; name := name s; role := role s;
     system_prompt_base := system_prompt_base s; status := status s;
     created_by := created_by s; depth := depth s; tool_ids := tool_ids s;
     memory := f (memory s); total_api_calls := total_api_calls s;
     total_tokens_used := total_tokens_used s;
     total_tools_created := total_tools_created s;
     total_agents_created := total_agents_created s |}.

Definition set_tool_ids (f : list string → list string) (s : AgentState) : AgentState :=
  {| id := id s; name := name s; role := role s;
     system_prompt_base := system_prompt_base s; status := status s;
     created_by := created_by s; depth := depth s; tool_ids := f (tool_ids s);
     memory := memory s; total_api_calls := total_api_calls s;
     total_tokens_used := total_tokens_used s;
     total_tools_created := total_tools_created s;
     total_agents_created := total_agents_created s |}.

(** [total_api_calls += 1; total_tokens_used += tokens] *)
Definition count_api_call (tokens : Z) (s : AgentState) : AgentState :=
  {| id := id s; name := name s; role := role s;
     system_prompt_base := system_prompt_base s; status := status s;
     created_by := created_by s; depth := depth s; tool_ids := tool_ids s;
     memory := memory s; total_api_calls := total_api_calls s + 1;
     total_tokens_used := total_tokens_used s + tokens;
     total_tools_created := total_tools_created s;
     total_agents_created := total_agents_created s |}.

(** [total_tools_created += 1] and [total_agents_created += 1] *)
Definition count_tool_created (s : AgentState) : AgentState :=
  {| id := id s; name := name s; role := role s;
     system_prompt_base := system_prompt_base s; status := status s;
     created_by := created_by s; depth := depth s; tool_ids := tool_ids s;
     memory := memory s; total_api_calls := total_api_calls s;
     total_tokens_used := total_tokens_used s;
     total_tools_created := total_tools_created s + 1;
     total_agents_created := total_agents_created s |}.

Definition count_agent_created (s : AgentState) : AgentState :=
  {| id := id s; name := name s; role := role s;
     system_prompt_base := system_prompt_base s; status := status s;
     created_by := created_by s; depth := depth s; tool_ids := tool_ids s;
     memory := memory s; total_api_calls := total_api_calls s;
     total_tokens_used := total_tokens_used s;
     total_tools_created := total_tools_created s;
     total_agents_created := total_agents_created s + 1 |}.

(** [EventBus.emit] with the default [max_history] and no subscriber. *)
Definition emit (ty : string) (d : dict string) (w : Civilization) : Civilization :=
  let h := events w ++ [{| event_type := ty; data := d |}] in
  let h := if (1000 <? length h)%nat then slice_from (- 1000) h else h in
  {| config := config w; civ_id := civ_id w; civ_name := civ_name w; _agents := _agents w;
     primary_agent_id := primary_agent_id w; creation_graph := creation_graph w;
     _alliances := _alliances w; tool_registry := tool_registry w;
     events := h; uuid_calls := uuid_calls w; api_calls := api_calls w |}.

(** *** Running the engine

    A call ends with a value, with an exception, or the model stops ([Halt]):
    the recursion of nested decision loops went deeper than the model was
    given, or a call was made on an agent that [_agents] does not hold (no
    such call exists in the program, where an agent object is in hand). *)
Inductive res (A : Type) :=
| Ok (a : A)
| Exn (e : exc)
| Halt.
Arguments Ok {A} a.
Arguments Exn {A} e.
Arguments Halt {A}.

Definition M (A : Type) : Type := Civilization → res A * Civilization.

Definition ret {A} (a : A) : M A := λ w, (Ok a, w).
Definition raise {A} (e : exc) : M A := λ w, (Exn e, w).
Definition bind {A B} (m : M A) (k : A → M B) : M B :=
  λ w, match m w with
       | (Ok a, w') => k a w'
       | (Exn e, w') => (Exn e, w')
       | (Halt, w') => (Halt, w')
       end.

Notation "x <- m ;; k" := (bind m (λ x, k))
  (at level 100, m at next level, right associativity).
Notation "m ;;; k" := (bind m (λ _, k))
  (at level 100, right associativity).

Definition modify (f : Civilization → Civilization) : M () := λ w, (Ok (), f w).
Definition read {A} (f : Civilization → A) : M A := λ w, (Ok (f w), w).
Definition lift {A} (o : outcome A) : M A :=
  match o with Ret a => ret a | Raise e => raise e end.

(** [input[key]] *)
Definition item (input : Input) (key : string) : M string :=
  match get input key with
  | Some v => ret v
  | None => raise (KeyError key)
  end.

(** The agent object stored under [aid]. *)
Definition the_agent (aid : string) : M Agent :=
  λ w, match get (_agents w) aid with
       | Some a => (Ok a, w)
       | None => (Halt, w)
       end.

(** [try: m except Exception as e: h(e)] *)
Definition try_except {A} (m : M A) (h : exc → M A) : M A :=
  λ w, match m w with
       | (Exn e, w') => h e w'
       | r => r
       end.

(** [try: m finally: f] *)
Definition try_finally {A} (m : M A) (f : Civilization → Civilization) : M A :=
  λ w, let '(r, w') := m w in (r, f w').

(** Truth value of a string. *)
Definition nonempty (s : string) : bool := negb (String.eqb s "").

Section Engine.

(** The collaborators of the engine:
    - [uuid4 n] is the [n]-th identifier the process draws;
    - [claude n messages] is the reply of the inference gateway to the [n]-th
      call of [create_message], which may raise (budget, network); the system
      prompt and the tool list it is given are not modelled;
    - [other_handler] stands for the handlers whose work is outside the
      orchestration core ([sandbox], [evolve], [query_civilization],
      [form_alliance] and the handlers of custom tools, which run in the
      sandbox): any result and any effect on the civilization. *)
Variable uuid4 : nat → string.
Variable claude : nat → list Turn → outcome Response.
Variable other_handler :
  Registry.Handler → string → Input → Civilization → outcome string * Civilization.

Definition fresh_uuid : M string :=
  λ w, (Ok (uuid4 (uuid_calls w)),
        {| config := config w; civ_id := civ_id w; civ_name := civ_name w; _agents := _agents w;
           primary_agent_id := primary_agent_id w;
           creation_graph := creation_graph w; _alliances := _alliances w;
           tool_registry := tool_registry w; events := events w;
           uuid_calls := S (uuid_calls w); api_calls := api_calls w |}).

(** [Civilization.__init__]: the registry draws the ids of the ten built-in
    tools, then the state draws the id of the civilization. *)
Definition new_civilization (cfg : Config) (nm : string) : Civilization :=
  {| config := cfg; civ_id := uuid4 10; civ_name := nm; _agents := [];
     primary_agent_id := None; creation_graph := []; _alliances := [];
     tool_registry := Registry.new_registry uuid4; events := [];
     uuid_calls := 11; api_calls := 0 |}.

(** **** Civilization.create_agent *)

Definition new_agent_state (aid nm rl prompt : string) (creator : option string)
    (d : Z) : AgentState :=
  {| id := aid; name := nm; role := rl; system_prompt_base := prompt;
     status := IDLE; created_by := creator; depth := d; tool_ids := [];
     memory := Memory.empty_memory 50;
     total_api_calls := 0; total_tokens_used := 0;
     total_tools_created := 0; total_agents_created := 0 |}.

Definition add_agent (aid : string) (a : Agent) (creator : option string)
    (w : Civilization) : Civilization :=
  {| config := config w; civ_id := civ_id w; civ_name := civ_name w;
     _agents := set aid a (_agents w);
     primary_agent_id :=
       match primary_agent_id w with None => Some aid | Some p => Some p end;
     creation_graph :=
       match creator with
       | Some c =>
           if nonempty c
           then set c (default [] (get (creation_graph w) c) ++ [aid]) (creation_graph w)
           else creation_graph w
       | None => creation_graph w
       end;
     _alliances := _alliances w; tool_registry := tool_registry w;
     events := events w; uuid_calls := uuid_calls w; api_calls := api_calls w |}.

(** The result is the new agent, by its id. *)
Definition create_agent (nm rl prompt : string) (creator : option string)
    (d : Z) : M string :=
  aid <- fresh_uuid ;;
  modify (add_agent aid
            {| state := new_agent_state aid nm rl prompt creator d;
               _delegation_chain := [] |} creator) ;;;
  modify (emit "agent_created"
            [("agent_id", aid); ("name", nm); ("role", rl);
             ("created_by", default "None" creator)]) ;;;
  ret aid.

(** **** tools/builtin.py: create_agent *)

Definition execute_create_agent (agent : string) (input : Input) : M string :=
  a <- the_agent agent ;;
  civ <- read (λ w, w) ;;
  if Z.of_nat (length (_agents civ)) >=? max_agents (config civ) then
    ret ("Error: civilization has reached the maximum of "
         +:+ pretty (max_agents (config civ)) +:+ " agents.")
  else if depth (state a) >=? max_agent_depth (config civ) then
    ret ("Error: maximum agent nesting depth ("
         +:+ pretty (max_agent_depth (config civ)) +:+ ") reached.")
  else
    nm <- item input "name" ;;
    rl <- item input "role" ;;
    prompt <- item input "system_prompt" ;;
    new_agent <- create_agent nm rl prompt (Some (id (state a)))
                   (depth (state a) + 1) ;;
    modify (update_agent agent (set_state count_agent_created)) ;;;
    ret ("Successfully created agent '" +:+ nm +:+ "' (id: " +:+ new_agent
         +:+ "). You can now delegate tasks to it using delegate_task.").

(** The agents of a civilization respect the configured depth. *)
Definition depth_bounded (w : Civilization) : Prop :=
  ∀ k b, get (_agents w) k = Some b → depth (state b) ≤ max_agent_depth (config w).

Lemma get_update_agent k f w k' :
  get (_agents (update_agent k f w)) k'
    = if decide (k = k') then f <$> get (_agents w) k else get (_agents w) k'.
Proof.
  unfold update_agent. destruct (get (_agents w) k) as [a|] eqn:E; simpl.
  - rewrite get_set. by destruct (decide (k = k')).
  - destruct (decide (k = k')) as [<-|]; [by rewrite E|done].
Qed.

(** C7.  An agent made by the [create_agent] tool has its creator's depth
    plus one and names its creator; a creator at the configured maximum gets
    an error and the civilization stays as it was; and the tool keeps every
    agent of the civilization within the maximum. *)
Theorem create_agent_tool_depth (w : Civilization) agent a input :
  get (_agents w) agent = Some a →
  let res := execute_create_agent agent input w in
  (* beyond the maximum: an error, nothing created *)
  (depth (state a) >= max_agent_depth (config w) →
     ∃ msg, res = (Ok ("Error: " +:+ msg), w)) ∧
  (* within the limits: the new agent, one level below its creator *)
  (Z.of_nat (length (_agents w)) < max_agents (config w) →
   depth (state a) < max_agent_depth (config w) →
   is_Some (get input "name") → is_Some (get input "role") →
   is_Some (get input "system_prompt") →
     ∃ msg new,
       res.1 = Ok msg ∧
       get (_agents res.2) (uuid4 (uuid_calls w)) = Some new ∧
       depth (state new) = depth (state a) + 1 ∧
       created_by (state new) = Some (id (state a))) ∧
  (* in every case: an agent of the result is an agent of before or the new
     one, and the bound on depths is kept *)
  (∀ k b, get (_agents res.2) k = Some b →
     (∃ b0, get (_agents w) k = Some b0 ∧ depth (state b) = depth (state b0)) ∨
     (depth (state b) = depth (state a) + 1 ∧
      depth (state a) < max_agent_depth (config w))) ∧
  (depth_bounded w → depth_bounded res.2).
Proof.
  intros Ha res.
  assert (∀ k b, get (_agents res.2) k = Some b →
     (∃ b0, get (_agents w) k = Some b0 ∧ depth (state b) = depth (state b0)) ∨
     (depth (state b) = depth (state a) + 1 ∧
      depth (state a) < max_agent_depth (config w))) as Hagents.
  { subst res. unfold execute_create_agent, bind, the_agent, read. rewrite Ha.
    destruct (Z.geb_spec (Z.of_nat (length (_agents w))) (max_agents (config w)));
      [intros k b Hk; left; by eexists|].
    destruct (Z.geb_spec (depth (state a)) (max_agent_depth (config w)));
      [intros k b Hk; left; by eexists|].
    unfold item, ret, raise.
    destruct (get input "name") as [nm|]; [|intros k b Hk; left; by eexists].
    destruct (get input "role") as [rl|]; [|intros k b Hk; left; by eexists].
    destruct (get input "system_prompt") as [pr|]; [|intros k b Hk; left; by eexists].
    cbn -[update_agent]. intros k b. rewrite get_update_agent. cbn.
    rewrite !get_set.
    destruct (decide (agent = k)) as [<-|Hk].
    - destruct (decide (uuid4 (uuid_calls w) = agent)) as [_|_]; cbn.
      + intros [= <-]. right. cbn. split; [done|lia].
      + rewrite Ha. cbn. intros [= <-]. left. by eexists.
    - destruct (decide (uuid4 (uuid_calls w) = k)) as [_|_].
      + intros [= <-]. right. cbn. split; [done|lia].
      + intros Hb. left. by eexists. }
  split; [|split; [|split]].
  - intros Hd. subst res. unfold execute_create_agent, bind, the_agent, read.
    rewrite Ha.
    destruct (Z.geb_spec (Z.of_nat (length (_agents w))) (max_agents (config w)));
      [by eexists|].
    destruct (Z.geb_spec (depth (state a)) (max_agent_depth (config w)));
      [by eexists|lia].
  - intros Hn Hd [nm Hnm] [rl Hrl] [pr Hpr]. subst res.
    unfold execute_create_agent, bind, the_agent, read. rewrite Ha.
    destruct (Z.geb_spec (Z.of_nat (length (_agents w))) (max_agents (config w)));
      [lia|].
    destruct (Z.geb_spec (depth (state a)) (max_agent_depth (config w))); [lia|].
    unfold item, ret. rewrite Hnm, Hrl, Hpr.
    cbn -[update_agent]. rewrite get_update_agent. cbn. rewrite !get_set_eq.
    destruct (decide (agent = uuid4 (uuid_calls w))) as [->|_].
    + rewrite get_set_eq. cbn. by eexists _, _.
    + by eexists _, _.
  - done.
  - intros Hb k b Hk.
    assert (config res.2 = config w) as ->.
    { subst res. unfold execute_create_agent, bind, the_agent, read. rewrite Ha.
      repeat match goal with
             | |- context [if ?c then _ else _] => destruct c
             end; try done.
      unfold item, ret, raise.
      repeat match goal with
             | |- context [match get input ?x with _ => _ end] =>
                 destruct (get input x)
             end; try done.
      cbn -[update_agent]. unfold update_agent. cbn.
      by destruct (get (set _ _ _) agent). }
    destruct (Hagents k b Hk) as [(b0 & Hb0 & ->)|[-> Hlt]].
    + by eapply Hb.
    + lia.
Qed.

(** **** Registry calls *)

Definition of_outcome {A} (o : outcome A) : res A :=
  match o with Ret a => Ok a | Raise e => Exn e end.

Definition registry_call {A}
    (f : Registry.ToolRegistry → outcome A * Registry.ToolRegistry) : M A :=
  λ w, let '(o, r) := f (tool_registry w) in (of_outcome o, set_registry r w).

(** The object behind a reference the registry returned. *)
Definition tool_object (l : Registry.ref) : M Registry.ToolDefinition :=
  λ w, match Registry.objs (tool_registry w) !! l with
       | Some t => (Ok t, w)
       | None => (Halt, w)
       end.

(** [except (ValueError, PermissionError) as e: return f"Error: {e}"] *)
Definition error_text (e : exc) : M string :=
  match e with
  | ValueError m | PermissionError m => ret ("Error: " +:+ m)
  | _ => raise e
  end.

(** **** tools/builtin.py: create_tool, edit_tool, delete_tool *)

Definition execute_create_tool (agent : string) (input : Input) : M string :=
  a <- the_agent agent ;;
  let scope := if String.eqb (default "shared" (get input "scope")) "shared"
               then Registry.SHARED else Registry.PRIVATE in
  nm <- item input "name" ;;
  descr <- item input "description" ;;
  params <- item input "parameters" ;;
  impl <- item input "implementation" ;;
  tid <- fresh_uuid ;;
  let tool_def :=
    {| Registry.id := tid; Registry.name := nm; Registry.description := descr;
       Registry.input_schema := params; Registry.scope := scope;
       Registry.created_by_agent_id := Some (id (state a));
       Registry.source_code := Some impl;
       Registry.version := 1; Registry.usage_count := 0 |} in
  try_except
    (registry_call (Registry.register tool_def) ;;;
     modify (update_agent agent
               (set_state (λ s, count_tool_created (set_tool_ids (λ l, l ++ [tid]) s)))) ;;;
     ret ("Tool '" +:+ nm +:+ "' created successfully (id: " +:+ tid +:+ "). Scope: "
          +:+ (if decide (scope = Registry.SHARED)
               then "shared with all agents" else "private to you")
          +:+ ". It is now available for use."))
    (λ e, match e with
          | ValueError m => ret ("Error creating tool: " +:+ m)
          | _ => raise e
          end).

Definition edit_updates (input : Input) : Registry.Updates :=
  {| Registry.u_id := None;
     Registry.u_name := get input "name";
     Registry.u_description := get input "description";
     Registry.u_input_schema := get input "parameters";
     Registry.u_scope := None;
     Registry.u_created_by_agent_id := None;
     Registry.u_source_code := Some <$> get input "implementation";
     Registry.u_version := None;
     Registry.u_usage_count := None |}.

Definition execute_edit_tool (agent : string) (input : Input) : M string :=
  a <- the_agent agent ;;
  tool_id <- item input "tool_id" ;;
  let updates := edit_updates input in
  if decide (updates = Registry.no_updates) then ret "No changes specified."
  else
    try_except
      (l <- registry_call (Registry.update tool_id updates (id (state a))) ;;
       updated <- tool_object l ;;
       ret ("Tool '" +:+ Registry.name updated +:+ "' updated to version "
            +:+ pretty (Registry.version updated) +:+ "."))
      error_text.

(** [list.remove(x)]: the first occurrence goes. *)
Fixpoint remove_first (x : string) (l : list string) : list string :=
  match l with
  | [] => []
  | y :: l' => if decide (y = x) then l' else y :: remove_first x l'
  end.

Definition execute_delete_tool (agent : string) (input : Input) : M string :=
  a <- the_agent agent ;;
  tool_id <- item input "tool_id" ;;
  try_except
    (nm <- registry_call (Registry.delete tool_id (id (state a))) ;;
     modify (update_agent agent (set_state (set_tool_ids (remove_first tool_id)))) ;;;
     ret ("Tool '" +:+ nm +:+ "' has been deleted."))
    error_text.

(** **** The decision loop and the tools that enter it *)

Section Knot.

(** [Agent.process_message] of the agent stored under a key, for the nested
    calls of [delegate_task] and [broadcast]. *)
Variable process_message_rec : string → string → M string.

(** The name of an agent object: as stored now, or as it was read. *)
Definition name_now (aid : string) (a : Agent) : M string :=
  read (λ w, match get (_agents w) aid with
             | Some a' => name (state a')
             | None => name (state a)
             end).

(** [" -> ".join(delegation_chain) + " -> " + target_id] *)
Definition chain_text (chain : list string) (target_id : string) : string :=
  String.concat " -> " chain +:+ " -> " +:+ target_id.

Definition agent_entry (a : Agent) : string :=
  "'" +:+ name (state a) +:+ "' (id: " +:+ id (state a) +:+ ")".

Definition execute_delegate_task (agent : string) (input : Input) : M string :=
  a <- the_agent agent ;;
  target_id <- item input "agent_id" ;;
  message <- item input "message" ;;
  civ <- read (λ w, w) ;;
  match get (_agents civ) target_id with
  | None =>
      let available :=
        filter (λ b, id (state b) ≠ id (state a)) (values (_agents civ)) in
      ret ("Error: no agent found with id '" +:+ target_id
           +:+ "'. Available agents: "
           +:+ String.concat ", " (map agent_entry available))
  | Some target =>
      let delegation_chain := _delegation_chain a in
      if bool_decide (target_id ∈ delegation_chain) then
        ret ("Error: delegation cycle detected. Chain: "
             +:+ chain_text delegation_chain target_id)
      else
        modify (update_agent target_id
                  (set_chain (delegation_chain ++ [id (state a)]))) ;;;
        response <-
          try_finally
            (process_message_rec target_id
               ("[Task delegated from '" +:+ name (state a) +:+ "' (id: "
                +:+ id (state a) +:+ ")]" +:+ nl +:+ nl +:+ message))
            (update_agent target_id (set_chain [])) ;;
        target_name <- name_now target_id target ;;
        ret ("Response from '" +:+ target_name +:+ "':" +:+ nl +:+ response)
  end.

Definition get_alliance_by_name (w : Civilization) (n : string) : option Alliance :=
  head (filter (λ al, alliance_name al = n) (values (_alliances w))).

Fixpoint broadcast_to (targets : list string) (msg : string)
    (responses : list string) : M (list string) :=
  match targets with
  | [] => ret responses
  | target_id :: rest =>
      civ <- read (λ w, w) ;;
      match get (_agents civ) target_id with
      | None => broadcast_to rest msg responses
      | Some target =>
          line <-
            try_except
              (resp <- process_message_rec target_id msg ;;
               nm <- name_now target_id target ;;
               ret ("**" +:+ nm +:+ "**: " +:+ resp))
              (λ e, nm <- name_now target_id target ;;
                    ret ("**" +:+ nm +:+ "**: Error - " +:+ str e)) ;;
          broadcast_to rest msg (responses ++ [line])
      end
  end.

Definition execute_broadcast (agent : string) (input : Input) : M string :=
  a <- the_agent agent ;;
  message <- item input "message" ;;
  civ <- read (λ w, w) ;;
  let all_others :=
    filter (λ i, i ≠ id (state a)) (map (λ b, id (state b)) (values (_agents civ))) in
  let go (target_ids : list string) : M string :=
    match target_ids with
    | [] => ret "No other agents to broadcast to."
    | _ =>
        responses <-
          broadcast_to target_ids
            ("[Broadcast from '" +:+ name (state a) +:+ "' (id: "
             +:+ id (state a) +:+ ")]" +:+ nl +:+ nl +:+ message) [] ;;
        ret ("Broadcast responses:" +:+ nl +:+ nl
             +:+ String.concat (nl +:+ nl +:+ "---" +:+ nl +:+ nl) responses)
    end in
  match get input "alliance_name" with
  | Some n =>
      if nonempty n then
        match get_alliance_by_name civ n with
        | None => ret ("Error: no alliance found with name '" +:+ n +:+ "'.")
        | Some al => go (filter (λ i, i ≠ id (state a)) (agent_ids al))
        end
      else go all_others
  | None => go all_others
  end.

(** The handler bound to a tool: one of the functions above, or one of
    those left to [other_handler]. *)
Definition run_handler (h : Registry.Handler) (agent : string) (input : Input)
    : M string :=
  match h with
  | Registry.BuiltinHandler tool =>
      if decide (tool = "create_agent") then execute_create_agent agent input
      else if decide (tool = "delegate_task") then execute_delegate_task agent input
      else if decide (tool = "broadcast") then execute_broadcast agent input
      else if decide (tool = "create_tool") then execute_create_tool agent input
      else if decide (tool = "edit_tool") then execute_edit_tool agent input
      else if decide (tool = "delete_tool") then execute_delete_tool agent input
      else λ w, let '(o, w') := other_handler h agent input w in (of_outcome o, w')
  | Registry.CustomHandler _ =>
      λ w, let '(o, w') := other_handler h agent input w in (of_outcome o, w')
  end.

(** [ToolRegistry.execute] *)
Definition execute (tool_name : string) (tool_input : Input) (agent : string)
    : M string :=
  reg <- read tool_registry ;;
  match get (Registry._handlers reg) tool_name with
  | None =>
      raise (ValueError ("No handler registered for tool '" +:+ tool_name +:+ "'."))
  | Some h =>
      outcome <-
        try_except
          (result <- run_handler h agent tool_input ;; ret (result, true))
          (λ e, ret (str e, false)) ;;
      let '(result, success) := outcome in
      a <- the_agent agent ;;
      modify (λ w, set_registry
                     (Registry.record_execution tool_name (id (state a)) tool_input
                        result success (tool_registry w)) w) ;;;
      if success then ret result else raise (RuntimeError result)
  end.

(** [Agent._execute_tool] *)
Definition _execute_tool (agent tool_name : string) (tool_input : Input)
    (tool_use_id : string) : M ToolResult :=
  try_except
    (result <- execute tool_name tool_input agent ;;
     ret {| tool_use_id := tool_use_id; result_content := result;
            is_error := false |})
    (λ e, ret {| tool_use_id := tool_use_id;
                 result_content :=
                   "Error executing tool '" +:+ tool_name +:+ "': " +:+ str e;
                 is_error := true |}).

(** The tool calls of one response, in the order returned. *)
Fixpoint run_tool_calls (agent : string) (blocks : list Block)
    : M (list ToolResult) :=
  match blocks with
  | [] => ret []
  | TextBlock _ :: rest => run_tool_calls agent rest
  | ToolUseBlock i n inp :: rest =>
      result <- _execute_tool agent n inp i ;;
      results <- run_tool_calls agent rest ;;
      ret (result :: results)
  end.

(** [Agent._extract_text] *)
Definition _extract_text (blocks : list Block) : string :=
  String.concat nl
    (omap (λ b, match b with
                | TextBlock t => if nonempty t then Some t else None
                | ToolUseBlock _ _ _ => None
                end) blocks).

(** [ClaudeClient.create_message] *)
Definition create_message (messages : list Turn) : M Response :=
  λ w, (of_outcome (claude (api_calls w) messages),
        {| config := config w; civ_id := civ_id w; civ_name := civ_name w; _agents := _agents w;
           primary_agent_id := primary_agent_id w;
           creation_graph := creation_graph w; _alliances := _alliances w;
           tool_registry := tool_registry w; events := events w;
           uuid_calls := uuid_calls w; api_calls := S (api_calls w) |}).

Definition remember (agent r : string) (c : Content) : M () :=
  modify (update_agent agent
            (set_state (set_memory (Memory.add_conversation_turn r c)))).

Definition turn (r : string) (c : Content) : Turn :=
  {| Memory.role := r; Memory.content := c |}.

(** The [for iteration in range(max_iterations)] loop with [n] iterations
    left, [i] done.  The result is [final_text] and the number of iterations
    entered. *)
Fixpoint loop (n i : nat) (agent : string) (messages : list Turn)
    : M (string * nat) :=
  match n with
  | O => ret ("", i)
  | S n' =>
      modify (update_agent agent (set_state (set_status THINKING))) ;;;
      response <- create_message messages ;;
      modify (update_agent agent
                (set_state (count_api_call
                              (input_tokens response + output_tokens response)))) ;;;
      remember agent "assistant" (Blocks (content response)) ;;;
      let messages := messages ++ [turn "assistant" (Blocks (content response))] in
      if negb (String.eqb (stop_reason response) "tool_use") then
        ret (_extract_text (content response), S i)
      else
        modify (update_agent agent (set_state (set_status EXECUTING_TOOL))) ;;;
        tool_results <- run_tool_calls agent (content response) ;;
        remember agent "user" (Results tool_results) ;;;
        loop n' (S i) agent (messages ++ [turn "user" (Results tool_results)])
  end.

(** [Agent.process_message] *)
Definition process_message_body (agent user_message : string) : M string :=
  the_agent agent ;;;
  remember agent "user" (Text user_message) ;;;
  a <- the_agent agent ;;
  let messages := Memory.conversation_history (memory (state a)) in
  max_iterations <- read (λ w, Z.to_nat (max_loop_iterations (config w))) ;;
  final <- loop max_iterations 0 agent messages ;;
  modify (update_agent agent (set_state (set_status IDLE))) ;;;
  a <- the_agent agent ;;
  modify (emit "agent_responded"
            [("agent_id", id (state a)); ("agent_name", name (state a));
             ("message_preview", substring 0 200 final.1);
             ("iteration_count", pretty (Nat.max 1 final.2))]) ;;;
  ret final.1.

(** **** Tool failures stay inside the loop *)

(** How a handler's run is filed: its text and whether it succeeded. *)
Definition result_text (r : res string) : string :=
  match r with Ok s => s | Exn e => str e | Halt => "" end.

Definition succeeded (r : res string) : bool :=
  match r with Ok _ => true | _ => false end.

Lemma execute_bound tool_name input agent h w r w1 a :
  get (Registry._handlers (tool_registry w)) tool_name = Some h →
  run_handler h agent input w = (r, w1) → r ≠ Halt →
  get (_agents w1) agent = Some a →
  execute tool_name input agent w =
    (if succeeded r then Ok (result_text r)
     else Exn (RuntimeError (result_text r)),
     set_registry
       (Registry.record_execution tool_name (id (state a)) input
          (result_text r) (succeeded r) (tool_registry w1)) w1).
Proof.
  intros Hh Hr Hhalt Ha. unfold execute, bind, read, try_except. rewrite Hh.
  unfold bind. rewrite Hr. destruct r as [s|e|]; [| |done].
  - cbn. unfold the_agent. rewrite Ha. done.
  - cbn. unfold the_agent. rewrite Ha. done.
Qed.

Lemma execute_unbound tool_name input agent w :
  get (Registry._handlers (tool_registry w)) tool_name = None →
  execute tool_name input agent w =
    (Exn (ValueError ("No handler registered for tool '" +:+ tool_name +:+ "'.")), w).
Proof. intros Hh. unfold execute, bind, read. by rewrite Hh. Qed.

(** [_execute_tool] turns every exception into a result. *)
Lemma _execute_tool_no_exn agent tool_name input tuid w e :
  (_execute_tool agent tool_name input tuid w).1 ≠ Exn e.
Proof.
  unfold _execute_tool, try_except, bind.
  destruct (execute tool_name input agent w) as [[s|e'|] w']; done.
Qed.

Lemma run_tool_calls_no_exn agent blocks w e :
  (run_tool_calls agent blocks w).1 ≠ Exn e.
Proof.
  revert w. induction blocks as [|[t|i n inp] blocks IH]; intros w; cbn [run_tool_calls].
  - done.
  - apply IH.
  - unfold bind at 1.
    pose proof (_execute_tool_no_exn agent n inp i w) as H1.
    destruct (_execute_tool agent n inp i w) as [[r|e'|] w1]; cbn in *.
    + unfold bind. specialize (IH w1).
      destruct (run_tool_calls agent blocks w1) as [[rs|e'|] w2]; cbn in *; try done.
    + by specialize (H1 e').
    + done.
Qed.

(** The civilization at the point of the loop where the tools of a response
    are run. *)
Definition before_tools (agent : string) (response : Response) (w : Civilization)
    : Civilization :=
  let w := update_agent agent (set_state (set_status THINKING)) w in
  let w := (create_message [] w).2 in
  let w := update_agent agent
             (set_state (count_api_call
                           (input_tokens response + output_tokens response))) w in
  let w := update_agent agent
             (set_state (set_memory
                (Memory.add_conversation_turn "assistant"
                   (Blocks (content response))))) w in
  update_agent agent (set_state (set_status EXECUTING_TOOL)) w.

(** An iteration whose response asks for tools: the results, failures
    among them, become one [user] turn of the agent's memory and of the
    messages of the next call to the gateway. *)
Lemma loop_tool_use n i agent messages w response :
  claude (api_calls (update_agent agent (set_state (set_status THINKING)) w)) messages
    = Ret response →
  stop_reason response = "tool_use" →
  loop (S n) i agent messages w =
    match run_tool_calls agent (content response) (before_tools agent response w) with
    | (Ok tool_results, w') =>
        loop n (S i) agent
          (messages ++ [turn "assistant" (Blocks (content response));
                        turn "user" (Results tool_results)])
          (update_agent agent
             (set_state (set_memory
                (Memory.add_conversation_turn "user" (Results tool_results)))) w')
    | (Exn e, w') => (Exn e, w')
    | (Halt, w') => (Halt, w')
    end.
Proof.
  intros Hc Hs. cbn [loop]. unfold bind at 1. unfold modify at 1.
  unfold bind at 1. unfold create_message at 1. rewrite Hc. cbn [of_outcome].
  unfold bind at 1. unfold modify at 1.
  unfold bind at 1. unfold remember at 1, modify at 1.
  rewrite Hs. change (negb (String.eqb "tool_use" "tool_use")) with false.
  cbv iota.
  unfold bind at 1. unfold modify at 1.
  unfold bind at 1. unfold before_tools, create_message. cbn [snd].
  destruct (run_tool_calls agent (content response) _) as [[rs|e|] w'] eqn:E;
    try done.
  unfold bind at 1. unfold remember, modify. by rewrite <- app_assoc.
Qed.

(** An iteration whose response asks for no tool ends the loop with the
    text of the response. *)
Lemma loop_end n i agent messages w response :
  claude (api_calls (update_agent agent (set_state (set_status THINKING)) w)) messages
    = Ret response →
  stop_reason response ≠ "tool_use" →
  (loop (S n) i agent messages w).1
    = Ok (_extract_text (content response), S i).
Proof.
  intros Hc Hs. cbn [loop]. unfold bind at 1. unfold modify at 1.
  unfold bind at 1. unfold create_message at 1. rewrite Hc. cbn [of_outcome].
  unfold bind at 1. unfold modify at 1.
  unfold bind at 1. unfold remember at 1, modify at 1.
  by destruct (String.eqb_spec (stop_reason response) "tool_use").
Qed.

(** The loop ends with an exception only when the gateway raised it. *)
Lemma loop_exn n i agent messages w e :
  (loop n i agent messages w).1 = Exn e →
  ∃ k msgs, claude k msgs = Raise e.
Proof.
  revert i messages w. induction n as [|n IH]; intros i messages w; [done|].
  cbn [loop]. unfold bind at 1. unfold modify at 1.
  unfold bind at 1. unfold create_message at 1.
  destruct (claude _ messages) as [response|e'] eqn:Hc; cbn [of_outcome].
  2:{ cbn. intros [= <-]. by eexists _, _. }
  unfold bind at 1. unfold modify at 1.
  unfold bind at 1. unfold remember at 1, modify at 1.
  destruct (negb _); [done|].
  unfold bind at 1. unfold modify at 1.
  unfold bind at 1.
  match goal with |- context [run_tool_calls agent ?b ?w0] =>
    pose proof (run_tool_calls_no_exn agent b w0) as Hno;
    destruct (run_tool_calls agent b w0) as [[rs|e'|] w'] end; cbn in Hno.
  - unfold bind at 1. unfold remember at 1, modify at 1. apply IH.
  - by specialize (Hno e').
  - done.
Qed.

Lemma the_agent_cases agent w :
  the_agent agent w = (Halt, w) ∨ ∃ a, the_agent agent w = (Ok a, w).
Proof. unfold the_agent. destruct (get (_agents w) agent); eauto. Qed.

Lemma process_message_body_exn agent msg w e :
  (process_message_body agent msg w).1 = Exn e →
  ∃ k msgs, claude k msgs = Raise e.
Proof.
  unfold process_message_body. unfold bind at 1.
  destruct (the_agent_cases agent w) as [->|[a ->]]; [done|].
  unfold bind at 1. unfold remember at 1, modify at 1.
  unfold bind at 1.
  match goal with |- context [the_agent agent ?w1] =>
    destruct (the_agent_cases agent w1) as [->|[a1 ->]] end; [done|].
  unfold bind at 1. unfold read at 1.
  unfold bind at 1.
  match goal with |- context [loop ?n ?i agent ?m ?w2] =>
    pose proof (loop_exn n i agent m w2) as Hl;
    destruct (loop n i agent m w2) as [[final|e'|] w3] end; cbn in Hl.
  - unfold bind at 1. unfold modify at 1. unfold bind at 1.
    match goal with |- context [the_agent agent ?w4] =>
      destruct (the_agent_cases agent w4) as [->|[a4 ->]] end; done.
  - cbn. intros [= <-]. by apply Hl.
  - done.
Qed.

(** **** Delegation *)

Definition delegated_message (a : Agent) (message : string) : string :=
  "[Task delegated from '" +:+ name (state a) +:+ "' (id: "
  +:+ id (state a) +:+ ")]" +:+ nl +:+ nl +:+ message.

(** A target that is in the caller's chain is refused, nothing changes. *)
Lemma delegate_cycle agent a input target message w :
  get (_agents w) agent = Some a →
  get input "agent_id" = Some target → get input "message" = Some message →
  is_Some (get (_agents w) target) →
  target ∈ _delegation_chain a →
  execute_delegate_task agent input w =
    (Ok ("Error: delegation cycle detected. Chain: "
         +:+ chain_text (_delegation_chain a) target), w).
Proof.
  intros Ha Ht Hm [t Htg] Hin.
  unfold execute_delegate_task, bind, the_agent, item, read, ret.
  rewrite Ha, Ht, Hm. cbn. rewrite Htg.
  by rewrite bool_decide_eq_true_2.
Qed.

(** A target that is not in the caller's chain is dispatched: it gets the
    chain extended by the caller, its loop runs, and its chain is emptied
    whatever the loop did. *)
Lemma delegate_dispatch agent a input target t message w :
  get (_agents w) agent = Some a →
  get input "agent_id" = Some target → get input "message" = Some message →
  get (_agents w) target = Some t →
  target ∉ _delegation_chain a →
  execute_delegate_task agent input w =
    let w1 := update_agent target
                (set_chain (_delegation_chain a ++ [id (state a)])) w in
    let run := process_message_rec target (delegated_message a message) w1 in
    let w3 := update_agent target (set_chain []) run.2 in
    (match run.1 with
     | Ok response =>
         Ok ("Response from '"
             +:+ match get (_agents w3) target with
                 | Some t' => name (state t')
                 | None => name (state t)
                 end +:+ "':" +:+ nl +:+ response)
     | Exn e => Exn e
     | Halt => Halt
     end, w3).
Proof.
  intros Ha Ht Hm Htg Hin.
  unfold execute_delegate_task, bind, the_agent, item, read, ret.
  rewrite Ha, Ht, Hm. cbn -[update_agent]. rewrite Htg.
  rewrite bool_decide_eq_false_2 by done.
  unfold modify, try_finally, delegated_message, name_now, read.
  cbn -[update_agent].
  destruct (process_message_rec _ _ _) as [[resp|e|] w2]; done.
Qed.

Lemma chain_cleared target w t :
  get (_agents (update_agent target (set_chain []) w)) target = Some t →
  _delegation_chain t = [].
Proof.
  rewrite get_update_agent, decide_True by done.
  destruct (get (_agents w) target); [|done]. by intros [= <-].
Qed.

(** X15.  What [delegate_task] does with a well-formed input: an unknown
    target gives an error text and changes nothing; a target that is in the
    caller's chain is refused with the cycle text and changes nothing; any
    other target runs its loop with the caller's chain extended by the
    caller, and its chain is empty afterwards, whether its loop returned or
    raised. *)
Theorem delegation_guard agent a input target message w :
  get (_agents w) agent = Some a →
  get input "agent_id" = Some target → get input "message" = Some message →
  let res := execute_delegate_task agent input w in
  match get (_agents w) target with
  | None =>
      res.2 = w ∧
      ∃ listing, res.1 = Ok ("Error: no agent found with id '" +:+ target
                             +:+ "'. Available agents: " +:+ listing)
  | Some t =>
      if bool_decide (target ∈ _delegation_chain a)
      then res = (Ok ("Error: delegation cycle detected. Chain: "
                      +:+ chain_text (_delegation_chain a) target), w)
      else
        let w1 := update_agent target
                    (set_chain (_delegation_chain a ++ [id (state a)])) w in
        let run := process_message_rec target (delegated_message a message) w1 in
        res.2 = update_agent target (set_chain []) run.2 ∧
        (match run.1 with
         | Ok response => ∃ nm, res.1 = Ok ("Response from '" +:+ nm +:+ "':"
                                            +:+ nl +:+ response)
         | Exn e => res.1 = Exn e
         | Halt => res.1 = Halt
         end) ∧
        (∃ t1, get (_agents w1) target = Some t1 ∧
               _delegation_chain t1 = _delegation_chain a ++ [id (state a)]) ∧
        (∀ t', get (_agents res.2) target = Some t' → _delegation_chain t' = [])
  end.
Proof.
  intros Ha Ht Hm res.
  destruct (get (_agents w) target) as [t|] eqn:Htg.
  - destruct (bool_decide (target ∈ _delegation_chain a)) eqn:Hin.
    + apply bool_decide_eq_true in Hin. subst res.
      by apply (delegate_cycle agent a input target message w).
    + apply bool_decide_eq_false in Hin. subst res.
      rewrite (delegate_dispatch agent a input target t message w) by done.
      cbv zeta. cbn [fst snd]. split; [done|]. split; [|split].
      * destruct (process_message_rec _ _ _) as [[resp|e|] w2]; cbn [fst];
          [by eexists|done..].
      * rewrite get_update_agent, decide_True, Htg by done. by eexists.
      * intros t'. apply chain_cleared.
  - subst res. unfold execute_delegate_task, bind, the_agent, item, read, ret.
    rewrite Ha, Ht, Hm. cbn. rewrite Htg. split; [done|]. by eexists.
Qed.

Lemma broadcast_to_no_exn targets msg responses w e :
  (broadcast_to targets msg responses w).1 ≠ Exn e.
Proof.
  revert responses w. induction targets as [|tid targets IH]; intros responses w.
  - done.
  - cbn [broadcast_to]. unfold bind at 1, read at 1.
    destruct (get (_agents w) tid) as [t|]; [|apply IH].
    unfold bind at 1. unfold try_except, bind at 1.
    destruct (process_message_rec tid msg w) as [[resp|e'|] w1].
    + unfold bind, name_now, read, ret. apply IH.
    + unfold bind, name_now, read, ret. apply IH.
    + done.
Qed.

(** X16.  [broadcast] keeps the failures of its targets to itself: the only
    exception it raises is the [KeyError] of an input without [message].
    With no other agent to address it says so and changes nothing, and an
    unknown alliance name gives an error text and changes nothing. *)
Theorem broadcast_contains_failures agent input w :
  (∀ e, (execute_broadcast agent input w).1 = Exn e →
        e = KeyError "message" ∧ get input "message" = None) ∧
  (∀ a msg, get (_agents w) agent = Some a → get input "message" = Some msg →
     get input "alliance_name" = None →
     Forall (λ b, id (state b) = id (state a)) (values (_agents w)) →
     execute_broadcast agent input w = (Ok "No other agents to broadcast to.", w)) ∧
  (∀ a msg n, get (_agents w) agent = Some a → get input "message" = Some msg →
     get input "alliance_name" = Some n → nonempty n = true →
     get_alliance_by_name w n = None →
     execute_broadcast agent input w
       = (Ok ("Error: no alliance found with name '" +:+ n +:+ "'."), w)).
Proof.
  split; [|split].
  - intros e. unfold execute_broadcast. unfold bind at 1, the_agent.
    destruct (get (_agents w) agent) as [a|]; [|done].
    unfold bind at 1, item.
    destruct (get input "message") as [msg|]; [|by intros [= <-]].
    cbn [ret]. unfold bind at 1, read. cbv zeta.
    set (header := "[Broadcast from '" +:+ name (state a) +:+ "' (id: "
                   +:+ id (state a) +:+ ")]" +:+ nl +:+ nl +:+ msg).
    assert (∀ ts (k : list string → M string),
              (∀ rs w', (k rs w').1 ≠ Exn e) →
              (match ts with
               | [] => ret "No other agents to broadcast to."
               | _ :: _ => bind (broadcast_to ts header []) k
               end w).1 ≠ Exn e) as Hgo.
    { intros ts k Hk. destruct ts as [|tid ts]; [done|]. unfold bind.
      pose proof (broadcast_to_no_exn (tid :: ts) header [] w e) as H.
      destruct (broadcast_to _ _ _ _) as [[rs|e'|] w1]; cbn in *;
        [apply Hk|intros [= <-]; by apply H|done]. }
    intros H. exfalso. revert H.
    destruct (get input "alliance_name") as [n|]; [|by apply Hgo].
    destruct (nonempty n); [|by apply Hgo].
    destruct (get_alliance_by_name w n); [by apply Hgo|done].
  - intros a msg Ha Hm Hal Hall.
    unfold execute_broadcast, bind, the_agent, item, read, ret.
    rewrite Ha, Hm, Hal.
    assert (filter (λ i, i ≠ id (state a))
              (map (λ b, id (state b)) (values (_agents w))) = []) as ->; [|done].
    induction Hall as [|b bs Hb _ IH]; [done|].
    simpl. rewrite filter_cons, decide_False by (by intros H; apply H). done.
  - intros a msg n Ha Hm Hal Hn Hnone.
    unfold execute_broadcast, bind, the_agent, item, read, ret.
    by rewrite Ha, Hm, Hal, Hn, Hnone.
Qed.

(** **** How a turn ends *)

Lemma config_update_agent k f w : config (update_agent k f w) = config w.
Proof. unfold update_agent. by destruct (get (_agents w) k). Qed.

Lemma emit_last ty d w :
  last (events (emit ty d w)) = Some {| event_type := ty; data := d |}.
Proof.
  unfold emit. cbn [events]. destruct (1000 <? _)%nat.
  - rewrite (slice_from_lastn _ 1000) by lia. apply lastn_snoc_last. lia.
  - apply last_snoc.
Qed.

(** What the loop returns: the text of a response that did not ask for
    tools, or the empty string when each of its [n] iterations asked for
    tools. *)
Lemma loop_result n i agent messages w txt k w' :
  loop n i agent messages w = (Ok (txt, k), w') →
  (∃ c msgs r, claude c msgs = Ret r ∧ stop_reason r ≠ "tool_use" ∧
               txt = _extract_text (content r) ∧ (i < k ≤ i + n)%nat)
  ∨ (txt = "" ∧ k = (i + n)%nat).
Proof.
  revert i messages w txt k w'.
  induction n as [|n IH]; intros i messages w txt k w'.
  - cbn. intros [= <- <- <-]. right. split; [done|lia].
  - cbn [loop]. unfold bind at 1. unfold modify at 1.
    unfold bind at 1. unfold create_message at 1.
    destruct (claude _ messages) as [response|e'] eqn:Hc; cbn [of_outcome]; [|done].
    unfold bind at 1. unfold modify at 1.
    unfold bind at 1. unfold remember at 1, modify at 1.
    destruct (negb _) eqn:Hs.
    + cbn. intros [= <- <- <-]. left. eexists _, _, response. split; [exact Hc|].
      split; [|split; [done|lia]].
      intros E. by rewrite E in Hs.
    + unfold bind at 1. unfold modify at 1. unfold bind at 1.
      destruct (run_tool_calls agent _ _) as [[rs|e'|] w1]; [|done..].
      unfold bind at 1. unfold remember at 1, modify at 1.
      intros H. destruct (IH _ _ _ _ _ _ H) as [(c & msgs & r & ? & ? & ? & ?)|[? ?]].
      * left. exists c, msgs, r. repeat split; try done; lia.
      * right. split; [done|lia].
Qed.

(** X20.  A turn of [process_message] that returns leaves the agent [IDLE]
    and ends with an [agent_responded] event that carries the first 200
    characters of the answer and the number of iterations.  The answer is
    the text of a response that did not ask for tools; when every iteration
    up to [max_loop_iterations] asked for tools, it is the empty string. *)
Theorem turn_result agent user_message w txt w' :
  process_message_body agent user_message w = (Ok txt, w') →
  let limit := Z.to_nat (max_loop_iterations (config w)) in
  ∃ a ev k,
    get (_agents w') agent = Some a ∧ status (state a) = IDLE ∧
    last (events w') = Some ev ∧ event_type ev = "agent_responded" ∧
    get (data ev) "agent_id" = Some (id (state a)) ∧
    get (data ev) "message_preview" = Some (substring 0 200 txt) ∧
    get (data ev) "iteration_count" = Some (pretty k) ∧
    ((∃ c msgs r, claude c msgs = Ret r ∧ stop_reason r ≠ "tool_use" ∧
        txt = _extract_text (content r) ∧ (1 ≤ k ≤ limit)%nat)
     ∨ (txt = "" ∧ k = Nat.max 1 limit)).
Proof.
  unfold process_message_body. unfold bind at 1.
  destruct (the_agent_cases agent w) as [->|[a ->]]; [done|].
  unfold bind at 1. unfold remember at 1, modify at 1.
  unfold bind at 1.
  match goal with |- context [the_agent agent ?w1] =>
    destruct (the_agent_cases agent w1) as [->|[a1 ->]] end; [done|].
  unfold bind at 1. unfold read at 1. rewrite config_update_agent.
  unfold bind at 1.
  match goal with |- context [loop ?n ?i agent ?m ?w2] =>
    pose proof (loop_result n i agent m w2) as Hl;
    destruct (loop n i agent m w2) as [[[t k]|e'|] w3] end; [|done..].
  specialize (Hl t k w3 eq_refl).
  unfold bind at 1. unfold modify at 1. unfold bind at 1.
  unfold the_agent at 1.
  destruct (get (_agents (update_agent agent _ w3)) agent) as [a4|] eqn:Ha4; [|done].
  unfold bind, modify, ret. cbn [fst snd]. intros [= <- <-].
  exists a4. eexists _, (Nat.max 1 k). split; [done|]. split.
  { rewrite get_update_agent, decide_True in Ha4 by done.
    destruct (get (_agents w3) agent); [|done]. by injection Ha4 as <-. }
  split; [apply emit_last|]. cbn [event_type data].
  do 4 (split; [done|]).
  destruct Hl as [(c & msgs & r & ? & ? & ? & ?)|[? ?]].
  - left. exists c, msgs, r. repeat split; try done; lia.
  - right. split; [done|]. by subst k.
Qed.

End Knot.

(** Nested decision loops, at most [fuel] deep. *)
Fixpoint process_message (fuel : nat) : string → string → M string :=
  match fuel with
  | O => λ _ _ w, (Halt, w)
  | S fuel' => process_message_body (process_message fuel')
  end.

(** The [delegate_task] tool called from a decision loop that may nest
    [fuel] more loops. *)
Definition delegate_task (fuel : nat) : string → Input → M string :=
  execute_delegate_task (process_message fuel).

(** C3.  A call of [execute] whose handler is bound and returns or raises:
    one record is appended to the execution log, with the outcome as its
    success flag; the usage counter of the tool filed under the name goes up
    by one and its other fields stay; [_execute_tool] ends with a result,
    marked as an error exactly when the handler raised.  A response that
    asks for this one tool call gets that result: it is the [user] turn
    added to the agent's memory, where it is the newest turn, and to the
    messages of the next call of the gateway, and the loop goes on: when the
    gateway then answers without asking for a tool, the loop returns the
    text of that answer.  Whatever tools an iteration ran, their results
    become one [user] turn of the memory and of the next messages.  Running
    tools never raises, and the decision loop ends with an exception only
    when the gateway itself raised it. *)
Theorem tool_failure_recorded_and_fed_back fuel w tool_name input agent h r w1 a :
  let callee := process_message fuel in
  get (Registry._handlers (tool_registry w)) tool_name = Some h →
  run_handler callee h agent input w = (r, w1) → r ≠ Halt →
  get (_agents w1) agent = Some a →
  let reg1 := tool_registry w1 in
  let done := execute callee tool_name input agent w in
  let reg2 := tool_registry done.2 in
  let result tuid :=
    {| tool_use_id := tuid;
       result_content :=
         if succeeded r then result_text r
         else "Error executing tool '" +:+ tool_name +:+ "': " +:+ result_text r;
       is_error := negb (succeeded r) |} in
  Registry._execution_log reg2 =
    Registry._execution_log reg1 ++
      [{| Registry.tool_name := tool_name;
          Registry.agent_id := id (state a);
          Registry.input_params := input;
          Registry.output := substring 0 1000 (result_text r);
          Registry.success := succeeded r |}] ∧
  (∀ l t, get (Registry._tools_by_name reg1) tool_name = Some l →
          Registry.objs reg1 !! l = Some t →
          ∃ t', Registry.objs reg2 !! l = Some t' ∧
                Registry.usage_count t' = Registry.usage_count t + 1 ∧
                Registry.id t' = Registry.id t ∧
                Registry.name t' = Registry.name t ∧
                Registry.description t' = Registry.description t ∧
                Registry.input_schema t' = Registry.input_schema t ∧
                Registry.scope t' = Registry.scope t ∧
                Registry.created_by_agent_id t' = Registry.created_by_agent_id t ∧
                Registry.source_code t' = Registry.source_code t ∧
                Registry.version t' = Registry.version t) ∧
  done.1 = (if succeeded r then Ok (result_text r)
            else Exn (RuntimeError (result_text r))) ∧
  (∀ tuid,
     _execute_tool callee agent tool_name input tuid w = (Ok (result tuid), done.2)) ∧
  (∀ tuid,
     run_tool_calls callee agent [ToolUseBlock tuid tool_name input] w
       = (Ok [result tuid], done.2)) ∧
  (∀ n i messages w0 response tuid,
     w = before_tools agent response w0 →
     claude (api_calls (update_agent agent (set_state (set_status THINKING)) w0))
            messages = Ret response →
     stop_reason response = "tool_use" →
     content response = [ToolUseBlock tuid tool_name input] →
     let fed := update_agent agent
                  (set_state (set_memory
                     (Memory.add_conversation_turn "user" (Results [result tuid]))))
                  done.2 in
     loop callee (S n) i agent messages w0 =
       loop callee n (S i) agent
         (messages ++ [turn "assistant" (Blocks (content response));
                       turn "user" (Results [result tuid])])
         fed ∧
     (∃ a', get (_agents fed) agent = Some a' ∧
            (0 ≤ Memory.max_conversation_turns (memory (state a)) →
             last (Memory.conversation_history (memory (state a')))
               = Some (turn "user" (Results [result tuid])))) ∧
     (∀ final,
        claude (api_calls (update_agent agent (set_state (set_status THINKING)) fed))
               (messages ++ [turn "assistant" (Blocks (content response));
                             turn "user" (Results [result tuid])])
          = Ret final →
        stop_reason final ≠ "tool_use" →
        (loop callee (S (S n)) i agent messages w0).1
          = Ok (_extract_text (content final), S (S i)))) ∧
  (∀ n i messages w0 response,
     claude (api_calls (update_agent agent (set_state (set_status THINKING)) w0))
            messages = Ret response →
     stop_reason response = "tool_use" →
     ∀ tool_results w',
       run_tool_calls callee agent (content response)
         (before_tools agent response w0) = (Ok tool_results, w') →
       loop callee (S n) i agent messages w0 =
         loop callee n (S i) agent
           (messages ++ [turn "assistant" (Blocks (content response));
                         turn "user" (Results tool_results)])
           (update_agent agent
              (set_state (set_memory
                 (Memory.add_conversation_turn "user" (Results tool_results))))
              w')) ∧
  (∀ blocks w0 e, (run_tool_calls callee agent blocks w0).1 ≠ Exn e) ∧
  (∀ message w0 e,
     (process_message (S fuel) agent message w0).1 = Exn e →
     ∃ k msgs, claude k msgs = Raise e).
Proof.
  intros callee Hh Hr Hhalt Ha reg1 done reg2 result.
  assert (done = (if succeeded r then Ok (result_text r)
                  else Exn (RuntimeError (result_text r)),
                  set_registry
                    (Registry.record_execution tool_name (id (state a)) input
                       (result_text r) (succeeded r) reg1) w1)) as Hdone
    by (by apply (execute_bound callee tool_name input agent h)).
  assert (∀ tuid, _execute_tool callee agent tool_name input tuid w
                    = (Ok (result tuid), done.2)) as Htool.
  { intros tuid. unfold _execute_tool, try_except, bind. fold done.
    rewrite Hdone. by destruct r. }
  assert (∀ tuid, run_tool_calls callee agent [ToolUseBlock tuid tool_name input] w
                    = (Ok [result tuid], done.2)) as Hrun.
  { intros tuid. cbn [run_tool_calls]. unfold bind at 1. by rewrite Htool. }
  split; [|split; [|split; [|split; [|split; [|split; [|split; [|split]]]]]]].
  - subst reg2. by rewrite Hdone.
  - intros l t Hl Ht. exists (Registry.bump_usage t). split; [|done].
    subst reg2. rewrite Hdone. cbn.
    unfold Registry.record_execution. cbn. fold reg1. rewrite Hl, Ht.
    apply list_lookup_insert_eq. by eapply lookup_lt_Some.
  - by rewrite Hdone.
  - exact Htool.
  - exact Hrun.
  - intros n i messages w0 response tuid Hw Hc Hs Hcontent fed.
    assert (∀ k, loop callee (S k) i agent messages w0 =
                 loop callee k (S i) agent
                   (messages ++ [turn "assistant" (Blocks (content response));
                                 turn "user" (Results [result tuid])]) fed) as Hstep.
    { intros k.
      rewrite (loop_tool_use callee k i agent messages w0 response Hc Hs).
      by rewrite Hcontent at 1; rewrite <- Hw, Hrun. }
    split; [apply Hstep|]. split.
    + assert (get (_agents done.2) agent = Some a) as Ha2 by (by rewrite Hdone).
      subst fed. rewrite get_update_agent, decide_True, Ha2 by done.
      eexists. split; [done|]. cbn. intros Hn.
      by apply Memory.last_add_conversation_turn.
    + intros final Hfinal Hstop. rewrite Hstep. by apply loop_end.
  - intros n i messages w0 response Hc Hs rs w' Hrs.
    rewrite (loop_tool_use callee n i agent messages w0 response Hc Hs).
    by rewrite Hrs.
  - intros blocks w0 e. apply run_tool_calls_no_exn.
  - intros message w0 e. apply process_message_body_exn.
Qed.


(** **** The number of agents *)

Lemma length_set {V} (d : dict V) k v :
  (length (set k v d) ≤ S (length d))%nat ∧
  (is_Some (get d k) → length (set k v d) = length d).
Proof.
  induction d as [|[k0 v0] d [IH1 IH2]]; simpl.
  - split; [lia|]. by intros [? ?].
  - destruct (decide (k0 = k)); simpl; [split; [lia|done]|].
    split; [lia|]. intros H. by rewrite IH2.
Qed.

Lemma length_update_agent k f w :
  length (_agents (update_agent k f w)) = length (_agents w).
Proof.
  unfold update_agent. destruct (get (_agents w) k) eqn:E; [|done].
  simpl. by apply length_set.
Qed.

(** X17.  The [create_agent] tool never takes the civilization beyond the
    configured number of agents: a civilization within [max_agents] stays
    within it, and one that has reached it gets an error text and is left as
    it was. *)
Theorem create_agent_tool_count (w : Civilization) agent input :
  Z.of_nat (length (_agents w)) ≤ max_agents (config w) →
  let res := execute_create_agent agent input w in
  config res.2 = config w ∧
  Z.of_nat (length (_agents res.2)) ≤ max_agents (config w) ∧
  (Z.of_nat (length (_agents w)) = max_agents (config w) →
   is_Some (get (_agents w) agent) →
   res = (Ok ("Error: civilization has reached the maximum of "
              +:+ pretty (max_agents (config w)) +:+ " agents."), w)).
Proof.
  intros Hmax res. subst res.
  unfold execute_create_agent, bind, the_agent, read.
  destruct (get (_agents w) agent) as [a|] eqn:Ha; [|by split; [|split; [|intros _ [? ?]]]].
  destruct (Z.geb_spec (Z.of_nat (length (_agents w))) (max_agents (config w)))
    as [Hfull|Hroom]; [done|].
  split; [|split; [|lia]].
  - destruct (depth (state a) >=? max_agent_depth (config w)); [done|].
    unfold item, ret, raise.
    destruct (get input "name"); [|done]. destruct (get input "role"); [|done].
    destruct (get input "system_prompt"); [|done].
    cbn -[update_agent]. unfold update_agent. cbn.
    by destruct (get (set _ _ _) agent).
  - destruct (depth (state a) >=? max_agent_depth (config w)); [done|].
    unfold item, ret, raise.
    destruct (get input "name"); [|done]. destruct (get input "role"); [|done].
    destruct (get input "system_prompt"); [|done].
    cbn -[update_agent]. rewrite length_update_agent. cbn.
    pose proof (proj1 (length_set (_agents w) (uuid4 (uuid_calls w))
      {| state := new_agent_state (uuid4 (uuid_calls w)) s s0 s1
                    (Some (id (state a))) (depth (state a) + 1);
         _delegation_chain := [] |})). lia.
Qed.

(** **** Errors of the registry in the tool handlers *)

(** In a consistent registry [update] and [delete] end with a value, a
    [ValueError] or a [PermissionError]. *)
Lemma update_outcomes tid u req r :
  Registry.consistent r →
  match (Registry.update tid u req r).1 with
  | Ret _ | Raise (ValueError _) | Raise (PermissionError _) => True
  | _ => False
  end.
Proof.
  intros Hc. unfold Registry.update.
  destruct (get (Registry._tools r) tid) as [l|] eqn:Hl; [|done].
  destruct (Registry.consistent_get r tid l Hc Hl) as (tool & Ht & Hn).
  rewrite Ht. repeat (destruct (decide _); try done).
  all: destruct (Registry.u_name u); try done.
  all: repeat (destruct (decide _); try done).
  all: unfold mem; by rewrite Hn.
Qed.

Lemma delete_outcomes tid req r :
  Registry.consistent r →
  match (Registry.delete tid req r).1 with
  | Ret _ | Raise (ValueError _) | Raise (PermissionError _) => True
  | _ => False
  end.
Proof.
  intros Hc. unfold Registry.delete.
  destruct (get (Registry._tools r) tid) as [l|] eqn:Hl; [|done].
  destruct (Registry.consistent_get r tid l Hc Hl) as (tool & Ht & Hn).
  rewrite Ht. repeat (destruct (decide _); try done).
  unfold mem. by rewrite Hn.
Qed.

(** X18.  The tools that manage tools answer the model in text: with a
    consistent registry, the only exception [create_tool], [edit_tool] and
    [delete_tool] raise is the [KeyError] of a required input that is
    missing; a name conflict, an unknown id and a refused permission come
    back as the result. *)
Theorem tool_handlers_answer_in_text agent input (w : Civilization) e :
  Registry.consistent (tool_registry w) →
  ((execute_create_tool agent input w).1 = Exn e →
     ∃ k, e = KeyError k ∧ get input k = None) ∧
  ((execute_edit_tool agent input w).1 = Exn e →
     e = KeyError "tool_id" ∧ get input "tool_id" = None) ∧
  ((execute_delete_tool agent input w).1 = Exn e →
     e = KeyError "tool_id" ∧ get input "tool_id" = None).
Proof.
  intros Hc. split; [|split].
  - unfold execute_create_tool. unfold bind at 1, the_agent.
    destruct (get (_agents w) agent) as [a|]; [|done].
    unfold bind at 1, item.
    destruct (get input "name") eqn:E1; [|intros [= <-]; by eexists].
    cbn [ret]. unfold bind at 1.
    destruct (get input "description") eqn:E2; [|intros [= <-]; by eexists].
    cbn [ret]. unfold bind at 1.
    destruct (get input "parameters") eqn:E3; [|intros [= <-]; by eexists].
    cbn [ret]. unfold bind at 1.
    destruct (get input "implementation") eqn:E4; [|intros [= <-]; by eexists].
    cbn [ret]. unfold bind at 1, fresh_uuid.
    unfold try_except, bind at 1, registry_call. cbn [tool_registry].
    unfold Registry.register.
    destruct (mem _ _); cbn; [done|].
    unfold bind, modify, ret. done.
  - unfold execute_edit_tool. unfold bind at 1, the_agent.
    destruct (get (_agents w) agent) as [a|]; [|done].
    unfold bind at 1, item.
    destruct (get input "tool_id") as [tid|] eqn:E1; [|by intros [= <-]].
    cbn [ret]. destruct (decide _); [done|].
    unfold try_except, bind at 1, registry_call.
    pose proof (update_outcomes tid (edit_updates input) (id (state a)) _ Hc) as Hu.
    destruct (Registry.update _ _ _ _) as [[l|[]] r']; cbn in *; try done.
    unfold bind, tool_object. cbn.
    by destruct (Registry.objs r' !! l).
  - unfold execute_delete_tool. unfold bind at 1, the_agent.
    destruct (get (_agents w) agent) as [a|]; [|done].
    unfold bind at 1, item.
    destruct (get input "tool_id") as [tid|] eqn:E1; [|by intros [= <-]].
    cbn [ret].
    unfold try_except, bind at 1, registry_call.
    pose proof (delete_outcomes tid (id (state a)) _ Hc) as Hu.
    destruct (Registry.delete _ _ _) as [[l|[]] r']; cbn in *; done.
Qed.

End Engine.

(** *** The tools offered to the model: Agent.get_available_tools *)

(** The dict [ToolDefinition.to_claude_tool_param] returns. *)
Record ToolParam := {
  param_name : string;
  param_description : string;
  param_input_schema : string;
}.

Definition to_claude_tool_param (t : Registry.ToolDefinition) : ToolParam :=
  {| param_name := Registry.name t;
     param_description := Registry.description t;
     param_input_schema := Registry.input_schema t |}.

(** The accumulators [tools] and [seen_names] of [get_available_tools]; the
    set [seen_names] is only tested for membership. *)
Definition Offered : Type := list ToolParam * list string.

(** [tools.append(t.to_claude_tool_param()); seen_names.add(t.name)] *)
Definition offer (t : Registry.ToolDefinition) (acc : Offered) : Offered :=
  (acc.1 ++ [to_claude_tool_param t], Registry.name t :: acc.2).

Definition offer_unseen (t : Registry.ToolDefinition) (acc : Offered) : Offered :=
  if decide (Registry.name t ∈ acc.2) then acc else offer t acc.

(** [Agent.get_available_tools] *)
Definition get_available_tools (w : Civilization) (a : Agent) : list ToolParam :=
  let reg := tool_registry w in
  let acc := foldl (λ acc t, offer t acc) ([], [])
               (Registry.get_builtin_tools reg) in
  let acc := foldl (λ acc tool_id,
                      match Registry.get_tool reg tool_id with
                      | Some tool_def => offer_unseen tool_def acc
                      | None => acc
                      end) acc (tool_ids (state a)) in
  let acc := foldl (λ acc t, offer_unseen t acc) acc
               (Registry.get_shared_tools reg) in
  acc.1.

(** A tool the agent holds the id of. *)
Definition own_tool (w : Civilization) (a : Agent) (t : Registry.ToolDefinition)
    : Prop :=
  ∃ tool_id, tool_id ∈ tool_ids (state a) ∧
             Registry.get_tool (tool_registry w) tool_id = Some t.

(** [seen_names] holds the names of [tools]. *)
Definition seen_ok (acc : Offered) : Prop :=
  ∀ n, n ∈ acc.2 ↔ n ∈ map param_name acc.1.

Lemma offer_seen_ok t acc : seen_ok acc → seen_ok (offer t acc).
Proof.
  unfold seen_ok, offer. cbn [fst snd]. intros H n.
  rewrite map_app, elem_of_app, elem_of_cons, H. cbn.
  rewrite list_elem_of_singleton. tauto.
Qed.

Lemma fold_offer ts acc :
  seen_ok acc →
  let acc' := foldl (λ acc t, offer t acc) acc ts in
  seen_ok acc' ∧ acc'.1 = acc.1 ++ map to_claude_tool_param ts.
Proof.
  revert acc. induction ts as [|t ts IH]; intros acc H; simpl.
  - by rewrite app_nil_r.
  - destruct (IH (offer t acc) (offer_seen_ok t acc H)) as [H1 H2].
    split; [done|]. rewrite H2. unfold offer. cbn [fst]. by rewrite <- app_assoc.
Qed.

Section Unseen.
Context {X : Type} (f : X → option Registry.ToolDefinition).

Definition step (acc : Offered) (x : X) : Offered :=
  match f x with
  | Some t => offer_unseen t acc
  | None => acc
  end.

Lemma fold_unseen xs acc :
  seen_ok acc →
  let acc' := foldl step acc xs in
  seen_ok acc' ∧
  (∃ rest, acc'.1 = acc.1 ++ rest ∧
     ∀ p, p ∈ rest → ∃ x t, x ∈ xs ∧ f x = Some t ∧ p = to_claude_tool_param t) ∧
  (NoDup (map param_name acc.1) → NoDup (map param_name acc'.1)) ∧
  (∀ x t, x ∈ xs → f x = Some t → Registry.name t ∈ map param_name acc'.1).
Proof.
  revert acc. induction xs as [|x xs IH]; intros acc H; simpl.
  - split; [done|]. split; [|split; [done|]].
    + exists []. split; [by rewrite app_nil_r|]. by intros p ?%elem_of_nil.
    + by intros x t ?%elem_of_nil.
  - assert (seen_ok (step acc x) ∧
            (∃ r, (step acc x).1 = acc.1 ++ r ∧
                  ∀ p, p ∈ r → ∃ t, f x = Some t ∧ p = to_claude_tool_param t) ∧
            (NoDup (map param_name acc.1) → NoDup (map param_name (step acc x).1)) ∧
            (∀ t, f x = Some t → Registry.name t ∈ map param_name (step acc x).1))
      as (Hs & (r & Hr & Hfrom) & Hnd & Hin).
    { unfold step. destruct (f x) as [t|] eqn:Hf.
      - unfold offer_unseen. destruct (decide (Registry.name t ∈ acc.2)) as [Hseen|Hnew].
        + split; [done|]. split; [|split; [done|]].
          * exists []. split; [by rewrite app_nil_r|]. by intros p ?%elem_of_nil.
          * intros t' [= <-]. by apply H.
        + split; [by apply offer_seen_ok|]. split; [|split].
          * exists [to_claude_tool_param t]. split; [done|].
            intros p ->%list_elem_of_singleton. by exists t.
          * intros Hnd. unfold offer. cbn [fst]. rewrite map_app. cbn.
            apply NoDup_app. split; [done|]. split; [|apply NoDup_singleton].
            intros n Hn ->%list_elem_of_singleton. apply Hnew. by apply H.
          * intros t' [= <-]. unfold offer. cbn [fst]. rewrite map_app, elem_of_app.
            right. cbn. by apply list_elem_of_singleton.
      - split; [done|]. split; [|split; [done|done]].
        exists []. split; [by rewrite app_nil_r|]. by intros p ?%elem_of_nil. }
    destruct (IH (step acc x) Hs) as (Hs' & (rest & Hrest & Hfrom') & Hnd' & Hin').
    split; [done|]. split; [|split].
    + exists (r ++ rest). split; [by rewrite Hrest, Hr, app_assoc|].
      intros p [Hp|Hp]%elem_of_app.
      * destruct (Hfrom p Hp) as (t & ? & ?). exists x, t. by rewrite elem_of_cons; eauto.
      * destruct (Hfrom' p Hp) as (x' & t & ? & ? & ?). exists x', t.
        rewrite elem_of_cons; eauto.
    + intros ?. by apply Hnd', Hnd.
    + intros x' t [->|Hx]%elem_of_cons Hf.
      * rewrite Hrest, map_app, elem_of_app. left. by apply Hin.
      * by apply (Hin' x' t).
Qed.
End Unseen.

(** X19.  The tools [get_available_tools] offers to the model: the built-in
    tools come first, every tool offered is a built-in tool, a tool the agent
    holds the id of, or a shared tool, and each of these is offered under
    its name.  When the built-in tools have distinct names, no name is
    offered twice. *)
Theorem available_tools (w : Civilization) (a : Agent) :
  let reg := tool_registry w in
  let offered := get_available_tools w a in
  (∃ rest, offered
           = map to_claude_tool_param (Registry.get_builtin_tools reg) ++ rest) ∧
  (∀ p, p ∈ offered →
     ∃ t, p = to_claude_tool_param t ∧
          (t ∈ Registry.get_builtin_tools reg ∨ own_tool w a t
           ∨ t ∈ Registry.get_shared_tools reg)) ∧
  (∀ t, t ∈ Registry.get_builtin_tools reg ∨ own_tool w a t
        ∨ t ∈ Registry.get_shared_tools reg →
     Registry.name t ∈ map param_name offered) ∧
  (NoDup (map Registry.name (Registry.get_builtin_tools reg)) →
   NoDup (map param_name offered)).
Proof.
  intros reg offered. subst offered. unfold get_available_tools. fold reg.
  assert (seen_ok ([], [])) as H0 by done.
  destruct (fold_offer (Registry.get_builtin_tools reg) _ H0) as [H1 E1].
  set (acc1 := foldl (λ acc t, offer t acc) ([], []) _) in *.
  cbn [fst app] in E1.
  destruct (fold_unseen (Registry.get_tool reg) (tool_ids (state a)) acc1 H1)
    as (H2 & (r2 & E2 & F2) & N2 & I2).
  unfold step in *.
  set (acc2 := foldl _ acc1 (tool_ids (state a))) in *.
  destruct (fold_unseen Some (Registry.get_shared_tools reg) acc2 H2)
    as (H3 & (r3 & E3 & F3) & N3 & I3).
  unfold step in *.
  set (acc3 := foldl _ acc2 (Registry.get_shared_tools reg)) in *.
  cbv zeta. rewrite E3, E2, E1 in *. clear E1 E2 E3.
  split; [|split; [|split]].
  - exists (r2 ++ r3). by rewrite app_assoc.
  - intros p [[Hp|Hp]%elem_of_app|Hp]%elem_of_app.
    + apply list_elem_of_fmap in Hp as (t & -> & Ht). exists t. auto.
    + destruct (F2 p Hp) as (tid & t & ? & ? & ->). exists t. split; [done|].
      right; left. by exists tid.
    + destruct (F3 p Hp) as (t' & t & ? & [= <-] & ->). exists t'. auto.
  - intros t [Ht|[(tid & Htid & Ht)|Ht]].
    + rewrite !map_app, !elem_of_app. left; left.
      rewrite <- list_fmap_compose. apply list_elem_of_fmap. by exists t.
    + rewrite map_app, elem_of_app. left. by apply (I2 tid t).
    + by apply (I3 t t).
  - intros Hnd. apply N3, N2. by rewrite <- list_fmap_compose.
Qed.

(** *** A civilization of two agents *)

Definition example_config : Config :=
  {| max_agent_depth := 10; max_agents := 50; max_loop_iterations := 20 |}.

(** The identifiers drawn: the two agents get the ids [A] and [B]. *)
Definition example_uuid4 (n : nat) : string :=
  if decide (n = 11%nat) then "A"
  else if decide (n = 12%nat) then "B"
  else "id-" +:+ pretty n.

Definition no_other_handler (h : Registry.Handler) (agent : string)
    (input : Input) (w : Civilization) : outcome string * Civilization :=
  (Ret "(no output)", w).

(** Alice and Bob, both created at depth 0. *)
Definition two_agents : Civilization :=
  let w := new_civilization example_uuid4 example_config "Example" in
  let w := (create_agent example_uuid4 "Alice" "lead" "You lead." None 0 w).2 in
  (create_agent example_uuid4 "Bob" "helper" "You help." None 0 w).2.

(** A gateway whose first reply asks to delegate to [A] and whose later
    replies end the turn. *)
Definition delegate_back : Response :=
  {| content := [ToolUseBlock "call-1" "delegate_task"
                   [("agent_id", "A"); ("message", "back to you")]];
     stop_reason := "tool_use"; input_tokens := 10; output_tokens := 5 |}.

Definition finish : Response :=
  {| content := [TextBlock "done"]; stop_reason := "end_turn";
     input_tokens := 10; output_tokens := 5 |}.

Definition example_claude (n : nat) (messages : list Turn) : outcome Response :=
  match n with
  | O => Ret delegate_back
  | S _ => Ret finish
  end.

Definition history (w : Civilization) (agent : string) : list Turn :=
  match get (_agents w) agent with
  | Some a => Memory.conversation_history (memory (state a))
  | None => []
  end.

Definition chain_of (w : Civilization) (agent : string) : list string :=
  match get (_agents w) agent with
  | Some a => _delegation_chain a
  | None => []
  end.

(** C4.  [A] delegates to [B] and [B], in its first reply, delegates back to
    [A].  The second delegation is refused and [A]'s loop is not entered: [A]
    has no conversation turn and sent no response.  [B] finishes, and both
    chains are empty afterwards.  The refusal reads [Chain: A -> A]: the chain
    held by [B] is [A] alone, the caller [B] is not in the text. *)
Theorem delegation_cycle_chain_text :
  let input := [("agent_id", "B"); ("message", "please help")] in
  let done := delegate_task example_uuid4 example_claude no_other_handler 2
                "A" input two_agents in
  let refusal := "Error: delegation cycle detected. Chain: A -> A" in
  chain_of two_agents "A" = [] ∧
  done.1 = Ok ("Response from 'Bob':" +:+ nl +:+ "done") ∧
  history done.2 "B" =
    [turn "user" (Text ("[Task delegated from 'Alice' (id: A)]" +:+ nl +:+ nl
                        +:+ "please help"));
     turn "assistant" (Blocks (content delegate_back));
     turn "user" (Results [{| tool_use_id := "call-1";
                              result_content := refusal;
                              is_error := false |}]);
     turn "assistant" (Blocks (content finish))] ∧
  refusal ≠ "Error: delegation cycle detected. Chain: A -> B -> A" ∧
  history done.2 "A" = [] ∧
  map (λ ev, (event_type ev, get (data ev) "agent_id"))
      (filter (λ ev, event_type ev = "agent_responded") (events done.2))
    = [("agent_responded", Some "B")] ∧
  chain_of done.2 "A" = [] ∧ chain_of done.2 "B" = [].
Proof. vm_compute. repeat split; discriminate. Qed.

(** The tool run by [A] in [two_agents]: the new agent is at depth 1. *)
Lemma create_agent_tool_depth_witness :
  let input := [("name", "Carol"); ("role", "analyst"); ("system_prompt", "You analyse.")] in
  let done := execute_create_agent example_uuid4 "A" input two_agents in
  ∃ a, get (_agents two_agents) "A" = Some a ∧ depth (state a) = 0 ∧
  ∃ msg new,
    done.1 = Ok msg ∧
    get (_agents done.2) (example_uuid4 (uuid_calls two_agents)) = Some new ∧
    depth (state new) = depth (state a) + 1 ∧
    created_by (state new) = Some (id (state a)).
Proof.
  intros input done. eexists. split; [reflexivity|]. split; [reflexivity|].
  refine (proj1 (proj2 (create_agent_tool_depth example_uuid4 two_agents "A" _ input _))
            _ _ _ _ _).
  - reflexivity.
  - reflexivity.
  - reflexivity.
  - by eexists.
  - by eexists.
  - by eexists.
Defined.

(** A response that calls [delegate_task] without [agent_id], and a gateway
    that gives it first and ends the turn afterwards. *)
Definition bad_call : Response :=
  {| content := [ToolUseBlock "call-9" "delegate_task" [("message", "hi")]];
     stop_reason := "tool_use"; input_tokens := 10; output_tokens := 5 |}.

Definition asks_badly (n : nat) (messages : list Turn) : outcome Response :=
  match n with
  | O => Ret bad_call
  | S _ => Ret finish
  end.

(** [delegate_task] called without [agent_id] in the first iteration of
    [A]: the handler raises [KeyError], the agent gets a result marked as an
    error as the newest turn of its memory, and the loop goes on with it to
    the answer of the second iteration. *)
Lemma tool_failure_recorded_and_fed_back_witness :
  let input := [("message", "hi")] in
  let w := before_tools asks_badly "A" bad_call two_agents in
  let callee := process_message example_uuid4 asks_badly no_other_handler 1 in
  let result := {| tool_use_id := "call-9";
                   result_content := "Error executing tool 'delegate_task': 'agent_id'";
                   is_error := true |} in
  get (Registry._handlers (tool_registry w)) "delegate_task"
    = Some (Registry.BuiltinHandler "delegate_task") ∧
  run_handler example_uuid4 no_other_handler callee
    (Registry.BuiltinHandler "delegate_task") "A" input w
    = (Exn (KeyError "agent_id"), w) ∧
  (_execute_tool example_uuid4 no_other_handler callee
     "A" "delegate_task" input "call-9" w).1 = Ok result ∧
  (∃ fed a',
     loop example_uuid4 asks_badly no_other_handler callee 1 0 "A" [] two_agents
       = loop example_uuid4 asks_badly no_other_handler callee 0 1 "A"
           [turn "assistant" (Blocks (content bad_call));
            turn "user" (Results [result])] fed ∧
     get (_agents fed) "A" = Some a' ∧
     last (Memory.conversation_history (memory (state a')))
       = Some (turn "user" (Results [result]))) ∧
  (loop example_uuid4 asks_badly no_other_handler callee 2 0 "A" [] two_agents).1
    = Ok ("done", 2%nat).
Proof.
  intros input w callee result. split; [reflexivity|]. split; [reflexivity|].
  assert (∃ a, get (_agents w) "A" = Some a) as [a Ha] by (by eexists).
  destruct (tool_failure_recorded_and_fed_back example_uuid4 asks_badly
              no_other_handler 1 w "delegate_task" input "A"
              (Registry.BuiltinHandler "delegate_task")
              (Exn (KeyError "agent_id")) w a
              eq_refl eq_refl ltac:(discriminate) Ha)
    as (_ & _ & _ & Htool & _ & Hloop & _).
  split; [exact (f_equal fst (Htool "call-9"))|].
  destruct (Hloop 0%nat 0%nat [] two_agents bad_call "call-9"
              eq_refl eq_refl eq_refl eq_refl)
    as (Hgo & (a' & Ha' & Hlast) & Hend).
  split.
  - eexists _, a'. split; [exact Hgo|]. split; [exact Ha'|].
    apply Hlast. vm_compute in Ha. injection Ha as <-. by vm_compute.
  - apply (Hend finish); [reflexivity|discriminate].
Defined.


(** A gateway that ends the turn at once. *)
Definition ends_at_once (n : nat) (messages : list Turn) : outcome Response :=
  Ret finish.

(** [A] delegates to [B], whose loop answers at once; the chain of [B] is
    empty afterwards. *)
Lemma delegation_guard_witness :
  let loop := process_message example_uuid4 ends_at_once no_other_handler 1 in
  let input := [("agent_id", "B"); ("message", "please help")] in
  let res := execute_delegate_task loop "A" input two_agents in
  chain_of two_agents "A" = [] ∧
  res.1 = Ok ("Response from 'Bob':" +:+ nl +:+ "done") ∧
  chain_of res.2 "B" = [].
Proof.
  intros loop input res. split; [reflexivity|].
  assert (∃ a, get (_agents two_agents) "A" = Some a) as [a Ha] by (by eexists).
  pose proof (delegation_guard loop "A" a input "B" "please help" two_agents
                Ha eq_refl eq_refl) as H.
  vm_compute in Ha. injection Ha as <-.
  cbv zeta in H.
  assert (∃ b, get (_agents two_agents) "B" = Some b) as [b Hb] by (by eexists).
  rewrite Hb in H. cbn [_delegation_chain] in H.
  rewrite bool_decide_eq_false_2 in H by (by intros ?%elem_of_nil).
  destruct H as (H2 & H1 & _ & Hc).
  split.
  - reflexivity.
  - unfold chain_of. fold res in Hc.
    assert (∃ t', get (_agents res.2) "B" = Some t') as [t' Ht'] by (by eexists).
    by rewrite Ht', (Hc t' Ht').
Defined.

(** The same two agents under a limit of two. *)
Definition small_config : Config :=
  {| max_agent_depth := 10; max_agents := 2; max_loop_iterations := 20 |}.

Definition crowded : Civilization :=
  let w := new_civilization example_uuid4 small_config "Crowded" in
  let w := (create_agent example_uuid4 "Alice" "lead" "You lead." None 0 w).2 in
  (create_agent example_uuid4 "Bob" "helper" "You help." None 0 w).2.

(** [create_agent] in a civilization that is full. *)
Lemma create_agent_tool_count_witness :
  let input := [("name", "Carol"); ("role", "analyst"); ("system_prompt", "You analyse.")] in
  length (_agents crowded) = 2%nat ∧ max_agents (config crowded) = 2 ∧
  execute_create_agent example_uuid4 "A" input crowded
    = (Ok "Error: civilization has reached the maximum of 2 agents.", crowded).
Proof.
  intros input. split; [reflexivity|]. split; [reflexivity|].
  refine (proj2 (proj2 (create_agent_tool_count example_uuid4 crowded "A" input _)) _ _).
  - vm_compute. discriminate.
  - reflexivity.
  - by eexists.
Defined.

(** [create_tool] without [implementation]. *)
Lemma tool_handlers_answer_in_text_witness :
  let input := [("name", "adder"); ("description", "adds"); ("parameters", "{}")] in
  (execute_create_tool example_uuid4 "A" input two_agents).1
    = Exn (KeyError "implementation") ∧
  ∃ k, KeyError "implementation" = KeyError k ∧ get input k = None.
Proof.
  intros input. split; [reflexivity|].
  refine (proj1 (tool_handlers_answer_in_text example_uuid4 "A" input two_agents
                   (KeyError "implementation") _) eq_refl).
  assert (tool_registry two_agents = Registry.new_registry example_uuid4) as ->
    by reflexivity.
  apply Registry.new_registry_consistent.
Defined.

(** A gateway that asks for a tool in every response. *)
Definition keeps_asking (n : nat) (messages : list Turn) : outcome Response :=
  Ret {| content := [ToolUseBlock "call-1" "no_such_tool" []];
         stop_reason := "tool_use"; input_tokens := 10; output_tokens := 5 |}.

(** With such a gateway the turn of [A] ends after the 20 iterations of
    [example_config], with the empty string. *)
Lemma turn_result_witness :
  let run := process_message_body example_uuid4 keeps_asking no_other_handler
               (process_message example_uuid4 keeps_asking no_other_handler 0)
               "A" "hello" two_agents in
  run.1 = Ok "" ∧
  ∃ ev, last (events run.2) = Some ev ∧
        get (data ev) "iteration_count" = Some "20".
Proof.
  intros run. split; [by vm_compute|].
  pose proof (turn_result example_uuid4 keeps_asking no_other_handler
              (process_message example_uuid4 keeps_asking no_other_handler 0)
              "A" "hello" two_agents "" run.2) as H.
  assert (process_message_body example_uuid4 keeps_asking no_other_handler
              (process_message example_uuid4 keeps_asking no_other_handler 0)
              "A" "hello" two_agents = (Ok "", run.2)) as E.
  { vm_compute. reflexivity. }
  specialize (H E).
  destruct H as (a & ev & k & _ & _ & Hlast & _ & _ & _ & Hk & Hcase).
  exists ev. split; [exact Hlast|]. rewrite Hk.
  destruct Hcase as [(c & msgs & r & Hr & Hs & _)|[_ ->]].
  - injection Hr as <-. by destruct Hs.
  - reflexivity.
Defined.

End Civ.

(** ** Persistence: Civilization.save and Civilization.load *)

Module Persistence.
Import Py Exc Civ.

(** [CivilizationState] as [model_dump(mode=json)] writes it.  The fields
    [created_at], [snapshot_tags] and [metadata] play no part here.  Writing
    the data as JSON text and parsing it back is taken to return the same
    data. *)
Record CivilizationState := {
  state_id : string;
  state_name : string;
  state_primary_agent_id : option string;
  agent_states : dict AgentState;
  tool_definitions : list Registry.ToolDefinition;
  alliances : list Alliance;
  state_creation_graph : dict (list string);
}.

(** [JsonStore]: the files of the data directory, by civilization id.  The
    index file, which loading does not read, is left out. *)
Definition JsonStore := dict CivilizationState.

Definition save_civilization (state_data : CivilizationState)
    (store : JsonStore) : JsonStore :=
  set (state_id state_data) state_data store.

Definition load_civilization (civilization_id : string) (store : JsonStore)
    : outcome CivilizationState :=
  match get store civilization_id with
  | Some state_data => Ret state_data
  | None => Raise (FileNotFoundError
                     ("No civilization found with id '" +:+ civilization_id +:+ "'"))
  end.

(** The tools [save] writes: all but the built-in ones, in the order of the
    registry. *)
Definition custom_tools (w : Civilization) : list Registry.ToolDefinition :=
  filter (λ t, Registry.scope t ≠ Registry.BUILTIN)
         (Registry.get_all_tools (tool_registry w)).

(** The state [save] dumps.  [create_agent] files every agent under the same
    key in [_agents] and in [agent_states], and the state object is shared,
    so the saved agent states are those of [_agents]. *)
Definition state_data_of (w : Civilization) : CivilizationState :=
  {| state_id := civ_id w;
     state_name := civ_name w;
     state_primary_agent_id := primary_agent_id w;
     agent_states := map (λ e, (e.1, state e.2)) (_agents w);
     tool_definitions := custom_tools w;
     alliances := values (_alliances w);
     state_creation_graph := creation_graph w |}.

(** [Civilization.save] *)
Definition save (w : Civilization) (store : JsonStore) : JsonStore :=
  save_civilization (state_data_of w) store.

(** [civ._state = civ_state] *)
Definition with_state (s : CivilizationState) (w : Civilization) : Civilization :=
  {| config := config w; civ_id := state_id s; civ_name := state_name s;
     _agents := _agents w;
     primary_agent_id := state_primary_agent_id s;
     creation_graph := state_creation_graph s;
     _alliances := _alliances w; tool_registry := tool_registry w;
     events := events w; uuid_calls := uuid_calls w; api_calls := api_calls w |}.

Definition set_alliances (f : dict Alliance → dict Alliance) (w : Civilization)
    : Civilization :=
  {| config := config w; civ_id := civ_id w; civ_name := civ_name w;
     _agents := _agents w;
     primary_agent_id := primary_agent_id w; creation_graph := creation_graph w;
     _alliances := f (_alliances w); tool_registry := tool_registry w;
     events := events w; uuid_calls := uuid_calls w; api_calls := api_calls w |}.

Definition restore_agent (w : Civilization) (e : string * AgentState) : Civilization :=
  set_agents (set e.1 {| state := e.2; _delegation_chain := [] |}) w.

(** [try: civ.tool_registry.register(tool_def) except ValueError: pass];
    [register] raises nothing else. *)
Definition restore_tool (w : Civilization) (tool_def : Registry.ToolDefinition)
    : Civilization :=
  match Registry.register tool_def (tool_registry w) with
  | (Ret _, r) => set_registry r w
  | (Raise _, _) => w
  end.

Definition restore_alliance (w : Civilization) (alliance : Alliance) : Civilization :=
  set_alliances (set (alliance_id alliance) alliance) w.

(** [Civilization.load], in a process whose identifiers are [uuid4].  The
    restore of sandbox snapshots, whose failures are ignored, is left out. *)
Definition load (uuid4 : nat → string) (cfg : Config) (civilization_id : string)
    (store : JsonStore) : outcome Civilization :=
  match load_civilization civilization_id store with
  | Raise e => Raise e
  | Ret state_data =>
      let civ := new_civilization uuid4 cfg (state_name state_data) in
      let civ := with_state state_data civ in
      let civ := foldl restore_agent civ (agent_states state_data) in
      let civ := foldl restore_tool civ (tool_definitions state_data) in
      let civ := foldl restore_alliance civ (alliances state_data) in
      Ret civ
  end.

(** [Civilization.create_alliance] *)
Definition create_alliance (uuid4 : nat → string) (nm : string)
    (members : list string) (why context creator : string) : M string :=
  aid <- fresh_uuid uuid4 ;;
  modify (set_alliances
            (set aid {| alliance_id := aid; alliance_name := nm; purpose := why;
                        agent_ids := members; shared_context := context;
                        alliance_created_by := creator |})) ;;;
  modify (emit "alliance_formed"
            [("alliance_id", aid); ("name", nm);
             ("agent_ids", String.concat ", " members); ("purpose", why)]) ;;;
  ret aid.

(** What the round trip is to preserve. *)
Definition agent_profiles (w : Civilization) : list (string * AgentState) :=
  map (λ e, (e.1, state e.2)) (_agents w).

(** *** A saved civilization

    Alice notes a fact and forms an alliance with Bob; each of them creates
    a shared tool; then Bob renames his tool to the name of Alice's. *)
Definition new_tool (nm : string) : Input :=
  [("name", nm); ("description", "a tool"); ("parameters", "{}");
   ("implementation", "print(params)")].

Definition with_tools : Civilization :=
  let w := update_agent "A"
             (set_state (set_memory (Memory.add_knowledge "key1" "value1")))
             two_agents in
  let w := (create_alliance example_uuid4 "Team" ["A"; "B"] "work" "" "A" w).2 in
  let w := (execute_create_tool example_uuid4 "A" (new_tool "alpha") w).2 in
  (execute_create_tool example_uuid4 "B" (new_tool "beta") w).2.

Definition renamed : Civilization :=
  (execute_edit_tool "B" [("tool_id", "id-15"); ("name", "alpha")] with_tools).2.

(** The identifiers of the process that loads. *)
Definition later_uuid4 (n : nat) : string := "later-" +:+ pretty n.

(** *** Dicts rebuilt key by key *)

Section Rebuild.
Context {V : Type}.

Lemma get_None_keys (d : dict V) k : get d k = None ↔ k ∉ keys d.
Proof.
  unfold keys. induction d as [|[k0 v0] d IH]; simpl.
  - split; [intros _; apply not_elem_of_nil | done].
  - rewrite not_elem_of_cons. destruct (decide (k0 = k)) as [->|Hne].
    + split; [done | intros [? _]; done].
    + rewrite IH. split; [intros; split; [congruence | done] | by intros [_ ?]].
Qed.

Lemma set_fresh (d : dict V) k v : k ∉ keys d → set k v d = d ++ [(k, v)].
Proof.
  unfold keys. induction d as [|[k0 v0] d IH]; simpl; [done|].
  rewrite not_elem_of_cons. intros [Hne Hk].
  rewrite decide_False by congruence. by rewrite IH.
Qed.

Lemma foldl_set_fresh {E} (key : E → string) (val : E → V) items (d : dict V) :
  NoDup (map key items) → Forall (λ e, key e ∉ keys d) items →
  foldl (λ d e, set (key e) (val e) d) d items
    = d ++ map (λ e, (key e, val e)) items.
Proof.
  revert d. induction items as [|e items IH]; intros d Hnd Hd; simpl.
  - by rewrite app_nil_r.
  - apply NoDup_cons in Hnd as [He Hnd]. apply Forall_cons in Hd as [Hk Hd].
    rewrite (set_fresh _ _ _ Hk), IH, <- app_assoc; [done..|].
    apply Forall_forall. intros e' He'. unfold keys. rewrite fmap_app.
    rewrite elem_of_app. intros [Hin|Hin].
    + rewrite Forall_forall in Hd. by apply (Hd e').
    + apply list_elem_of_singleton in Hin. simpl in Hin.
      apply He. rewrite <- Hin. apply list_elem_of_fmap. by exists e'.
Qed.

Lemma Forall_values_set (P : V → Prop) (d : dict V) k v :
  P v → Forall P (values d) → Forall P (values (set k v d)).
Proof.
  unfold values. intros Hv. induction d as [|[k0 v0] d IH]; simpl.
  - intros _. by apply Forall_cons.
  - intros [H0 Hd]%Forall_cons. destruct (decide (k0 = k)); simpl.
    + by apply Forall_cons.
    + apply Forall_cons; auto.
Qed.
End Rebuild.

(** *** The registry rebuilt by [load] *)

(** Every reference of the id table points at a stored object. *)
Definition sound (r : Registry.ToolRegistry) : Prop :=
  Forall (λ l, (l < length (Registry.objs r))%nat) (values (Registry._tools r)).

Lemma deref_grow (r r' : Registry.ToolRegistry) t refs :
  Registry.objs r' = Registry.objs r ++ [t] →
  Forall (λ l, (l < length (Registry.objs r))%nat) refs →
  Registry.deref r' refs = Registry.deref r refs.
Proof.
  intros Ho. unfold Registry.deref. rewrite Ho.
  induction 1 as [|l refs Hl _ IH]; simpl; [done|].
  rewrite lookup_app_l by done. unfold omap in IH. by rewrite IH.
Qed.

Lemma register_one (r : Registry.ToolRegistry) t :
  sound r →
  Registry.id t ∉ keys (Registry._tools r) →
  Registry.name t ∉ keys (Registry._tools_by_name r) →
  ∃ r', Registry.register t r = (Ret (), r') ∧ sound r' ∧
    Registry.get_all_tools r' = Registry.get_all_tools r ++ [t] ∧
    keys (Registry._tools r') = keys (Registry._tools r) ++ [Registry.id t] ∧
    keys (Registry._tools_by_name r')
      = keys (Registry._tools_by_name r) ++ [Registry.name t].
Proof.
  intros Hs Hid Hnm. unfold Registry.register, mem.
  apply get_None_keys in Hnm as Hg. rewrite Hg.
  eexists. split; [reflexivity|]. unfold sound, Registry.get_all_tools. simpl.
  rewrite (set_fresh _ _ _ Hid), (set_fresh _ _ _ Hnm).
  unfold values, keys. rewrite !fmap_app. simpl. repeat split.
  - rewrite length_app. simpl. apply Forall_app. split.
    + eapply Forall_impl; [exact Hs|]. simpl. lia.
    + apply Forall_singleton. lia.
  - unfold Registry.deref at 1. rewrite omap_app. f_equal.
    + by apply (deref_grow r _ t).
    + simpl. by rewrite lookup_app_r, Nat.sub_diag by lia.
Qed.

Lemma restore_tools (w : Civilization) ts :
  sound (tool_registry w) →
  NoDup (map Registry.id ts) → NoDup (map Registry.name ts) →
  Forall (λ t, (Registry.id t ∉ keys (Registry._tools (tool_registry w))) ∧
               (Registry.name t ∉ keys (Registry._tools_by_name (tool_registry w)))) ts →
  let w' := foldl restore_tool w ts in
  Registry.get_all_tools (tool_registry w')
    = Registry.get_all_tools (tool_registry w) ++ ts ∧
  _agents w' = _agents w ∧ _alliances w' = _alliances w ∧
  civ_name w' = civ_name w ∧ civ_id w' = civ_id w.
Proof.
  revert w. induction ts as [|t ts IH]; intros w Hs Hids Hnms Hfresh; simpl.
  - by rewrite app_nil_r.
  - apply NoDup_cons in Hids as [Hid Hids]. apply NoDup_cons in Hnms as [Hnm Hnms].
    apply Forall_cons in Hfresh as [[Hfi Hfn] Hfresh].
    destruct (register_one _ t Hs Hfi Hfn) as (r' & Hr & Hs' & Hall & Hki & Hkn).
    assert (restore_tool w t = set_registry r' w) as ->
      by (unfold restore_tool; by rewrite Hr).
    destruct (IH (set_registry r' w)) as (H1 & H2 & H3 & H4 & H5); try done.
    + simpl. rewrite Hki, Hkn. apply Forall_forall. intros t' Ht'.
      rewrite Forall_forall in Hfresh. destruct (Hfresh t' Ht') as [Hi Hn].
      rewrite !not_elem_of_app, !list_elem_of_singleton. repeat split; try done.
      * intros E. apply Hid. rewrite <- E. apply list_elem_of_fmap. by exists t'.
      * intros E. apply Hnm. rewrite <- E. apply list_elem_of_fmap. by exists t'.
    + simpl in H1. by rewrite H1, Hall, <- app_assoc.
Qed.

(** The registry a new civilization starts with, for any identifiers. *)
Definition builtin_only (K : list string) (r : Registry.ToolRegistry) : Prop :=
  sound r ∧
  Forall (λ t, Registry.scope t = Registry.BUILTIN) (Registry.objs r) ∧
  Forall (λ k, k ∈ K) (keys (Registry._tools r)).

Lemma keys_set {V} (P : string → Prop) (d : dict V) k v :
  P k → Forall P (keys d) → Forall P (keys (set k v d)).
Proof.
  unfold keys. intros Hk. induction d as [|[k0 v0] d IH]; simpl.
  - intros _. by apply Forall_cons.
  - intros [H0 Hd]%Forall_cons. destruct (decide (k0 = k)); simpl.
    + by apply Forall_cons.
    + apply Forall_cons; auto.
Qed.

Lemma register_builtins K entries r :
  Forall (λ e, e.1 ∈ K) entries → builtin_only K r →
  builtin_only K (foldl Registry._register_builtin r entries).
Proof.
  revert r. induction entries as [|[u n] entries IH]; intros r He Hr; [done|].
  apply Forall_cons in He as [Hu He]. destruct Hr as (Hs & Hb & Hk).
  apply IH; [done|]. unfold builtin_only, sound. simpl. repeat split.
  - rewrite length_app. simpl. apply Forall_values_set; [lia|].
    eapply Forall_impl; [exact Hs|]. simpl. lia.
  - apply Forall_app. split; [done|]. by apply Forall_singleton.
  - by apply keys_set.
Qed.

Lemma new_registry_builtin_only uuids :
  builtin_only (map uuids (seq 0 10)) (Registry.new_registry uuids).
Proof.
  apply register_builtins.
  - apply Forall_forall. intros [u n] Hin. by apply elem_of_zip_l in Hin.
  - repeat split; simpl; apply Forall_nil_2.
Qed.

Lemma builtin_only_custom K r :
  builtin_only K r →
  filter (λ t, Registry.scope t ≠ Registry.BUILTIN) (Registry.get_all_tools r) = [].
Proof.
  intros (Hs & Hb & _). unfold Registry.get_all_tools, Registry.deref.
  induction (values (Registry._tools r)) as [|l refs IH]; simpl; [done|].
  destruct (Registry.objs r !! l) as [t|] eqn:Hl; simpl; [|done].
  rewrite Forall_forall in Hb.
  rewrite filter_cons_False; [done|].
  intros Hne. apply Hne, Hb. by eapply list_elem_of_lookup_2.
Qed.

(** *** The agents and alliances rebuilt by [load] *)

Lemma restore_agents (w : Civilization) l :
  let w' := foldl restore_agent w l in
  _agents w' = foldl (λ d e, set e.1 {| state := e.2; _delegation_chain := [] |} d)
                     (_agents w) l ∧
  tool_registry w' = tool_registry w ∧ _alliances w' = _alliances w ∧
  civ_name w' = civ_name w ∧ civ_id w' = civ_id w.
Proof.
  revert w. induction l as [|e l IH]; intros w; [done|].
  destruct (IH (restore_agent w e)) as (H1 & H2 & H3 & H4 & H5).
  cbn [foldl]. by rewrite H1, H2, H3, H4, H5.
Qed.

Lemma restore_alliances (w : Civilization) l :
  let w' := foldl restore_alliance w l in
  _alliances w' = foldl (λ d al, set (alliance_id al) al d) (_alliances w) l ∧
  tool_registry w' = tool_registry w ∧ _agents w' = _agents w ∧
  civ_name w' = civ_name w ∧ civ_id w' = civ_id w.
Proof.
  revert w. induction l as [|e l IH]; intros w; [done|].
  destruct (IH (restore_alliance w e)) as (H1 & H2 & H3 & H4 & H5).
  cbn [foldl]. by rewrite H1, H2, H3, H4, H5.
Qed.

Lemma filter_idem {A} (P : A → Prop) `{∀ x, Decision (P x)} (l : list A) :
  filter P (filter P l) = filter P l.
Proof.
  induction l as [|x l IH]; [done|]. destruct (decide (P x)) as [Hx|Hx].
  - rewrite (filter_cons_True P x l Hx), filter_cons_True by done. by rewrite IH.
  - by rewrite filter_cons_False.
Qed.

(** *** The round trip *)

(** C9, as the code has it.  When the ids and the names of the saved tools
    are pairwise distinct and differ from those of the built-in tools of the
    loading process, and the dicts of agents and alliances are keyed as
    [create_agent] and [create_alliance] key them, [load] after [save]
    succeeds and restores the name of the civilization, the agents under
    their ids with their whole states (name, role and knowledge among them),
    the alliances with their members, and the tools that are not built in. *)
Theorem save_load_round_trip uuid4 cfg (w : Civilization) store :
  NoDup (keys (_agents w)) →
  NoDup (keys (_alliances w)) →
  Forall (λ e, alliance_id e.2 = e.1) (_alliances w) →
  NoDup (map Registry.id (custom_tools w)) →
  NoDup (map Registry.name (custom_tools w)) →
  Forall (λ t, (Registry.id t ∉ map uuid4 (seq 0 10)) ∧
               (Registry.name t ∉ Registry.BUILTIN_NAMES)) (custom_tools w) →
  ∃ w', load uuid4 cfg (civ_id w) (save w store) = Ret w' ∧
    civ_id w' = civ_id w ∧ civ_name w' = civ_name w ∧
    agent_profiles w' = agent_profiles w ∧
    _alliances w' = _alliances w ∧
    custom_tools w' = custom_tools w.
Proof.
  intros Hag Hal Halid Hids Hnms Hfresh.
  unfold load, save, save_civilization, load_civilization.
  change (state_id (state_data_of w)) with (civ_id w). rewrite get_set_eq.
  eexists. split; [reflexivity|].
  set (w0 := with_state (state_data_of w)
               (new_civilization uuid4 cfg (state_name (state_data_of w)))).
  set (w1 := foldl restore_agent w0 (agent_states (state_data_of w))).
  set (w2 := foldl restore_tool w1 (tool_definitions (state_data_of w))).
  destruct (restore_agents w0 (agent_states (state_data_of w)))
    as (A1 & A2 & A3 & A4 & A5). fold w1 in A1, A2, A3, A4, A5.
  pose proof (new_registry_builtin_only uuid4) as Hb.
  change (Registry.new_registry uuid4) with (tool_registry w0) in Hb.
  rewrite <- A2 in Hb.
  destruct (restore_tools w1 (custom_tools w)) as (T1 & T2 & T3 & T4 & T5);
    [by destruct Hb|done|done| |].
  { destruct Hb as (_ & _ & Hk). rewrite Forall_forall in Hk.
    eapply Forall_impl; [exact Hfresh|]. intros t [Hi Hn]. split.
    - intros Hin. by apply Hi, Hk.
    - by rewrite A2. }
  change (foldl restore_tool w1 (custom_tools w)) with w2 in T1, T2, T3, T4, T5.
  destruct (restore_alliances w2 (alliances (state_data_of w)))
    as (L1 & L2 & L3 & L4 & L5).
  repeat split.
  - by rewrite L5, T5, A5.
  - by rewrite L4, T4, A4.
  - unfold agent_profiles. rewrite L3, T2, A1.
    change (_agents w0) with (@nil (string * Agent)).
    rewrite (foldl_set_fresh fst (λ e, {| state := e.2; _delegation_chain := [] |})).
    + simpl. rewrite !map_map. simpl. apply map_ext. by intros [k a].
    + simpl. by rewrite map_map.
    + apply Forall_forall. intros e _. apply not_elem_of_nil.
  - rewrite L1, T3, A3. change (_alliances w0) with (@nil (string * Alliance)).
    rewrite (foldl_set_fresh alliance_id (λ al, al)).
    + simpl. unfold values. clear -Halid.
      induction Halid as [|[k al] d Hk _ IH]; simpl; [done|].
      simpl in Hk. rewrite Hk. f_equal. exact IH.
    + simpl. unfold values, keys in *. replace (map alliance_id (_alliances w).*2)
        with ((_alliances w).*1); [done|].
      clear -Halid. induction Halid as [|[k al] d Hk _ IH]; simpl; [done|].
      simpl in Hk. rewrite Hk. f_equal. exact IH.
    + apply Forall_forall. intros e _. apply not_elem_of_nil.
  - unfold custom_tools at 1. rewrite L2, T1, filter_app.
    rewrite (builtin_only_custom _ _ Hb). simpl.
    apply filter_idem.
Qed.

(** The civilization in which both tools still have their own names is
    restored by the round trip. *)
Lemma save_load_round_trip_witness :
  map Registry.name (custom_tools with_tools) = ["alpha"; "beta"] ∧
  length (_agents with_tools) = 2%nat ∧ length (_alliances with_tools) = 1%nat ∧
  ∃ w', load later_uuid4 example_config (civ_id with_tools) (save with_tools []) = Ret w' ∧
    civ_id w' = civ_id with_tools ∧ civ_name w' = civ_name with_tools ∧
    agent_profiles w' = agent_profiles with_tools ∧
    _alliances w' = _alliances with_tools ∧
    custom_tools w' = custom_tools with_tools.
Proof.
  split; [reflexivity|]. split; [reflexivity|]. split; [reflexivity|].
  apply save_load_round_trip; apply (bool_decide_unpack _); by vm_compute.
Defined.

(** The claim C9 as it is written fails here.  After Bob has renamed his
    tool to the name of Alice's, the registry holds two tools named [alpha]
    and [save] writes both.  [load] registers
    them one by one, the second registration is refused for its name and the
    refusal is ignored: the agents and the alliance come back, the tool
    [id-15] does not. *)
Theorem save_load_loses_renamed_tool :
  let label := λ t, (Registry.id t, Registry.name t) in
  map label (custom_tools with_tools) = [("id-14", "alpha"); ("id-15", "beta")] ∧
  map label (custom_tools renamed) = [("id-14", "alpha"); ("id-15", "alpha")] ∧
  map label (tool_definitions (state_data_of renamed))
    = [("id-14", "alpha"); ("id-15", "alpha")] ∧
  ∃ w', load later_uuid4 example_config (civ_id renamed) (save renamed []) = Ret w' ∧
    civ_name w' = civ_name renamed ∧
    agent_profiles w' = agent_profiles renamed ∧
    _alliances w' = _alliances renamed ∧
    map label (custom_tools w') = [("id-14", "alpha")] ∧
    Registry.get_tool (tool_registry w') "id-15" = None ∧
    custom_tools w' ≠ custom_tools renamed.
Proof.
  repeat split; try reflexivity.
  eexists. repeat split; try reflexivity. by vm_compute.
Qed.

End Persistence.

(** ** core/events.py *)

Module Events.
Import Py Exc Civ.

Section Bus.

(** The handlers are callables of the host program.  [call h event s] is what
    calling [h] does to the state [s] of that program: it returns or raises.
    A handler is taken not to register or remove handlers while it runs. *)
Context {Callable S : Type} `{EqDecision Callable}.
Variable call : Callable → CivilizationEvent → S → outcome () * S.

Record EventBus := {
  _handlers : dict (list Callable);
  _history : list CivilizationEvent;
  _max_history : Z;
}.

(** [EventBus(max_history)] *)
Definition new_bus (max_history : Z) : EventBus :=
  {| _handlers := []; _history := []; _max_history := max_history |}.

(** [on]: the handler list of a [defaultdict] is created on first use. *)
Definition on (event_type : string) (handler : Callable) (b : EventBus) : EventBus :=
  {| _handlers := set event_type
                    (default [] (get (_handlers b) event_type) ++ [handler])
                    (_handlers b);
     _history := _history b; _max_history := _max_history b |}.

(** [list.remove(x)]: the first occurrence goes. *)
Fixpoint remove_first (x : Callable) (l : list Callable) : list Callable :=
  match l with
  | [] => []
  | y :: l' => if decide (y = x) then l' else y :: remove_first x l'
  end.

Definition off (event_type : string) (handler : Callable) (b : EventBus) : EventBus :=
  if bool_decide (handler ∈ default [] (get (_handlers b) event_type)) then
    {| _handlers := set event_type
                      (remove_first handler (default [] (get (_handlers b) event_type)))
                      (_handlers b);
       _history := _history b; _max_history := _max_history b |}
  else b.

(** [for handler in handlers: handler(event)]: the first exception ends the
    loop and leaves [emit]. *)
Fixpoint call_all (hs : list Callable) (event : CivilizationEvent) (s : S)
    : outcome () * S :=
  match hs with
  | [] => (Ret (), s)
  | h :: hs' =>
      match call h event s with
      | (Ret _, s') => call_all hs' event s'
      | (Raise e, s') => (Raise e, s')
      end
  end.

(** [EventBus.emit] *)
Definition emit (event_type : string) (data : dict string) (b : EventBus) (s : S)
    : outcome () * (EventBus * S) :=
  let event := {| event_type := event_type; data := data |} in
  let h := _history b ++ [event] in
  let h := if Z.of_nat (length h) >? _max_history b
           then slice_from (- _max_history b) h else h in
  let b := {| _handlers := _handlers b; _history := h;
              _max_history := _max_history b |} in
  let '(o, s) := call_all (default [] (get (_handlers b) event_type)) event s in
  (o, (b, s)).

(** [get_recent_events] and [get_events_by_type] *)
Definition get_recent_events (n : Z) (b : EventBus) : list CivilizationEvent :=
  slice_from (- n) (_history b).

Definition get_events_by_type (ty : string) (n : Z) (b : EventBus)
    : list CivilizationEvent :=
  slice_from (- n) (filter (λ e, event_type e = ty) (_history b)).

(** X9.  With a bound of at least one event, [emit] stores the event as the
    newest of the history and keeps the most recent [max_history] events,
    whether the handlers return or one of them raises; the handlers and the
    bound stay as they were. *)
Theorem emit_keeps_recent ty d (b : EventBus) (s : S) :
  1 ≤ _max_history b →
  let event := {| event_type := ty; data := d |} in
  let b' := (emit ty d b s).2.1 in
  _history b' = lastn (Z.to_nat (_max_history b)) (_history b ++ [event]) ∧
  last (_history b') = Some event ∧
  Z.of_nat (length (_history b')) ≤ _max_history b ∧
  _handlers b' = _handlers b ∧ _max_history b' = _max_history b.
Proof.
  intros Hmax event b'.
  assert (_history b' = lastn (Z.to_nat (_max_history b)) (_history b ++ [event])
          ∧ _handlers b' = _handlers b ∧ _max_history b' = _max_history b)
    as (Hh & Hhs & Hm).
  { subst b'. unfold emit. fold event. simpl.
    destruct (call_all _ _ _) as [o s']. simpl. split; [|done].
    destruct (Z.gtb_spec (Z.of_nat (length (_history b ++ [event])))
                (_max_history b)) as [Hgt|Hle].
    - by apply slice_from_lastn; lia.
    - rewrite lastn_all; [done|lia]. }
  rewrite Hh. repeat split; try done.
  - apply lastn_snoc_last. lia.
  - rewrite lastn_length. lia.
Qed.

(** X10.  [get_events_by_type] returns events of the type asked for, in the
    order of the history; for a positive [n] they are the [n] most recent of
    that type, or all of them when there are fewer, and for [n = 0] they are
    all events of that type. *)
Theorem events_by_type ty (n : Z) (b : EventBus) :
  0 ≤ n →
  let matching := filter (λ e, event_type e = ty) (_history b) in
  let found := get_events_by_type ty n b in
  Forall (λ e, event_type e = ty) found ∧
  found `suffix_of` matching ∧
  found `sublist_of` _history b ∧
  (0 < n → length found = Nat.min (Z.to_nat n) (length matching)) ∧
  (n = 0 → found = matching).
Proof.
  intros Hn matching found.
  assert (found `suffix_of` matching) as Hsuf
    by (subst found; unfold get_events_by_type, slice_from; apply suffix_drop).
  split; [|split; [done|split; [|split]]].
  - apply Forall_forall. intros e He.
    assert (e ∈ matching) as Hin
      by (destruct Hsuf as [k ->]; apply elem_of_app; by right).
    by apply list_elem_of_filter in Hin as [? _].
  - transitivity matching; [|apply sublist_filter].
    destruct Hsuf as [k ->]. apply sublist_inserts_l. reflexivity.
  - intros Hpos. subst found. unfold get_events_by_type. fold matching.
    by rewrite slice_from_lastn, lastn_length.
  - intros ->. apply slice_from_minus_zero.
Qed.

End Bus.

(** A bus bounded at two events whose handler for [ping] raises. *)
Definition ping (n : string) : CivilizationEvent :=
  {| event_type := "ping"; data := [("n", n)] |}.

Definition failing_handler (h : nat) (_ : CivilizationEvent) (s : ())
    : outcome () * () := (Raise (RuntimeError "handler failed"), s).

Definition small_bus : EventBus :=
  {| _handlers := [("ping", [0%nat])];
     _history := [ping "1"; {| event_type := "pong"; data := [] |}];
     _max_history := 2 |}.

Lemma emit_keeps_recent_witness :
  (emit failing_handler "ping" [("n", "2")] small_bus ()).1
    = Raise (RuntimeError "handler failed") ∧
  _history (emit failing_handler "ping" [("n", "2")] small_bus ()).2.1
    = [{| event_type := "pong"; data := [] |}; ping "2"].
Proof.
  split; [reflexivity|].
  refine (proj1 (emit_keeps_recent failing_handler "ping" [("n", "2")]
                   small_bus () _)).
  simpl. lia.
Defined.

Lemma events_by_type_witness :
  get_events_by_type "ping" 1
    (emit failing_handler "ping" [("n", "2")]
       {| _handlers := []; _history := [ping "1"]; _max_history := 5 |} ()).2.1
    = [ping "2"] ∧
  get_events_by_type "ping" 0
    (emit failing_handler "ping" [("n", "2")]
       {| _handlers := []; _history := [ping "1"]; _max_history := 5 |} ()).2.1
    = [ping "1"; ping "2"].
Proof.
  split; [reflexivity|].
  refine (proj2 (proj2 (proj2 (proj2
            (events_by_type "ping" 0
               (emit failing_handler "ping" [("n", "2")]
                  {| _handlers := []; _history := [ping "1"]; _max_history := 5 |}
                  ()).2.1 _)))) eq_refl).
  lia.
Defined.

(** The bus of a civilization has no handler registered and the default
    bound; [Civ.emit] is its [emit]. *)
Lemma civilization_emit ty d (w : Civilization) :
  events (Civ.emit ty d w)
    = _history (emit (Callable := Empty_set) (S := ())
                  (λ h _ _, match h with end) ty d
                  {| _handlers := []; _history := events w; _max_history := 1000 |}
                  ()).2.1.
Proof.
  unfold Civ.emit, emit. simpl.
  destruct (Nat.ltb_spec 1000 (length (events w ++ [{| event_type := ty; data := d |}])));
    destruct (Z.gtb_spec (Z.of_nat (length (events w ++ [{| event_type := ty; data := d |}]))) 1000);
    try done; lia.
Qed.

End Events.

(** ** storage/json_store.py *)

Module Store.
Import Py Exc Civ Persistence.

(** An entry of [index.json]. *)
Record IndexEntry := {
  entry_id : string;
  entry_name : string;
  entry_created_at : string;
  agent_count : nat;
  updated_at : string;
}.

(** What a JSON file of the store holds: the state of a civilization, or
    the list of the index. *)
Inductive Doc :=
| StateDoc (state_data : CivilizationState)
| IndexDoc (entries : list IndexEntry).

(** The files the store reads and writes, each under the place it has in
    the file system. *)
Definition DataDir := dict Doc.

Definition empty_dir : DataDir := [].

(** What [e["id"]] raises when [e] is a [str] (the text of Python 3.11
    and later; earlier versions stop after [integers]). *)
Definition str_index_error : exc :=
  TypeError "string indices must be integers, not 'str'".

Section Files.

(** [created_at] of a saved state, a field the state record leaves out. *)
Variable created_at : CivilizationState → string.

(** The place the path [data_dir / f"{id}.json"] leads to.  The store
    builds the path from the id as it is given: two ids can lead to one
    place ([x] and [./x]), an id can lead to the index file ([index]), and a
    path through a directory that does not exist leads nowhere.  The store
    makes no directory but the data directory itself. *)
Variable locate : string → option string.

(** The place of [data_dir / "index.json"]. *)
Variable index_file : string.

Definition summary (state_data : CivilizationState) (now : string) : IndexEntry :=
  {| entry_id := state_id state_data;
     entry_name := state_name state_data;
     entry_created_at := created_at state_data;
     agent_count := length (agent_states state_data);
     updated_at := now |}.

(** The upsert of [_update_index]. *)
Definition upsert (entry : IndexEntry) (index : list IndexEntry) : list IndexEntry :=
  match list_find (λ e, entry_id e = entry_id entry) index with
  | Some (existing_idx, _) => <[existing_idx := entry]> index
  | None => index ++ [entry]
  end.

(** [_update_index]; [now] is the time of the call.  When the index file
    holds a state, the search runs over the keys of its dict and [e["id"]]
    on a key raises [TypeError]. *)
Definition _update_index (state_data : CivilizationState) (now : string)
    (d : DataDir) : outcome () * DataDir :=
  let write index :=
    (Ret (), set index_file (IndexDoc (upsert (summary state_data now) index)) d) in
  match get d index_file with
  | None => write []
  | Some (IndexDoc index) => write index
  | Some (StateDoc _) =>
      (Raise str_index_error, d)
  end.

(** [JsonStore.save_civilization]: the result is the path written. *)
Definition save_civilization (state_data : CivilizationState) (now : string)
    (d : DataDir) : outcome string * DataDir :=
  match locate (state_id state_data) with
  | None => (Raise (FileNotFoundError "No such file or directory"), d)
  | Some filepath =>
      let d := set filepath (StateDoc state_data) d in
      match _update_index state_data now d with
      | (Ret _, d) => (Ret filepath, d)
      | (Raise e, d) => (Raise e, d)
      end
  end.

(** [filepath.exists()] and [filepath.read_text()] *)
Definition read (civilization_id : string) (d : DataDir) : option Doc :=
  filepath ← locate civilization_id; get d filepath.

(** [JsonStore.load_civilization]: what the file holds, parsed. *)
Definition load_civilization (civilization_id : string) (d : DataDir)
    : outcome Doc :=
  match read civilization_id d with
  | Some doc => Ret doc
  | None => Raise (FileNotFoundError
                     ("No civilization found with id '" +:+ civilization_id +:+ "'"))
  end.

(** [JsonStore.list_civilizations]: what the index file holds. *)
Definition list_civilizations (d : DataDir) : Doc :=
  default (IndexDoc []) (get d index_file).

(** [JsonStore.delete_civilization] *)
Definition delete_civilization (civilization_id : string) (d : DataDir)
    : outcome () * DataDir :=
  let d := match read civilization_id d, locate civilization_id with
           | Some _, Some filepath => del filepath d
           | _, _ => d
           end in
  match get d index_file with
  | None => (Ret (), d)
  | Some (IndexDoc index) =>
      (Ret (),
       set index_file
         (IndexDoc (filter (λ e, entry_id e ≠ civilization_id) index)) d)
  | Some (StateDoc _) =>
      (Raise str_index_error, d)
  end.

(** The calls that change the files. *)
Inductive call :=
| Save (state_data : CivilizationState) (now : string)
| Delete (civilization_id : string).

Definition call_id (c : call) : string :=
  match c with
  | Save state_data _ => state_id state_data
  | Delete civilization_id => civilization_id
  end.

(** The files after the call, whether it returned or raised. *)
Definition step (d : DataDir) (c : call) : DataDir :=
  match c with
  | Save state_data now => (save_civilization state_data now d).2
  | Delete civilization_id => (delete_civilization civilization_id d).2
  end.

(** The id leads to a file of its own, not the index file. *)
Definition own_file (k : string) : Prop :=
  ∃ f, locate k = Some f ∧ f ≠ index_file.

(** Different ids lead to different files. *)
Definition apart (ks : list string) : Prop :=
  ∀ a b, a ∈ ks → b ∈ ks → locate a = locate b → a = b.

(** The entry describes the saved state. *)
Definition describes (e : IndexEntry) (st : CivilizationState) : Prop :=
  state_id st = entry_id e ∧ entry_name e = state_name st ∧
  entry_created_at e = created_at st ∧
  agent_count e = length (agent_states st).

(** The index [entries] and the files agree, for ids among [used]. *)
Definition agree (used : list string) (entries : list IndexEntry) (d : DataDir)
    : Prop :=
  list_civilizations d = IndexDoc entries ∧
  (get d index_file = None → entries = []) ∧
  NoDup (entry_id <$> entries) ∧
  (∀ e, e ∈ entries →
     entry_id e ∈ used ∧
     ∃ f st, locate (entry_id e) = Some f ∧ get d f = Some (StateDoc st) ∧
             describes e st) ∧
  (∀ f doc, f ≠ index_file → get d f = Some doc →
     ∃ e, e ∈ entries ∧ locate (entry_id e) = Some f).

Lemma upsert_ids entry index :
  NoDup (entry_id <$> index) →
  NoDup (entry_id <$> upsert entry index) ∧
  (∀ e, e ∈ upsert entry index ↔
        e = entry ∨ (e ∈ index ∧ entry_id e ≠ entry_id entry)).
Proof.
  intros Hnd. unfold upsert.
  destruct (list_find _ index) as [[i e0]|] eqn:Hfind.
  - apply list_find_Some in Hfind as (Hi & Hid & _).
    assert (entry_id <$> <[i := entry]> index = entry_id <$> index) as Hids.
    { rewrite list_fmap_insert. apply list_insert_id.
      rewrite list_lookup_fmap, Hi. simpl. by rewrite Hid. }
    rewrite Hids. split; [done|]. intros e. split.
    + intros He. apply list_elem_of_lookup in He as [j Hj].
      apply list_lookup_insert_Some in Hj as [(-> & <- & _)|[Hne Hj]]; [by left|].
      right. split; [by eapply list_elem_of_lookup_2|].
      intros E. apply Hne. eapply NoDup_lookup; [exact Hnd|..].
      * rewrite list_lookup_fmap, Hi. simpl. by rewrite Hid.
      * rewrite list_lookup_fmap, Hj. simpl. by rewrite E.
    + intros [->|[He Hne]].
      * apply list_elem_of_lookup. exists i. apply list_lookup_insert_eq.
        by eapply lookup_lt_Some.
      * apply list_elem_of_lookup in He as [j Hj].
        apply list_elem_of_lookup. exists j.
        rewrite list_lookup_insert_ne; [done|]. intros ->.
        rewrite Hi in Hj. injection Hj as <-. by apply Hne.
  - apply list_find_None in Hfind. rewrite Forall_forall in Hfind.
    rewrite fmap_app. simpl. split.
    + apply NoDup_app. split; [done|]. split; [|apply NoDup_singleton].
      intros x Hx ->%list_elem_of_singleton.
      apply list_elem_of_fmap in Hx as (e & He & Hin). by apply (Hfind e).
    + intros e. rewrite elem_of_app, list_elem_of_singleton. split.
      * intros [He| ->]; [|by left]. right. split; [done|]. by apply Hfind.
      * intros [->|[He _]]; [by right|by left].
Qed.

Lemma save_agree used entries st now d :
  apart used → state_id st ∈ used → own_file (state_id st) →
  agree used entries d →
  ∃ entries', agree used entries' (save_civilization st now d).2.
Proof.
  intros Hap Hin (f & Hf & Hfi) (Hlist & Hnone & Hnd & Hix & Hfiles).
  exists (upsert (summary st now) entries).
  destruct (upsert_ids (summary st now) entries Hnd) as [Hnd' Hmem].
  change (entry_id (summary st now)) with (state_id st) in Hmem.
  assert (get (set f (StateDoc st) d) index_file
            = match get d index_file with
              | Some doc => Some doc | None => None end) as Hsame
    by (rewrite get_set_ne by done; by destruct (get d index_file)).
  assert ((save_civilization st now d).2
            = set index_file (IndexDoc (upsert (summary st now) entries))
                (set f (StateDoc st) d)) as ->.
  { unfold save_civilization, _update_index. rewrite Hf, Hsame.
    unfold list_civilizations in Hlist.
    destruct (get d index_file) as [[?|ix]|]; simpl in *; [done| |].
    - by injection Hlist as ->.
    - by rewrite (Hnone eq_refl). }
  unfold agree, list_civilizations. rewrite get_set_eq. simpl.
  split; [done|]. split; [done|]. split; [done|]. split.
  - intros e [->|[He Hne]]%Hmem.
    + split; [done|]. exists f, st. split; [done|].
      split; [|done]. rewrite get_set_ne by done. by rewrite get_set_eq.
    + destruct (Hix e He) as (Hu & f' & st' & Hf' & Hg & Hd).
      split; [done|]. exists f', st'. split; [done|]. split; [|done].
      assert (f' ≠ index_file) as Hfi'.
      { intros ->. unfold list_civilizations in Hlist. by rewrite Hg in Hlist. }
      rewrite get_set_ne by done. rewrite get_set_ne; [done|].
      intros <-. apply Hne. apply Hap; [done..|]. by rewrite Hf, Hf'.
  - intros f' doc Hfi'. rewrite get_set_ne by done. rewrite get_set.
    destruct (decide (f = f')) as [<-|Hne].
    + intros _. exists (summary st now). split; [|done]. apply Hmem. by left.
    + intros Hg. destruct (Hfiles f' doc Hfi' Hg) as (e & He & Hl).
      exists e. split; [|done]. apply Hmem. right. split; [done|].
      simpl. intros E. rewrite E, Hf in Hl. by injection Hl.
Qed.

Lemma delete_agree used entries k d :
  apart used → k ∈ used → own_file k →
  agree used entries d →
  ∃ entries', agree used entries' (delete_civilization k d).2.
Proof.
  intros Hap Hin (f & Hf & Hfi) (Hlist & Hnone & Hnd & Hix & Hfiles).
  exists (filter (λ e, entry_id e ≠ k) entries).
  set (d1 := match read k d, locate k with
             | Some _, Some filepath => del filepath d
             | _, _ => d
             end).
  assert (∀ f', get d1 f' = if decide (f = f') then None else get d f') as Hd1.
  { intros f'. subst d1. unfold read. rewrite Hf. simpl.
    destruct (get d f) eqn:E.
    - by rewrite get_del.
    - destruct (decide (f = f')) as [<-|]; done. }
  assert (get d1 index_file = get d index_file) as Hsame
    by (by rewrite Hd1, decide_False).
  assert (NoDup (entry_id <$> filter (λ e, entry_id e ≠ k) entries)) as Hnd'.
  { clear -Hnd. induction entries as [|e ix IH]; [done|].
    apply NoDup_cons in Hnd as [He Hnd]. rewrite filter_cons.
    destruct (decide _); [|by apply IH]. simpl. apply NoDup_cons.
    split; [|by apply IH]. intros Hin. apply He.
    apply list_elem_of_fmap in Hin as (e' & -> & Hin).
    apply list_elem_of_filter in Hin as [_ Hin].
    apply list_elem_of_fmap. by exists e'. }
  assert (∀ e, e ∈ filter (λ e, entry_id e ≠ k) entries →
            entry_id e ∈ used ∧
            ∃ f' st, locate (entry_id e) = Some f' ∧ f' ≠ index_file ∧
                     get d1 f' = Some (StateDoc st) ∧ describes e st) as Hix'.
  { intros e [Hne He]%list_elem_of_filter.
    destruct (Hix e He) as (Hu & f' & st & Hf' & Hg & Hd).
    split; [done|]. exists f', st. split; [done|].
    assert (f' ≠ index_file) as Hfi'.
    { intros ->. unfold list_civilizations in Hlist. by rewrite Hg in Hlist. }
    split; [done|]. split; [|done]. rewrite Hd1, decide_False; [done|].
    intros <-. apply Hne. apply Hap; [done..|]. by rewrite Hf, Hf'. }
  assert (∀ f' doc, f' ≠ index_file → get d1 f' = Some doc →
            ∃ e, e ∈ filter (λ e, entry_id e ≠ k) entries
                 ∧ locate (entry_id e) = Some f') as Hfiles'.
  { intros f' doc Hfi'. rewrite Hd1. destruct (decide (f = f')) as [|Hne]; [done|].
    intros Hg. destruct (Hfiles f' doc Hfi' Hg) as (e & He & Hl).
    exists e. split; [|done]. apply list_elem_of_filter. split; [|done].
    intros E. rewrite E, Hf in Hl. by injection Hl. }
  unfold delete_civilization. fold d1. rewrite Hsame.
  unfold list_civilizations in Hlist.
  destruct (get d index_file) as [[?|ix]|] eqn:Hi; simpl in *; [done| |].
  - injection Hlist as ->. unfold agree, list_civilizations. rewrite get_set_eq.
    simpl. split; [done|]. split; [done|]. split; [done|]. split.
    + intros e He. destruct (Hix' e He) as (Hu & f' & st & Hf' & Hfi' & Hg & Hd).
      split; [done|]. exists f', st. by rewrite get_set_ne.
    + intros f' doc Hfi'. rewrite get_set_ne by done. by apply Hfiles'.
  - rewrite (Hnone eq_refl) in *. unfold agree, list_civilizations.
    rewrite Hsame. simpl. split; [done|]. split; [done|]. split; [done|].
    split; [by intros e ?%elem_of_nil|]. done.
Qed.

Lemma run_agree (calls : list call) :
  Forall (λ c, own_file (call_id c)) calls → apart (call_id <$> calls) →
  ∃ entries, agree (call_id <$> calls) entries (foldl step empty_dir calls).
Proof.
  intros Hown Hap.
  assert (∀ pre, pre `prefix_of` calls →
            ∃ entries, agree (call_id <$> calls) entries (foldl step empty_dir pre))
    as H; [|by apply H].
  intros pre. induction pre as [|c pre IH] using rev_ind; intros Hpre.
  - exists []. split; [done|]. split; [done|]. split; [apply NoDup_nil_2|].
    split; [by intros ? ?%elem_of_nil|done].
  - destruct IH as [entries IH]; [by etrans; [apply prefix_app_r|]|].
    assert (c ∈ calls) as Hc.
    { destruct Hpre as [rest ->]. rewrite !elem_of_app, list_elem_of_singleton. auto. }
    assert (call_id c ∈ call_id <$> calls) as Hin
      by (apply list_elem_of_fmap; by exists c).
    rewrite Forall_forall in Hown. specialize (Hown c Hc).
    rewrite foldl_app. simpl. destruct c as [st now|k]; simpl in *.
    + by apply (save_agree _ entries).
    + by apply (delete_agree _ entries).
Qed.

(** X11.  After any calls of [save_civilization] and [delete_civilization]
    on new files, with ids that each lead to a file of their own, different
    ids to different files: the index lists each saved civilization once; a
    [load_civilization] finds a state exactly when a listed id leads to the
    same file, so for the ids of the calls exactly when the id is listed;
    and each entry gives the name and the number of agents of the state
    that loading its id returns. *)
Theorem index_agrees_with_files (calls : list call) :
  Forall (λ c, own_file (call_id c)) calls → apart (call_id <$> calls) →
  let d := foldl step empty_dir calls in
  ∃ entries,
    list_civilizations d = IndexDoc entries ∧
    NoDup (entry_id <$> entries) ∧
    (∀ k f, locate k = Some f → f ≠ index_file →
       (∃ st, load_civilization k d = Ret (StateDoc st)) ↔
       ∃ e, e ∈ entries ∧ locate (entry_id e) = Some f) ∧
    (∀ k, k ∈ call_id <$> calls →
       k ∈ entry_id <$> entries ↔ ∃ st, load_civilization k d = Ret (StateDoc st)) ∧
    (∀ e, e ∈ entries →
       ∃ st, load_civilization (entry_id e) d = Ret (StateDoc st) ∧
             state_id st = entry_id e ∧ entry_name e = state_name st ∧
             agent_count e = length (agent_states st)).
Proof.
  intros Hown Hap d.
  destruct (run_agree calls Hown Hap) as (entries & Hlist & Hnone & Hnd & Hix & Hfiles).
  fold d in Hlist, Hnone, Hix, Hfiles.
  assert (∀ k f, locate k = Some f → f ≠ index_file →
            (∃ st, load_civilization k d = Ret (StateDoc st)) ↔
            ∃ e, e ∈ entries ∧ locate (entry_id e) = Some f) as Hload.
  { intros k f Hf Hfi. unfold load_civilization, read. rewrite Hf. simpl. split.
    - intros [st Hst]. destruct (get d f) as [doc|] eqn:E; [|done].
      by apply (Hfiles f doc).
    - intros (e & He & Hl). destruct (Hix e He) as (_ & f' & st & Hf' & Hg & _).
      rewrite Hl in Hf'. injection Hf' as <-. rewrite Hg. by exists st. }
  exists entries. split; [done|]. split; [done|]. split; [done|]. split.
  - intros k Hk. rewrite Forall_forall in Hown.
    apply list_elem_of_fmap in Hk as (c & -> & Hc).
    destruct (Hown c Hc) as (f & Hf & Hfi). rewrite (Hload _ f Hf Hfi). split.
    + intros (e & He & Hin)%list_elem_of_fmap. exists e. split; [done|].
      by rewrite <- He.
    + intros (e & He & Hl). apply list_elem_of_fmap. exists e. split; [|done].
      apply Hap; [apply list_elem_of_fmap; by exists c|by apply Hix|].
      by rewrite Hf, Hl.
  - intros e He. destruct (Hix e He) as (_ & f & st & Hf & Hg & Hid & Hname & _ & Hcount).
    exists st. unfold load_civilization, read. rewrite Hf. simpl. by rewrite Hg.
Qed.

(** X12.  [load_civilization] returns what the last [save_civilization] of
    that id wrote, whatever was saved and deleted in between under ids that
    lead to other files, and raises [FileNotFoundError] once the
    civilization is deleted. *)
Theorem load_after_save st now (calls : list call) (d : DataDir) f :
  locate (state_id st) = Some f → f ≠ index_file →
  Forall (λ c, locate (call_id c) ≠ Some f) calls →
  let d' := foldl step (save_civilization st now d).2 calls in
  load_civilization (state_id st) d' = Ret (StateDoc st) ∧
  ∃ msg, load_civilization (state_id st)
           (delete_civilization (state_id st) d').2
           = Raise (FileNotFoundError msg).
Proof.
  intros Hf Hfi Hcalls d'.
  assert (∀ k d0, locate k ≠ Some f →
            get (delete_civilization k d0).2 f = get d0 f) as Hdel.
  { intros k d0 Hk. unfold delete_civilization.
    set (d1 := match read k d0, locate k with
               | Some _, Some filepath => del filepath d0
               | _, _ => d0
               end).
    assert (get d1 f = get d0 f) as Hd1.
    { subst d1. unfold read. destruct (locate k) as [fk|]; simpl; [|done].
      destruct (get d0 fk); [|done]. rewrite get_del_ne; [done|congruence]. }
    destruct (get d1 index_file) as [[?|ix]|]; simpl; [done| |done].
    by rewrite get_set_ne. }
  assert (∀ st' now' d0, get d0 f = Some (StateDoc st) →
            locate (state_id st') = Some f ∧ st' = st ∨ locate (state_id st') ≠ Some f →
            get (save_civilization st' now' d0).2 f = Some (StateDoc st)) as Hsave.
  { intros st' now' d0 Hg Hk. unfold save_civilization, _update_index.
    destruct (locate (state_id st')) as [fk|] eqn:E; simpl; [|done].
    assert (get (set fk (StateDoc st') d0) f = Some (StateDoc st)) as Hg'.
    { destruct Hk as [[[= ->] ->]|Hk]; [by rewrite get_set_eq|].
      rewrite get_set_ne; [done|congruence]. }
    destruct (get (set fk (StateDoc st') d0) index_file) as [[?|ix]|];
      simpl; [done|by rewrite get_set_ne..]. }
  assert (get d' f = Some (StateDoc st)) as Hg.
  { subst d'. induction calls as [|c calls IH] using rev_ind.
    - simpl. unfold save_civilization, _update_index. rewrite Hf.
      assert (get (set f (StateDoc st) d) f = Some (StateDoc st)) as Hg'
        by (by rewrite get_set_eq).
      destruct (get (set f (StateDoc st) d) index_file) as [[?|ix]|];
        simpl; [done|by rewrite get_set_ne..].
    - apply Forall_app in Hcalls as [Hcalls Hc]. apply Forall_inv in Hc.
      rewrite foldl_app. simpl. destruct c as [st' now'|k]; simpl in *.
      + apply Hsave; [by apply IH|by right].
      + rewrite Hdel by done. by apply IH. }
  split.
  - unfold load_civilization, read. rewrite Hf. simpl. by rewrite Hg.
  - assert (get (delete_civilization (state_id st) d').2 f = None) as Hgone.
    { unfold delete_civilization, read. rewrite Hf. simpl. rewrite Hg.
      assert (get (del f d') f = None) as Hd by (by rewrite get_del_eq).
      destruct (get (del f d') index_file) as [[?|ix]|]; simpl;
        [done|by rewrite get_set_ne|done]. }
    unfold load_civilization, read. rewrite Hf. simpl. rewrite Hgone.
    by eexists.
Qed.

End Files.

(** *** A data directory without sub-directories

    Where [data_dir / f"{id}.json"] leads when the data directory holds
    files only: empty components and [.] are skipped, so the path stays in
    the directory when one name is left.  A path with more names goes
    through a sub-directory, and there is none; paths that leave the data
    directory, by [..] or by starting at the root, are not followed. *)
Definition in_data_dir (k : string) : option string :=
  if Sandbox.startswith "/" k then None
  else match filter (λ c, c ≠ "" ∧ c ≠ ".") (Sandbox.split "/" (k +:+ ".json")) with
       | [name] => if decide (name = "..") then None else Some name
       | _ => None
       end.

Definition other_state : CivilizationState :=
  {| state_id := "other"; state_name := "Other";
     state_primary_agent_id := None; agent_states := [];
     tool_definitions := []; alliances := [];
     state_creation_graph := [] |}.

Lemma index_agrees_with_files_witness :
  let st := state_data_of with_tools in
  let d := foldl (step (λ _, "") in_data_dir "index.json") empty_dir
             [Save st "t0"; Save other_state "t1";
              Delete "id-10"] in
  state_id st = "id-10" ∧
  ∃ e, list_civilizations "index.json" d = IndexDoc [e] ∧
       entry_id e = "other" ∧
       load_civilization in_data_dir "other" d = Ret (StateDoc other_state).
Proof.
  intros st d. split; [reflexivity|].
  destruct (index_agrees_with_files (λ _, "") in_data_dir "index.json"
              [Save st "t0"; Save other_state "t1";
               Delete "id-10"])
    as (entries & Hlist & _ & _ & _ & Hdesc).
  - repeat constructor; by eexists.
  - intros a b Ha Hb.
    change (a ∈ ["id-10"; "other"; "id-10"]) in Ha.
    change (b ∈ ["id-10"; "other"; "id-10"]) in Hb.
    rewrite !elem_of_cons, elem_of_nil in Ha, Hb.
    destruct Ha as [->|[->|[->|[]]]], Hb as [->|[->|[->|[]]]]; done.
  - fold d in Hlist, Hdesc. eexists. split; [reflexivity|]. split; reflexivity.
Defined.

Lemma load_after_save_witness :
  let st := state_data_of with_tools in
  state_id st = "id-10" ∧
  load_civilization in_data_dir "id-10"
    (foldl (step (λ _, "") in_data_dir "index.json")
       (save_civilization (λ _, "") in_data_dir "index.json" st "t0" empty_dir).2
       [Delete "elsewhere"; Save other_state "t1"])
    = Ret (StateDoc st).
Proof.
  intros st. split; [reflexivity|].
  refine (proj1 (load_after_save (λ _, "") in_data_dir "index.json" st "t0"
                   [Delete "elsewhere"; Save other_state "t1"]
                   empty_dir "id-10.json" eq_refl _ _)).
  - discriminate.
  - repeat constructor; discriminate.
Defined.

(** The id [index] leads to the index file.  Saving a state under it
    writes the state there and then fails on it; and once a civilization is
    saved, loading [index] returns the index, which does not list it.  The
    id [./id-10] leads to the file of [id-10]: loading it returns the state
    saved under [id-10], and deleting it removes that file while the index
    goes on listing [id-10]. *)
Lemma index_id :
  let st := state_data_of with_tools in
  let tagged := {| state_id := "index"; state_name := "Index";
                   state_primary_agent_id := None; agent_states := [];
                   tool_definitions := []; alliances := [];
                   state_creation_graph := [] |} in
  let d := (save_civilization (λ _, "") in_data_dir "index.json" st "t0"
              empty_dir).2 in
  let d' := (delete_civilization in_data_dir "index.json" "./id-10" d).2 in
  state_id st = "id-10" ∧
  (∃ entries, load_civilization in_data_dir "index" d = Ret (IndexDoc entries)
              ∧ entry_id <$> entries = ["id-10"]) ∧
  (save_civilization (λ _, "") in_data_dir "index.json" tagged "t1" d).1
    = Raise str_index_error ∧
  load_civilization in_data_dir "./id-10" d = Ret (StateDoc st) ∧
  (∃ entries, list_civilizations "index.json" d' = IndexDoc entries
              ∧ entry_id <$> entries = ["id-10"]) ∧
  ∃ msg, load_civilization in_data_dir "id-10" d' = Raise (FileNotFoundError msg).
Proof.
  split; [reflexivity|]. split; [eexists; split; reflexivity|].
  split; [reflexivity|]. split; [reflexivity|].
  split; eexists; [split|]; reflexivity.
Qed.

End Store.

(** ** tools/toolification.py: pattern detection *)

Module Analysis.
Import Py Exc Registry.

(** [ToolificationCandidate].  The field [suggested_schema] is the same
    constant in every candidate the engine builds and is left out;
    [agent_id] is named [candidate_agent_id]. *)
Record ToolificationCandidate := {
  pattern_description : string;
  candidate_agent_id : string;
  frequency : nat;
  example_invocations : list Input;
  suggested_name : string;
  suggested_description : string;
  suggested_implementation : string;
}.

(** [record.input_params.get("code", "")] *)
Definition code_of (r : ToolExecutionRecord) : string :=
  default "" (get (input_params r) "code").

(** [s.replace(a, b)] for one-character [a] and [b]. *)
Fixpoint replace_char (a b : ascii) (s : string) : string :=
  match s with
  | EmptyString => EmptyString
  | String c r => String (if decide (c = a) then b else c) (replace_char a b r)
  end.

Section Engine.

(** [str.lower], whose case tables are not reproduced. *)
Variable lower : string → string.

(** [ToolificationEngine._extract_skeleton], which [Toolification] embeds on
    code points.  The detection only compares its values, so it is taken as
    it comes. *)
Variable _extract_skeleton : string → string.

(** The engine: its registry and its threshold; the agent analysed, by id
    and name. *)
Variable registry : ToolRegistry.
Variable threshold : Z.
Variable agent_id agent_name : string.

Definition is_code_execution (r : ToolExecutionRecord) : Prop :=
  Registry.agent_id r = agent_id ∧ tool_name r = "sandbox" ∧ success r = true ∧
  get (input_params r) "action" = Some "exec_python".

#[local] Instance is_code_execution_dec r : Decision (is_code_execution r).
Proof. unfold is_code_execution. apply _. Defined.

Definition code_executions : list ToolExecutionRecord :=
  filter is_code_execution (_execution_log registry).

(** One step of the grouping loop: a record with a skeleton joins the list
    of its skeleton, which a [defaultdict] creates on first use. *)
Definition group (skeleton_groups : dict (list ToolExecutionRecord))
    (record : ToolExecutionRecord) : dict (list ToolExecutionRecord) :=
  let skeleton := _extract_skeleton (code_of record) in
  if decide (skeleton = "") then skeleton_groups
  else set skeleton (default [] (get skeleton_groups skeleton) ++ [record])
           skeleton_groups.

(** [_build_candidate_from_code]; a group is never empty, so [records[0]]
    exists. *)
Definition _build_candidate_from_code (skeleton : string)
    (records : list ToolExecutionRecord) : ToolificationCandidate :=
  let tool_count := length (get_all_tools registry) in
  {| pattern_description :=
       "Repeated code pattern detected (" +:+ pretty (length records)
       +:+ " occurrences)";
     candidate_agent_id := agent_id;
     frequency := length records;
     example_invocations := input_params <$> take 3 records;
     suggested_name :=
       "auto_" +:+ replace_char " " "_" (lower agent_name) +:+ "_tool_"
       +:+ pretty tool_count;
     suggested_description :=
       "Auto-detected repeated code pattern — refine before use";
     suggested_implementation := default "" (code_of <$> head records) |}.

(** [_detect_code_patterns] *)
Definition _detect_code_patterns : list ToolificationCandidate :=
  if Z.of_nat (length code_executions) <? threshold then []
  else
    let skeleton_groups := foldl group [] code_executions in
    omap (λ item,
            if Z.of_nat (length item.2) >=? threshold
            then Some (_build_candidate_from_code item.1 item.2) else None)
         skeleton_groups.

(** *** The groups *)






(** *** Sequences of tool calls *)

Definition is_agent_success (r : ToolExecutionRecord) : Prop :=
  Registry.agent_id r = agent_id ∧ success r = true.

#[local] Instance is_agent_success_dec r : Decision (is_agent_success r).
Proof. unfold is_agent_success. apply _. Defined.

Definition agent_records : list ToolExecutionRecord :=
  filter is_agent_success (_execution_log registry).

(** The pairs [(records[i].tool_name, records[i + 1].tool_name)]. *)
Definition bigrams (records : list ToolExecutionRecord) : list (string * string) :=
  zip (tool_name <$> records) (drop 1 (tool_name <$> records)).

(** A [Counter] keyed by pairs: counting a key that is absent files it last
    with the count 1. *)
Definition Counter := list ((string * string) * nat).

Fixpoint bump (k : string * string) (c : Counter) : Counter :=
  match c with
  | [] => [(k, 1%nat)]
  | (k', n) :: c' => if decide (k' = k) then (k', S n) :: c' else (k', n) :: bump k c'
  end.

(** One step of the counting loop: self-loops are skipped. *)
Definition count (c : Counter) (bigram : string * string) : Counter :=
  if decide (bigram.1 ≠ bigram.2) then bump bigram c else c.

(** [_build_candidate_from_sequence] *)
Definition _build_candidate_from_sequence (sequence : string * string) (n : nat)
    : ToolificationCandidate :=
  let tool_names := sequence.1 +:+ " → " +:+ sequence.2 in
  {| pattern_description :=
       "Repeated tool sequence: " +:+ tool_names +:+ " (" +:+ pretty n
       +:+ " occurrences)";
     candidate_agent_id := agent_id;
     frequency := n;
     example_invocations := [];
     suggested_name := "workflow_" +:+ sequence.1 +:+ "_then_" +:+ sequence.2;
     suggested_description := "Automated workflow: " +:+ tool_names;
     suggested_implementation := "# Composite workflow — needs refinement" |}.

(** [_detect_sequence_patterns] *)
Definition _detect_sequence_patterns : list ToolificationCandidate :=
  if Z.of_nat (length agent_records) <? threshold * 2 then []
  else
    let bigram_counter := foldl count [] (bigrams agent_records) in
    omap (λ item,
            if Z.of_nat item.2 >=? threshold
            then Some (_build_candidate_from_sequence item.1 item.2) else None)
         bigram_counter.

(** [ToolificationEngine.analyze] *)
Definition analyze : list ToolificationCandidate :=
  _detect_code_patterns ++ _detect_sequence_patterns.

(** The count a counter holds for a key, 0 when the key is absent. *)
Fixpoint tally (c : Counter) (k : string * string) : nat :=
  match c with
  | [] => 0
  | (k', n) :: c' => if decide (k' = k) then n else tally c' k
  end.

Definition occurrences (k : string * string) (l : list (string * string)) : nat :=
  length (filter (λ x, x = k) l).

Lemma tally_bump c k k' :
  tally (bump k c) k' = if decide (k = k') then S (tally c k') else tally c k'.
Proof.
  induction c as [|[k0 n] c IH]; simpl.
  - done.
  - destruct (decide (k0 = k)) as [->|Hne]; simpl.
    + by destruct (decide (k = k')).
    + rewrite IH. destruct (decide (k0 = k')) as [->|]; [|done].
      by rewrite decide_False.
Qed.

Lemma tally_count l c k :
  tally (foldl count c l) k
    = (tally c k + if decide (k.1 ≠ k.2) then occurrences k l else 0)%nat.
Proof.
  revert c. induction l as [|b l IH]; intros c; simpl.
  - unfold occurrences. simpl. destruct (decide _); lia.
  - rewrite IH. unfold count, occurrences. rewrite filter_cons.
    destruct (decide (b.1 ≠ b.2)) as [Hb|Hb].
    + rewrite tally_bump. destruct (decide (b = k)) as [->|Hne].
      * destruct (decide (k.1 ≠ k.2)); [simpl; lia|done].
      * done.
    + destruct (decide (b = k)) as [->|Hne]; [|done].
      by destruct (decide (k.1 ≠ k.2)).
Qed.

(** The keys of a counter are distinct and its counts positive. *)
Definition tidy (c : Counter) : Prop :=
  NoDup c.*1 ∧ Forall (λ e, (1 ≤ e.2)%nat) c.

Lemma bump_keys c k x : x ∈ (bump k c).*1 → x = k ∨ x ∈ c.*1.
Proof.
  induction c as [|[k0 n] c IH]; simpl.
  - intros ->%list_elem_of_singleton. by left.
  - destruct (decide (k0 = k)); simpl; rewrite !elem_of_cons.
    + intros [->|?]; auto.
    + intros [->|H]; [auto|]. destruct (IH H); auto.
Qed.

Lemma bump_tidy c k : tidy c → tidy (bump k c).
Proof.
  intros [Hnd Hpos]. induction c as [|[k0 n] c IH]; simpl.
  - split; [apply NoDup_singleton|]. by apply Forall_singleton.
  - apply NoDup_cons in Hnd as [H0 Hnd]. apply Forall_cons in Hpos as [Hn Hpos].
    destruct (IH Hnd Hpos) as [IH1 IH2].
    destruct (decide (k0 = k)) as [->|Hne]; split; simpl.
    + by apply NoDup_cons.
    + apply Forall_cons. split; [simpl in *; lia|done].
    + apply NoDup_cons. split; [|done]. intros Hin.
      apply bump_keys in Hin as [->|Hin]; done.
    + by apply Forall_cons.
Qed.

Lemma count_tidy l c : tidy c → tidy (foldl count c l).
Proof.
  revert c. induction l as [|b l IH]; intros c Hc; [done|].
  simpl. apply IH. unfold count. destruct (decide _); [by apply bump_tidy|done].
Qed.

Lemma tidy_elem c k n : tidy c → (k, n) ∈ c ↔ tally c k = n ∧ (1 ≤ n)%nat.
Proof.
  intros [Hnd Hpos]. induction c as [|[k0 n0] c IH]; simpl.
  - split; [by intros ?%elem_of_nil|]. intros [<- ?]. lia.
  - apply NoDup_cons in Hnd as [H0 Hnd]. apply Forall_cons in Hpos as [Hn Hpos].
    simpl in *. rewrite elem_of_cons, (IH Hnd Hpos).
    destruct (decide (k0 = k)) as [->|Hne].
    + split; [intros [[= <-]|[Ht Hn1]]|intros [<- ?]; by left].
      * done.
      * exfalso. apply H0. clear -Ht Hn1. induction c as [|[k1 n1] c IH]; simpl in *.
        -- lia.
        -- destruct (decide (k1 = k)) as [->|]; [left|right; by apply IH].
    + split; [intros [[= ? ?]|?]; [done|done]|intros ?; by right].
Qed.

(** X14.  [_detect_sequence_patterns] proposes a candidate for each pair of
    different tools that follow one another at least [threshold] times in
    the agent's successful calls, when there are at least twice [threshold]
    such calls, and no other candidate; the candidate counts the times the
    pair occurs. *)
Theorem sequence_patterns (c : ToolificationCandidate) :
  c ∈ _detect_sequence_patterns ↔
  ∃ a b, a ≠ b ∧
    let n := occurrences (a, b) (bigrams agent_records) in
    (1 ≤ n)%nat ∧ threshold ≤ Z.of_nat n ∧
    threshold * 2 ≤ Z.of_nat (length agent_records) ∧
    c = _build_candidate_from_sequence (a, b) n.
Proof.
  unfold _detect_sequence_patterns.
  assert (tidy (foldl count [] (bigrams agent_records))) as Htidy.
  { apply count_tidy. split; [apply NoDup_nil_2|apply Forall_nil_2]. }
  destruct (Z.ltb_spec (Z.of_nat (length agent_records)) (threshold * 2)).
  { split; [by intros ?%elem_of_nil|]. intros (a & b & _ & _ & _ & ? & _). lia. }
  rewrite list_elem_of_omap. split.
  - intros ([[a b] n] & Hin & Hc). simpl in Hc.
    destruct (Z.geb_spec (Z.of_nat n) threshold) as [Hge|]; [|done].
    injection Hc as <-. apply (tidy_elem _ _ _ Htidy) in Hin as [Ht Hn].
    rewrite tally_count in Ht. simpl in Ht.
    destruct (decide (a ≠ b)) as [Hab|]; [|lia].
    exists a, b. simpl. rewrite Ht. done.
  - intros (a & b & Hab & Hn & Hge & _ & ->).
    exists ((a, b), occurrences (a, b) (bigrams agent_records)). split.
    + apply (tidy_elem _ _ _ Htidy). split; [|done].
      rewrite tally_count. simpl. by rewrite decide_True.
    + simpl. destruct (Z.geb_spec (Z.of_nat (occurrences (a, b) (bigrams agent_records)))
                         threshold); [done|lia].
Qed.

End Engine.

End Analysis.

(** ** tools/builtin.py: the sandbox tool *)

Module SandboxTool.
Import Py Exc Sandbox.

Definition nl : string := String "010"%char "".

(** [ExecResult], without the wall-clock field [duration_ms]. *)
Record ExecResult := {
  stdout : string;
  stderr : string;
  exit_code : Z;
  timed_out : bool;
  error : option string;
}.

(** Truth value of a string. *)
Definition nonempty (s : string) : bool := negb (String.eqb s "").

(** [part] when the condition holds. *)
Definition when (b : bool) (part : string) : list string :=
  if b then [part] else [].

(** [sep.join(parts) if parts else "(no output)"] *)
Definition report (parts : list string) : string :=
  match parts with
  | [] => "(no output)"
  | _ => join nl parts
  end.

Section Tool.

(** The operations of the manager that run a process in the container. *)
Variable exec_python exec_shell install_package :
  string → string → SandboxManager → outcome ExecResult * SandboxManager.
Variable list_files :
  string → string → SandboxManager → outcome (list string) * SandboxManager.

(** [execute_sandbox], with the agent given by its id. *)
Definition execute_sandbox (agent_id : string) (input : Input) (m : SandboxManager)
    : outcome string * SandboxManager :=
  match get input "action" with
  | None => (Raise (KeyError "action"), m)
  | Some action =>
      if decide (action = "exec_python") then
        let code := default "" (get input "code") in
        if negb (nonempty code) then
          (Ret "Error: 'code' is required for exec_python.", m)
        else
          match exec_python agent_id code m with
          | (Ret result, m) =>
              (Ret (report
                      (when (nonempty (stdout result))
                            ("stdout:" +:+ nl +:+ stdout result)
                       ++ when (nonempty (stderr result))
                               ("stderr:" +:+ nl +:+ stderr result)
                       ++ match error result with
                          | Some e => when (nonempty e) ("error: " +:+ e)
                          | None => []
                          end
                       ++ when (timed_out result) "(execution timed out)"
                       ++ when (negb (exit_code result =? 0))
                               ("exit code: " +:+ pretty (exit_code result)))),
               m)
          | (Raise e, m) => (Raise e, m)
          end
      else if decide (action = "exec_shell") then
        let command := default "" (get input "command") in
        if negb (nonempty command) then
          (Ret "Error: 'command' is required for exec_shell.", m)
        else
          match exec_shell agent_id command m with
          | (Ret result, m) =>
              (Ret (report
                      (when (nonempty (stdout result)) (stdout result)
                       ++ when (nonempty (stderr result))
                               ("stderr: " +:+ stderr result)
                       ++ when (negb (exit_code result =? 0))
                               ("exit code: " +:+ pretty (exit_code result)))),
               m)
          | (Raise e, m) => (Raise e, m)
          end
      else if decide (action = "read_file") then
        let path := default "" (get input "path") in
        if negb (nonempty path) then
          (Ret "Error: 'path' is required for read_file.", m)
        else
          match read_file agent_id path m with
          | (Ret content, m) => (Ret content, m)
          | (Raise (FileNotFoundError msg as e), m)
          | (Raise (PermissionError msg as e), m) => (Ret ("Error: " +:+ str e), m)
          | (Raise e, m) => (Raise e, m)
          end
      else if decide (action = "write_file") then
        let path := default "" (get input "path") in
        let content := default "" (get input "content") in
        if negb (nonempty path) then
          (Ret "Error: 'path' is required for write_file.", m)
        else
          match write_file agent_id path content m with
          | (Ret _, m) => (Ret ("File written: " +:+ path), m)
          | (Raise (PermissionError msg as e), m) => (Ret ("Error: " +:+ str e), m)
          | (Raise e, m) => (Raise e, m)
          end
      else if decide (action = "list_files") then
        let path := default "/workspace" (get input "path") in
        match list_files agent_id path m with
        | (Ret [], m) => (Ret "No files in workspace.", m)
        | (Ret files, m) =>
            (Ret ("Files:" +:+ nl +:+ join nl ((λ f, "  - " +:+ f) <$> files)), m)
        | (Raise e, m) => (Raise e, m)
        end
      else if decide (action = "install_package") then
        let package := default "" (get input "package") in
        if negb (nonempty package) then
          (Ret "Error: 'package' is required for install_package.", m)
        else
          match install_package agent_id package m with
          | (Ret result, m) =>
              if exit_code result =? 0
              then (Ret ("Package '" +:+ package +:+ "' installed successfully."), m)
              else (Ret ("Error installing '" +:+ package +:+ "':" +:+ nl
                         +:+ stderr result), m)
          | (Raise e, m) => (Raise e, m)
          end
      else (Ret ("Unknown action: " +:+ action), m)
  end.






End Tool.

(** The examples use the file actions only: the operations that run a
    process are fixed as ones that fail. *)
Definition no_exec {A} (agent_id arg : string) (m : SandboxManager)
    : outcome A * SandboxManager :=
  (Raise (RuntimeError "exec failed"), m).


(** A path that ends in [/]: the write is reported as written, no file is
    there, and the read answers with the error text for a directory. *)
Lemma sandbox_tool_directory :
  let tool := execute_sandbox no_exec no_exec no_exec no_exec in
  let out := tool "agent-1" [("action", "write_file"); ("path", "notes/");
                             ("content", "hello")] example_manager in
  out.1 = Ret "File written: notes/" ∧
  (tool "agent-1" [("action", "read_file"); ("path", "notes/")] out.2).1
    = Ret "Error: Cannot read /workspace/notes/ (is it a directory?)".
Proof. split; reflexivity. Qed.

End SandboxTool.
